(** * health-rag-enjp: the chunker and the FAISS index manager

    A shallow embedding of [app/api/ingest.py] ([chunk_text]) and of
    [app/storage/faiss_index.py] ([FaissIndexManager]), with the
    properties the specification states about them.

    Python values are modelled as the interpreter has them: [int] is [Z]
    (unbounded), [str] is a list of Unicode code points, [float] is IEEE
    binary64 through the Standard Library's [SpecFloat], an exception is a
    left injection. *)

From Stdlib Require Import ZArith List Lia Bool String Ascii Sorted.
From Stdlib Require Import Floats.SpecFloat.
From Stdlib Require Import DecimalString.
From Stdlib Require DecimalPos DecimalZ.
Import ListNotations.
Open Scope Z_scope.

(** ** Exceptions *)

Module Py.

(** The exception classes the modelled code can raise. *)
Inductive exn :=
| ValueError
| IntegrityError
| AssertionError
| OverflowError.

End Py.

(** ** Python strings, slices and the string methods [chunk_text] calls *)

Module PyStr.

(** A [str] is a sequence of code points; [char] is one code point. *)
Definition char := N.
Definition str := list char.

Definition len (s : str) : Z := Z.of_nat (List.length s).

(** Slice bounds as [PySlice_AdjustIndices] clips them for step 1: a
    negative bound counts from the end and is clipped at 0, a bound past
    the end is clipped at the length. *)
Definition adjust_index (i n : Z) : Z :=
  if i <? 0 then Z.max (i + n) 0 else Z.min i n.

(** [s[start:stop]] *)
Definition slice (s : str) (start stop : Z) : str :=
  let a := adjust_index start (len s) in
  let b := adjust_index stop (len s) in
  firstn (Z.to_nat (b - a)) (skipn (Z.to_nat a) s).

Fixpoint starts_with (sub s : str) : bool :=
  match sub, s with
  | [], _ => true
  | _ :: _, [] => false
  | c :: sub', d :: s' => N.eqb c d && starts_with sub' s'
  end.

(** [rfind_from s sub i last]: [s] is the suffix of the subject that starts
    at index [i]; [last] is the highest match found to the left of [i]. *)
Fixpoint rfind_from (s sub : str) (i last : Z) : Z :=
  match s with
  | [] => if starts_with sub [] then i else last
  | _ :: s' => rfind_from s' sub (i + 1) (if starts_with sub s then i else last)
  end.

(** [s.rfind(sub)]: the highest index at which [sub] occurs, or -1. *)
Definition rfind (s sub : str) : Z := rfind_from s sub 0 (-1).

(** [str.isspace] on one code point ([_PyUnicode_IsWhitespace]). *)
Definition isspace (c : char) : bool :=
  ((9 <=? c) && (c <=? 13) || (28 <=? c) && (c <=? 32)
   || (c =? 133) || (c =? 160) || (c =? 5760)
   || (8192 <=? c) && (c <=? 8202)
   || (c =? 8232) || (c =? 8233) || (c =? 8239) || (c =? 8287)
   || (c =? 12288))%N.

Fixpoint lstrip (s : str) : str :=
  match s with
  | [] => []
  | c :: s' => if isspace c then lstrip s' else s
  end.

Definition rstrip (s : str) : str := rev (lstrip (rev s)).

(** [s.strip()] *)
Definition strip (s : str) : str := rstrip (lstrip s).

(** Truth value of a [str]: empty is false. *)
Definition truthy (s : str) : bool :=
  match s with [] => false | _ :: _ => true end.

(** The [str] of an ASCII literal. *)
Fixpoint of_string (s : string) : str :=
  match s with
  | EmptyString => []
  | String c s' => N_of_ascii c :: of_string s'
  end.

(** [str(z)] for an [int]: its decimal digits, with a sign when negative. *)
Definition decimal (z : Z) : str :=
  of_string (NilZero.string_of_int (Z.to_int z)).

End PyStr.

(** ** Python floats: what [last_delim > max_size * 0.6] computes *)

Module PyFloat.

Definition prec : Z := 53.
Definition emax : Z := 1024.

(** [float(z)], as [int * float] converts its left operand: rounded to
    nearest even; [None] is [OverflowError] (int too large). *)
Definition float_of_int (z : Z) : option spec_float :=
  match binary_normalize prec emax z 0 false with
  | S754_infinity _ => None
  | f => Some f
  end.

(** The literal [0.6]: the binary64 number nearest to 6/10. *)
Definition lit_0_6 : spec_float := S754_finite false 5404319552844595 (-53).

Definition mul : spec_float -> spec_float -> spec_float := SFmul prec emax.

(** [z > f] for an [int] and a [float]: Python compares the exact values. *)
Definition int_gt_float (z : Z) (f : spec_float) : bool :=
  match f with
  | S754_zero _ => 0 <? z
  | S754_infinity s => s
  | S754_nan => false
  | S754_finite s m e =>
      let v := cond_Zopp s (Zpos m) in
      match e with
      | Z0 => v <? z
      | Zpos _ => v * 2 ^ e <? z
      | Zneg p => v <? z * 2 ^ (Zpos p)
      end
  end.

End PyFloat.

(** ** [chunk_text] ([app/api/ingest.py]) *)

Module Chunker.
Import Py PyStr PyFloat.

(** The list the [for delimiter in ...] loop walks:
    full-width period, period, full-width and half-width exclamation
    mark, full-width and half-width question mark, two line feeds. *)
Definition delimiters : list str :=
  [[12290]; [46]; [65281]; [33]; [65311]; [63]; [10; 10]]%N.

(** [last_delim > max_size * 0.6] *)
Definition beyond_threshold (max_size last_delim : Z) : exn + bool :=
  match float_of_int max_size with
  | None => inl OverflowError
  | Some f => inr (int_gt_float last_delim (mul f lit_0_6))
  end.

(** The [for delimiter in ...] loop with its [break]: the value of [end]
    when the loop is left. *)
Fixpoint scan_delimiters (text : str) (max_size start end_ : Z)
         (ds : list str) : exn + Z :=
  match ds with
  | [] => inr end_
  | delimiter :: ds' =>
      let last_delim := rfind (slice text start end_) delimiter in
      match beyond_threshold max_size last_delim with
      | inl e => inl e
      | inr true => inr (start + last_delim + 1)
      | inr false => scan_delimiters text max_size start end_ ds'
      end
  end.

(** The value of [end] at the line [chunk = text[start:end].strip()]. *)
Definition cut_point (text : str) (max_size start : Z) : exn + Z :=
  let end_ := start + max_size in
  if end_ <? len text
  then scan_delimiters text max_size start end_ delimiters
  else inr end_.

Record loop_state := { st_start : Z; st_chunks : list str }.

Inductive step_result :=
| Continue (s : loop_state)
| Return (chunks : list str)
| Raise (e : exn).

(** One test of [while start < len(text)] and, when it holds, one run of
    the loop body. *)
Definition loop_step (text : str) (max_size overlap : Z) (s : loop_state)
  : step_result :=
  if st_start s <? len text then
    match cut_point text max_size (st_start s) with
    | inl e => Raise e
    | inr end_ =>
        let chunk := strip (slice text (st_start s) end_) in
        let chunks := if truthy chunk then st_chunks s ++ [chunk]
                      else st_chunks s in
        let start := if end_ <? len text then end_ - overlap else end_ in
        Continue {| st_start := start; st_chunks := chunks |}
    end
  else Return (st_chunks s).

(** The [while] loop; [None] when [fuel] tests of the condition did not
    reach the [return]. *)
Fixpoint chunk_loop (fuel : nat) (text : str) (max_size overlap : Z)
         (s : loop_state) : option (exn + list str) :=
  match fuel with
  | O => None
  | S fuel' =>
      match loop_step text max_size overlap s with
      | Continue s' => chunk_loop fuel' text max_size overlap s'
      | Return chunks => Some (inr chunks)
      | Raise e => Some (inl e)
      end
  end.

Definition chunk_text (fuel : nat) (text : str) (max_size overlap : Z)
  : option (exn + list str) :=
  if len text <=? max_size then Some (inr [text])
  else chunk_loop fuel text max_size overlap
                  {| st_start := 0; st_chunks := [] |}.

(** The loop state after [n] iterations, when the loop runs that long. *)
Fixpoint state_after (n : nat) (text : str) (max_size overlap : Z)
         (s : loop_state) : option loop_state :=
  match n with
  | O => Some s
  | S n' =>
      match loop_step text max_size overlap s with
      | Continue s' => state_after n' text max_size overlap s'
      | _ => None
      end
  end.

(** The window start positions of the first [n] iterations (fewer when
    the loop ends earlier). *)
Fixpoint starts_visited (n : nat) (text : str) (max_size overlap : Z)
         (s : loop_state) : list Z :=
  match n with
  | O => []
  | S n' =>
      match loop_step text max_size overlap s with
      | Continue s' =>
          st_start s :: starts_visited n' text max_size overlap s'
      | _ => []
      end
  end.

Definition initial : loop_state := {| st_start := 0; st_chunks := [] |}.

End Chunker.


(** ** The FAISS index ([faiss.IndexFlatIP] behind the Python wrapper) *)

Module Faiss.
Import Py.

(** One stored vector.  The float32 components are read as integers on a
    fixed scale: the manager never looks inside a vector, it only hands
    them to the library and reads back scores and positions. *)
Definition vector := list Z.

(** A two-dimensional array of shape [(length rows, ncols)], as
    [embed_texts] returns for a non-empty list; [len] of it is the number
    of rows. *)
Record ndarray := { ncols : Z; rows : list vector }.

Record index := { d : Z; xb : list vector }.

Definition ntotal (i : index) : Z := Z.of_nat (List.length (xb i)).

Definition IndexFlatIP (dimension : Z) : index :=
  {| d := dimension; xb := [] |}.

(** [index.add(x)]: [assert d == self.d], then the rows are appended. *)
Definition add (i : index) (x : ndarray) : exn + index :=
  if ncols x =? d i
  then inr {| d := d i; xb := xb i ++ rows x |}
  else inl AssertionError.

Fixpoint inner_product (a b : vector) : Z :=
  match a, b with
  | x :: a', y :: b' => x * y + inner_product a' b'
  | _, _ => 0
  end.

(** A hit is [(score, label)]; the label is the 0-based position. *)
Definition hit := (Z * Z)%type.

Fixpoint scores_from (q : vector) (vs : list vector) (label : Z) : list hit :=
  match vs with
  | [] => []
  | v :: vs' => (inner_product q v, label) :: scores_from q vs' (label + 1)
  end.

Fixpoint insert_desc (h : hit) (l : list hit) : list hit :=
  match l with
  | [] => [h]
  | h' :: l' => if fst h <? fst h' then h' :: insert_desc h l' else h :: l
  end.

Fixpoint sort_desc (l : list hit) : list hit :=
  match l with
  | [] => []
  | h :: l' => insert_desc h (sort_desc l')
  end.

(** The slot FAISS leaves when fewer than [k] vectors exist: label -1. *)
Definition empty_slot : hit := (0, -1).

(** [index.search(x, k)] for one query row: [assert d == self.d],
    [assert k > 0], then the [k] best hits, best first, short results
    filled up with empty slots. *)
Definition search (i : index) (q : vector) (k : Z) : exn + list hit :=
  if negb (Z.of_nat (List.length q) =? d i) then inl AssertionError
  else if negb (0 <? k) then inl AssertionError
  else
    let best := firstn (Z.to_nat k) (sort_desc (scores_from q (xb i) 0)) in
    inr (best ++ repeat empty_slot (Z.to_nat k - List.length best)).

End Faiss.

(** ** The metadata table ([sqlite3], table [documents]) *)

Module Sqlite.
Import Py PyStr.

(** A row of [documents].  Column [created_at] has a default and is never
    read; it is left out. *)
Record row := {
  id : Z;
  doc_id : str;
  text : str;
  language : str;
  filename : str;
  chunk_index : Z
}.

Definition table := list row.

(** A connection: the rows of the database file and the rows inserted by
    the open transaction. *)
Record connection := { committed : table; pending : list row }.

Definition connect (file : table) : connection :=
  {| committed := file; pending := [] |}.

Definition visible (c : connection) : table := committed c ++ pending c.

(** SQLite's INTEGER is a signed 64-bit value. *)
Definition fits_int64 (z : Z) : bool :=
  (- 2 ^ 63 <=? z) && (z <=? 2 ^ 63 - 1).

Definition str_eqb (a b : str) : bool :=
  if list_eq_dec N.eq_dec a b then true else false.

(** [INSERT INTO documents (id, doc_id, text, language, filename,
    chunk_index) VALUES (...)]: binding an int outside 64 bits raises
    [OverflowError]; [id INTEGER PRIMARY KEY] and [doc_id TEXT UNIQUE]
    raise [IntegrityError] on a duplicate. *)
Definition insert (c : connection) (r : row) : exn + connection :=
  if negb (fits_int64 (id r) && fits_int64 (chunk_index r))
  then inl OverflowError
  else if existsb (fun r' => (id r' =? id r) || str_eqb (doc_id r') (doc_id r))
                  (visible c)
  then inl IntegrityError
  else inr {| committed := committed c; pending := pending c ++ [r] |}.

Definition commit (c : connection) : connection :=
  {| committed := visible c; pending := [] |}.

Definition rollback (c : connection) : connection :=
  {| committed := committed c; pending := [] |}.

(** [conn.close()]: what the file holds afterwards. *)
Definition close (c : connection) : table := committed c.

(** [SELECT ... FROM documents WHERE id = ?], [fetchone()]. *)
Definition select_by_id (t : table) (k : Z) : option row :=
  find (fun r => id r =? k) t.

(** [SELECT COUNT( * ) FROM documents] *)
Definition count (t : table) : Z := Z.of_nat (List.length t).

(** [SELECT MAX(id) FROM documents]: [None] on an empty table. *)
Fixpoint max_id (t : table) : option Z :=
  match t with
  | [] => None
  | r :: t' =>
      match max_id t' with
      | None => Some (id r)
      | Some m => Some (Z.max (id r) m)
      end
  end.

End Sqlite.

(** ** [FaissIndexManager] ([app/storage/faiss_index.py]) *)

Module FaissIndexManager.
Import Py PyStr.

(** What [index_path] holds: a blob [faiss.read_index] accepts, or bytes
    it rejects. *)
Inductive file :=
| Blob (i : Faiss.index)
| Corrupt.

(** The two artifacts on disk. *)
Record disk := {
  metadata_db : Sqlite.table;
  index_file : option file
}.

(** The manager object together with the files it owns. *)
Record manager := {
  dimension : Z;
  index : Faiss.index;
  doc_counter : Z;
  storage : disk
}.

Definition documents (m : manager) : Sqlite.table := metadata_db (storage m).

(** [self._doc_counter = max_id if max_id else 0] *)
Definition restore_counter (t : Sqlite.table) : Z :=
  match Sqlite.max_id t with
  | None => 0
  | Some max_id => if max_id =? 0 then 0 else max_id
  end.

(** [_create_new_index] *)
Definition create_new_index (dimension : Z) : Faiss.index :=
  Faiss.IndexFlatIP dimension.

(** [_load_or_create_index]: the index it sets and the value it leaves
    in [_doc_counter], which [__init__] has set to 0 before.  The counter
    is read from the table only on the path where the index file exists
    and [faiss.read_index] accepts it. *)
Definition load_or_create_index (dsk : disk) (dimension : Z)
  : Faiss.index * Z :=
  match index_file dsk with
  | Some (Blob i) => (i, restore_counter (metadata_db dsk))
  | Some Corrupt => (create_new_index dimension, 0)
  | None => (create_new_index dimension, 0)
  end.

(** [__init__]: [_init_metadata_db] creates the table when the file has
    none (an absent table is the empty table here), then
    [_load_or_create_index]. *)
Definition init (dsk : disk) (dimension : Z) : manager :=
  {| dimension := dimension;
     index := fst (load_or_create_index dsk dimension);
     doc_counter := snd (load_or_create_index dsk dimension);
     storage := dsk |}.

(** [f"doc_{self._doc_counter}"] *)
Definition make_doc_id (counter : Z) : str :=
  of_string "doc_" ++ decimal counter.

(** [zip(texts, languages, filenames, chunk_indices)]: as long as the
    shortest argument. *)
Fixpoint zip4 (texts languages filenames : list str) (chunk_indices : list Z)
  : list (str * str * str * Z) :=
  match texts, languages, filenames, chunk_indices with
  | t :: ts, l :: ls, f :: fs, c :: cs => (t, l, f, c) :: zip4 ts ls fs cs
  | _, _, _, _ => []
  end.

(** What the [for] loop of [add_documents] updates. *)
Record add_state := {
  a_counter : Z;
  a_doc_ids : list str;
  a_conn : Sqlite.connection
}.

(** The [for] loop of [add_documents]; the first component is the
    exception that left it, if any. *)
Fixpoint insert_loop (items : list (str * str * str * Z)) (s : add_state)
  : option exn * add_state :=
  match items with
  | [] => (None, s)
  | (text, lang, fname, chunk_idx) :: items' =>
      let counter := a_counter s + 1 in
      let doc_id := make_doc_id counter in
      let doc_ids := a_doc_ids s ++ [doc_id] in
      match Sqlite.insert (a_conn s)
              {| Sqlite.id := counter; Sqlite.doc_id := doc_id;
                 Sqlite.text := text; Sqlite.language := lang;
                 Sqlite.filename := fname; Sqlite.chunk_index := chunk_idx |}
      with
      | inl e =>
          (Some e, {| a_counter := counter; a_doc_ids := doc_ids;
                      a_conn := a_conn s |})
      | inr conn =>
          insert_loop items' {| a_counter := counter; a_doc_ids := doc_ids;
                                a_conn := conn |}
      end
  end.

Definition with_documents (m : manager) (t : Sqlite.table) : disk :=
  {| metadata_db := t; index_file := index_file (storage m) |}.

(** [add_documents]: the result (an exception or the list of doc ids) and
    the manager afterwards. *)
Definition add_documents (m : manager) (texts : list str)
           (embeddings : Faiss.ndarray) (languages filenames : list str)
           (chunk_indices : list Z) : (exn + list str) * manager :=
  if negb (Nat.eqb (List.length texts)
                   (List.length (Faiss.rows embeddings)))
  then (inl ValueError, m)
  else
    let conn := Sqlite.connect (documents m) in
    let s0 := {| a_counter := doc_counter m; a_doc_ids := [];
                 a_conn := conn |} in
    match insert_loop (zip4 texts languages filenames chunk_indices) s0 with
    | (Some e, s) =>
        (* except: conn.rollback(); raise; finally: conn.close() *)
        (inl e,
         {| dimension := dimension m; index := index m;
            doc_counter := a_counter s;
            storage := with_documents m
                         (Sqlite.close (Sqlite.rollback (a_conn s))) |})
    | (None, s) =>
        match Faiss.add (index m) embeddings with
        | inl e =>
            (inl e,
             {| dimension := dimension m; index := index m;
                doc_counter := a_counter s;
                storage := with_documents m
                             (Sqlite.close (Sqlite.rollback (a_conn s))) |})
        | inr index' =>
            (inr (a_doc_ids s),
             {| dimension := dimension m; index := index';
                doc_counter := a_counter s;
                storage := with_documents m
                             (Sqlite.close (Sqlite.commit (a_conn s))) |})
        end
    end.

(** One entry of the list [search] returns. *)
Record result := {
  r_doc_id : str;
  r_text : str;
  r_language : str;
  r_filename : str;
  r_score : Z
}.

Definition result_of (r : Sqlite.row) (score : Z) : result :=
  {| r_doc_id := Sqlite.doc_id r; r_text := Sqlite.text r;
     r_language := Sqlite.language r; r_filename := Sqlite.filename r;
     r_score := score |}.

(** The [for score, idx in zip(scores[0], indices[0])] loop. *)
Fixpoint fetch_loop (t : Sqlite.table) (hits : list Faiss.hit)
         (results : list result) : list result :=
  match hits with
  | [] => results
  | (score, idx) :: hits' =>
      if idx =? -1 then fetch_loop t hits' results
      else
        let db_id := idx + 1 in
        match Sqlite.select_by_id t db_id with
        | Some row => fetch_loop t hits' (results ++ [result_of row score])
        | None => fetch_loop t hits' results
        end
  end.

(** [search(query_embedding, top_k)] for a one-dimensional query. *)
Definition search (m : manager) (query_embedding : Faiss.vector) (top_k : Z)
  : exn + list result :=
  if Faiss.ntotal (index m) =? 0 then inr []
  else
    match Faiss.search (index m) query_embedding
                       (Z.min top_k (Faiss.ntotal (index m))) with
    | inl e => inl e
    | inr hits => inr (fetch_loop (documents m) hits [])
    end.

(** [persist()]: the index is written when it holds a vector. *)
Definition persist (m : manager) : manager :=
  if 0 <? Faiss.ntotal (index m)
  then {| dimension := dimension m; index := index m;
          doc_counter := doc_counter m;
          storage := {| metadata_db := documents m;
                        index_file := Some (Blob (index m)) |} |}
  else m.

(** [get_stats()]: total_documents, total_vectors, dimension. *)
Definition get_stats (m : manager) : Z * Z * Z :=
  (Sqlite.count (documents m), Faiss.ntotal (index m), dimension m).

(** A manager on empty storage. *)
Definition fresh (dimension : Z) : manager :=
  init {| metadata_db := []; index_file := None |} dimension.

(** The process ends and a new manager is built on the same paths. *)
Definition restart (m : manager) : manager :=
  init (storage m) (dimension m).

End FaissIndexManager.


(** ** [truncate_text], [create_snippet] ([app/models/schemas.py]) *)

Module Schemas.
Import Py PyStr PyFloat.

(** The literal [0.7]: the binary64 number nearest to 7/10. *)
Definition lit_0_7 : spec_float := S754_finite false 6305039478318694 (-53).

(** The argument of the first [rfind], commented [# Japanese period].
    As the file is stored it is the three code points U+00E3, U+20AC,
    U+201A, not the full-width period U+3002. *)
Definition japanese_period : str := [227; 8364; 8218]%N.

Definition period : str := of_string ".".

Definition ellipsis : str := of_string "...".

(** [truncate_text(text, max_length)] *)
Definition truncate_text (text : str) (max_length : Z) : exn + str :=
  if len text <=? max_length then inr text
  else
    let truncated := slice text 0 max_length in
    let last_period := rfind truncated japanese_period in
    let last_period :=
      if last_period =? -1 then rfind truncated period else last_period in
    match float_of_int max_length with
    | None => inl OverflowError
    | Some f =>
        if int_gt_float last_period (mul f lit_0_7)
        then inr (slice truncated 0 (last_period + 1))
        else inr (truncated ++ ellipsis)
    end.

(** [create_snippet(text, max_length)] *)
Definition create_snippet (text : str) (max_length : Z) : exn + str :=
  truncate_text text max_length.

End Schemas.

(** ** Settings ([app/core/config.py]) *)

Module Config.
Import PyStr.

(** The fields of [Settings] the code below reads. *)
Record settings := {
  translation_backend : str;
  translation_model_en_ja : str;
  translation_model_ja_en : str;
  max_chunk_size : Z;
  chunk_overlap : Z
}.

(** The defaults of the class. *)
Definition defaults : settings :=
  {| translation_backend := of_string "transformers";
     translation_model_en_ja := of_string "Helsinki-NLP/opus-mt-en-jap";
     translation_model_ja_en := of_string "Helsinki-NLP/opus-mt-jap-en";
     max_chunk_size := 1000;
     chunk_overlap := 200 |}.

End Config.

(** ** Exceptions of the endpoints, and a few more operations of Python *)

Module Errors.
Import Py PyStr.

(** What a statement of an endpoint can raise: an exception of the code
    modelled above, [IndexError], an [HTTPException] with its status
    code, or whatever comes out of a call into a library. *)
Inductive error :=
| Raised (e : exn)
| IndexError
| HTTPException (status_code : Z)
| LibraryError.

(** [a == b] on [str] *)
Definition eqb (a b : str) : bool :=
  if list_eq_dec N.eq_dec a b then true else false.

(** [s.endswith(suffix)] *)
Definition endswith (s suffix : str) : bool :=
  starts_with (rev suffix) (rev s).

(** [list(range(n))] *)
Definition range (n : nat) : list Z := map Z.of_nat (seq 0 n).

End Errors.

(** ** [detect_language] ([app/utils/langdetect.py]) *)

Module LangDetect.
Import Py PyStr Errors.

(** What [langdetect.detect] ends in: a language code, or
    [LangDetectException]. *)
Inductive detection :=
| Detected (lang : str)
| LangDetectException.

Section WithLibrary.

(** [langdetect.detect] *)
Variable detect : str -> detection.

Definition detect_language (text : str) : str :=
  if negb (truthy text) || (len (strip text) <? 3) then of_string "en"
  else
    match detect text with
    | Detected lang =>
        if eqb lang (of_string "ja") then of_string "ja" else of_string "en"
    | LangDetectException => of_string "en"
    end.

End WithLibrary.

End LangDetect.

(** ** [translate] and its pipelines ([app/utils/translation.py]) *)

Module Translation.
Import Py PyStr Errors.

(** The dict [_translation_pipelines]: key to loaded pipeline.  A
    pipeline is known by the name of the model it was loaded from. *)
Definition pipelines := list (str * str).

Fixpoint lookup (key : str) (c : pipelines) : option str :=
  match c with
  | [] => None
  | (k, v) :: c' => if eqb k key then Some v else lookup key c'
  end.

Section WithLibrary.

Variable settings : Config.settings.

(** [transformers.pipeline("translation", model=name, device=-1)]:
    whether it returns (it raises otherwise). *)
Variable load : str -> bool.

(** [pipeline(text, max_length=512)[0]["translation_text"]] for the
    pipeline of a model: [None] when an exception comes out. *)
Variable run : str -> str -> option str.

(** [_get_transformer_pipeline]: the pipeline, or [None] when it raises
    ([ValueError] for an unsupported pair, or whatever the load
    raised), and the dict afterwards. *)
Definition get_transformer_pipeline (c : pipelines)
           (source_lang target_lang : str) : option str * pipelines :=
  let key := source_lang ++ of_string "-" ++ target_lang in
  match lookup key c with
  | Some p => (Some p, c)
  | None =>
      let model_name :=
        if eqb source_lang (of_string "en") && eqb target_lang (of_string "ja")
        then Some (Config.translation_model_en_ja settings)
        else if eqb source_lang (of_string "ja")
                && eqb target_lang (of_string "en")
        then Some (Config.translation_model_ja_en settings)
        else None in
      match model_name with
      | None => (None, c)
      | Some name =>
          if load name then (Some name, (key, name) :: c) else (None, c)
      end
  end.

(** [translate(text, source_lang, target_lang)]: the text returned and
    the dict afterwards. *)
Definition translate (c : pipelines) (text source_lang target_lang : str)
  : str * pipelines :=
  if negb (truthy text) || eqb source_lang target_lang then (text, c)
  else if eqb (Config.translation_backend settings) (of_string "none")
  then (text, c)
  else
    match get_transformer_pipeline c source_lang target_lang with
    | (None, c') => (text, c')
    | (Some p, c') =>
        match run p text with
        | Some translated => (translated, c')
        | None => (text, c')
        end
    end.

(** The [for text in texts] loop of [translate_batch]. *)
Fixpoint translate_loop (c : pipelines) (texts : list str)
         (source_lang target_lang : str) (translated : list str)
  : list str * pipelines :=
  match texts with
  | [] => (translated, c)
  | text :: texts' =>
      let '(t, c') := translate c text source_lang target_lang in
      translate_loop c' texts' source_lang target_lang (translated ++ [t])
  end.

Definition translate_batch (c : pipelines) (texts : list str)
           (source_lang target_lang : str) : list str * pipelines :=
  if eqb source_lang target_lang then (texts, c)
  else translate_loop c texts source_lang target_lang [].

End WithLibrary.

End Translation.

(** ** [EmbeddingModel] ([app/storage/embeddings.py]) *)

Module EmbeddingModel.
Import Py PyStr Errors.

(** What [embed_texts] returns: [np.array([])], of shape [(0,)], or the
    two-dimensional array of the model. *)
Inductive array :=
| Empty1D
| Matrix (a : Faiss.ndarray).

(** [len(embeddings)] *)
Definition array_len (a : array) : nat :=
  match a with
  | Empty1D => O
  | Matrix m => List.length (Faiss.rows m)
  end.

Section WithLibrary.

(** [self.model.encode(texts, ...)] for a non-empty list. *)
Variable encode : list str -> error + Faiss.ndarray.

Definition embed_texts (texts : list str) : error + array :=
  match texts with
  | [] => inr Empty1D
  | _ :: _ =>
      match encode texts with
      | inl e => inl e
      | inr a => inr (Matrix a)
      end
  end.

(** [embed_texts([text])[0]] *)
Definition embed_single (text : str) : error + Faiss.vector :=
  match embed_texts [text] with
  | inl e => inl e
  | inr Empty1D => inl IndexError
  | inr (Matrix a) =>
      match Faiss.rows a with
      | [] => inl IndexError
      | v :: _ => inr v
      end
  end.

End WithLibrary.

End EmbeddingModel.

(** ** [ingest_documents] ([app/api/ingest.py]) *)

Module Ingest.
Import Py PyStr Errors Chunker FaissIndexManager EmbeddingModel.

(** An upload: its name, and what
    [(await file.read()).decode('utf-8', errors='ignore')] gives. *)
Record upload_file := {
  filename : str;
  read : error + str
}.

(** One entry of [details]. *)
Inductive detail :=
| Skipped (name reason : str)
| Success (name : str) (chunks_created : Z) (language : str)
          (doc_ids : list str)
| Failed (name : str) (reason : error).

Record ingest_response := {
  success : bool;
  files_processed : Z;
  total_chunks_added : Z;
  details : list detail;
  message : str
}.

(** [index_manager.add_documents] on what [embed_texts] returned.  For
    [np.array([])] the length test compares with 0, no row is zipped
    from the empty [texts], and [index.add] cannot unpack the shape
    [(0,)]: [ValueError] either way, with nothing done. *)
Definition add_documents (m : manager) (texts : list str)
           (embeddings : array) (languages filenames : list str)
           (chunk_indices : list Z) : (exn + list str) * manager :=
  match embeddings with
  | Matrix a =>
      FaissIndexManager.add_documents m texts a languages filenames
                                      chunk_indices
  | Empty1D => (inl ValueError, m)
  end.

(** The variables of the [for file in files] loop, and the manager. *)
Record loop_vars := {
  total_chunks : Z;
  the_details : list detail;
  processed_count : Z;
  index_manager : manager
}.

Definition append_detail (v : loop_vars) (d : detail) (m : manager)
  : loop_vars :=
  {| total_chunks := total_chunks v;
     the_details := the_details v ++ [d];
     processed_count := processed_count v;
     index_manager := m |}.

Section WithLibraries.

Variable settings : Config.settings.
Variable detect : str -> LangDetect.detection.
Variable encode : list str -> error + Faiss.ndarray.

(** One run of the loop body, [try] and [except] included; [None] when
    [chunk_text] does not return within [fuel] tests of its loop. *)
Definition process_file (fuel : nat) (v : loop_vars) (file : upload_file)
  : option loop_vars :=
  let m := index_manager v in
  if negb (endswith (filename file) (of_string ".txt"))
  then Some (append_detail v
               (Skipped (filename file)
                        (of_string "Only .txt files supported")) m)
  else
    match read file with
    | inl e => Some (append_detail v (Failed (filename file) e) m)
    | inr text =>
        if negb (truthy (strip text))
        then Some (append_detail v
                     (Skipped (filename file) (of_string "Empty file")) m)
        else
          let language := LangDetect.detect_language detect text in
          match chunk_text fuel text (Config.max_chunk_size settings)
                           (Config.chunk_overlap settings) with
          | None => None
          | Some (inl e) =>
              Some (append_detail v (Failed (filename file) (Raised e)) m)
          | Some (inr chunks) =>
              match embed_texts encode chunks with
              | inl e => Some (append_detail v (Failed (filename file) e) m)
              | inr embeddings =>
                  let languages := repeat language (List.length chunks) in
                  let filenames :=
                    repeat (filename file) (List.length chunks) in
                  let chunk_indices := range (List.length chunks) in
                  match add_documents m chunks embeddings languages
                                      filenames chunk_indices with
                  | (inl e, m') =>
                      Some (append_detail v
                              (Failed (filename file) (Raised e)) m')
                  | (inr doc_ids, m') =>
                      Some {| total_chunks :=
                                total_chunks v
                                + Z.of_nat (List.length chunks);
                              the_details :=
                                the_details v
                                ++ [Success (filename file)
                                            (Z.of_nat (List.length chunks))
                                            language (firstn 3 doc_ids)];
                              processed_count := processed_count v + 1;
                              index_manager := m' |}
                  end
              end
          end
    end.

Fixpoint process_files (fuel : nat) (v : loop_vars)
         (files : list upload_file) : option loop_vars :=
  match files with
  | [] => Some v
  | file :: files' =>
      match process_file fuel v file with
      | None => None
      | Some v' => process_files fuel v' files'
      end
  end.

(** [ingest_documents(files)]: the response or the [HTTPException], and
    the manager afterwards; [None] when a [chunk_text] does not
    return within [fuel] tests of its loop. *)
Definition ingest_documents (fuel : nat) (m : manager)
           (files : list upload_file)
  : option ((error + ingest_response) * manager) :=
  match files with
  | [] => Some (inl (HTTPException 400), m)
  | _ :: _ =>
      match process_files fuel
              {| total_chunks := 0; the_details := [];
                 processed_count := 0; index_manager := m |} files with
      | None => None
      | Some v =>
          Some (inr {| success := 0 <? processed_count v;
                       files_processed := processed_count v;
                       total_chunks_added := total_chunks v;
                       details := the_details v;
                       message :=
                         of_string "Successfully processed "
                         ++ decimal (processed_count v) ++ of_string "/"
                         ++ decimal (Z.of_nat (List.length files))
                         ++ of_string " files" |},
                persist (index_manager v))
      end
  end.

End WithLibraries.

End Ingest.

(** ** [retrieve_documents] ([app/api/retrieve.py]) *)

Module Retrieve.
Import Py PyStr Errors FaissIndexManager EmbeddingModel Translation Schemas.

Record retrieve_request := {
  query : str;
  top_k : Z;
  output_language : option str
}.

Record document_result := {
  d_doc_id : str;
  d_text : str;
  d_score : Z;
  d_language : str;
  d_filename : str
}.

Record retrieve_response := {
  r_query : str;
  r_results : list document_result;
  r_query_language : str;
  r_results_translated : bool
}.

(** [request.output_language and request.output_language != original_lang]:
    the language to translate to, when the test holds. *)
Definition translation_target (output_language : option str)
           (original_lang : str) : option str :=
  match output_language with
  | None => None
  | Some l => if truthy l && negb (eqb l original_lang) then Some l else None
  end.

(** The variables of the [for result in search_results] loop, and the
    dict of pipelines. *)
Record loop_vars := {
  results_translated : bool;
  document_results : list document_result;
  the_pipelines : pipelines
}.

Section WithLibraries.

Variable settings : Config.settings.
Variable detect : str -> LangDetect.detection.
Variable encode : list str -> error + Faiss.ndarray.
Variable load : str -> bool.
Variable run : str -> str -> option str.

(** One run of the loop body: the variables afterwards, or the
    exception that leaves the loop and the dict at that point. *)
Definition process_result (output_language : option str) (v : loop_vars)
           (res : result) : error * pipelines + loop_vars :=
  let original_lang := r_language res in
  let '(text, translated, c) :=
    match translation_target output_language original_lang with
    | Some l =>
        let '(t, c') :=
          translate settings load run (the_pipelines v) (r_text res)
                    original_lang l in
        (t, true, c')
    | None => (r_text res, results_translated v, the_pipelines v)
    end in
  match create_snippet text 300 with
  | inl e => inl (Raised e, c)
  | inr snippet =>
      inr {| results_translated := translated;
             document_results :=
               document_results v
               ++ [{| d_doc_id := r_doc_id res; d_text := snippet;
                      d_score := r_score res; d_language := original_lang;
                      d_filename := r_filename res |}];
             the_pipelines := c |}
  end.

Fixpoint process_results (output_language : option str) (v : loop_vars)
         (rs : list result) : error * pipelines + loop_vars :=
  match rs with
  | [] => inr v
  | res :: rs' =>
      match process_result output_language v res with
      | inl e => inl e
      | inr v' => process_results output_language v' rs'
      end
  end.

(** [retrieve_documents(request)]: the response or the exception that
    leaves the function, and the dict of pipelines afterwards. *)
Definition retrieve_documents (m : manager) (c : pipelines)
           (request : retrieve_request)
  : (error + retrieve_response) * pipelines :=
  let query_lang := LangDetect.detect_language detect (query request) in
  match embed_single encode (query request) with
  | inl e => (inl e, c)
  | inr query_embedding =>
      match search m query_embedding (top_k request) with
      | inl e => (inl (Raised e), c)
      | inr [] =>
          (inr {| r_query := query request; r_results := [];
                  r_query_language := query_lang;
                  r_results_translated := false |}, c)
      | inr ((_ :: _) as search_results) =>
          match process_results (output_language request)
                  {| results_translated := false; document_results := [];
                     the_pipelines := c |} search_results with
          | inl (e, c') => (inl e, c')
          | inr v =>
              (inr {| r_query := query request;
                      r_results := document_results v;
                      r_query_language := query_lang;
                      r_results_translated := results_translated v |},
               the_pipelines v)
          end
      end
  end.

End WithLibraries.

End Retrieve.

(** ** Inputs used by the examples below *)

Module Inputs.
Import PyStr.

(** ["aaaaaaa.aaaaaaaa"]: sixteen characters, a period at index 7. *)
Definition looping_text : str := of_string "aaaaaaa.aaaaaaaa".

(** Two spaces. *)
Definition blank_text : str := of_string "  ".

Definition prose : str :=
  of_string "Take two tablets. Rest a while.  Then call the nurse".

Definition three_texts : list str :=
  [of_string "Text 1"; of_string "Text 2"; of_string "Text 3"].

Definition three_languages : list str :=
  [of_string "en"; of_string "en"; of_string "ja"].

Definition two_languages : list str := [of_string "en"; of_string "en"].

Definition three_filenames : list str :=
  [of_string "file1.txt"; of_string "file1.txt"; of_string "file2.txt"].

Definition three_indices : list Z := [0; 1; 0].

(** Three rows of dimension 2. *)
Definition three_embeddings : Faiss.ndarray :=
  {| Faiss.ncols := 2; Faiss.rows := [[1; 0]; [0; 1]; [1; 1]] |}.

(** Three rows of dimension 3, for an index of dimension 2. *)
Definition wide_embeddings : Faiss.ndarray :=
  {| Faiss.ncols := 3;
     Faiss.rows := [[1; 0; 0]; [0; 1; 0]; [1; 1; 0]] |}.

Definition one_embedding : Faiss.ndarray :=
  {| Faiss.ncols := 2; Faiss.rows := [[3; 4]] |}.

Definition one_wide_embedding : Faiss.ndarray :=
  {| Faiss.ncols := 3; Faiss.rows := [[3; 4; 5]] |}.

Definition query : Faiss.vector := [2; 1].

(** A manager of dimension 2 on empty storage after the three documents
    of the test suite were added. *)
Definition three_docs : FaissIndexManager.manager :=
  snd (FaissIndexManager.add_documents (FaissIndexManager.fresh 2)
         three_texts three_embeddings three_languages three_filenames
         three_indices).

(** The same call with [languages] one element short. *)
Definition short_languages_call
  : (Py.exn + list str) * FaissIndexManager.manager :=
  FaissIndexManager.add_documents (FaissIndexManager.fresh 2)
    three_texts three_embeddings two_languages three_filenames three_indices.

(** The three documents with embeddings of the wrong dimension: the
    rows are inserted, then the vector append fails. *)
Definition wide_call : (Py.exn + list str) * FaissIndexManager.manager :=
  FaissIndexManager.add_documents (FaissIndexManager.fresh 2)
    three_texts wide_embeddings three_languages three_filenames three_indices.

(** A call whose vector append fails, on a manager of dimension 2. *)
Definition failed_call : (Py.exn + list str) * FaissIndexManager.manager :=
  FaissIndexManager.add_documents (FaissIndexManager.fresh 2)
    [of_string "Text 1"] one_wide_embedding [of_string "en"]
    [of_string "file1.txt"] [0].

(** The next call on that manager, with a well-formed batch of one. *)
Definition call_after_failure
  : (Py.exn + list str) * FaissIndexManager.manager :=
  FaissIndexManager.add_documents (snd failed_call)
    [of_string "Text 2"] one_embedding [of_string "en"]
    [of_string "file1.txt"] [0].

(** [three_docs] after the process ended without [persist()], and one
    more document offered to the new manager. *)
Definition call_after_restart
  : (Py.exn + list str) * FaissIndexManager.manager :=
  FaissIndexManager.add_documents (FaissIndexManager.restart three_docs)
    [of_string "Text 4"] one_embedding [of_string "en"]
    [of_string "file3.txt"] [0].

End Inputs.

(** ** Vocabulary of the statements *)

Module ChunkerSpec.
Import Py PyStr PyFloat Chunker.

(** A chunk as the multi-window path emits it. *)
Definition trimmed (c : str) : Prop := c <> [] /\ strip c = c.

(** [sub] occurs in [w] at index [p]. *)
Definition occurs_at (w sub : str) (p : Z) : Prop :=
  0 <= p <= len w /\
  firstn (List.length sub) (skipn (Z.to_nat p) w) = sub.

(** [r] is what [w.rfind(sub)] is documented to return: the highest
    index at which [sub] occurs, -1 when it does not occur. *)
Definition last_occurrence (w sub : str) (r : Z) : Prop :=
  (r = -1 /\ forall p, ~ occurs_at w sub p) \/
  (occurs_at w sub r /\ forall p, occurs_at w sub p -> p <= r).

(** The largest integer not above a finite float. *)
Definition float_floor (f : spec_float) : option Z :=
  match f with
  | S754_zero _ => Some 0
  | S754_finite s m e =>
      let v := cond_Zopp s (Zpos m) in
      Some (match e with
            | Z0 => v
            | Zpos _ => v * 2 ^ e
            | Zneg p => v / 2 ^ (Zpos p)
            end)
  | _ => None
  end.

(** The binary64 product [max_size * 0.6] and the fraction 3/5 of
    [max_size] have the same integer part. *)
Definition sixty_percent_exact (max_size : Z) : bool :=
  match float_of_int max_size with
  | Some f =>
      match float_floor (mul f lit_0_6) with
      | Some fl => fl =? 3 * max_size / 5
      | None => false
      end
  | None => false
  end.

(** [sixty_percent_exact] on every size from [lo] up to, not including,
    [lo + 2 ^ depth]. *)
Fixpoint exact_on_range (depth : nat) (lo : Z) : bool :=
  match depth with
  | O => sixty_percent_exact lo
  | S depth' =>
      exact_on_range depth' lo
      && exact_on_range depth' (lo + 2 ^ Z.of_nat depth')
  end.

End ChunkerSpec.

Module ManagerSpec.
Import Py PyStr FaissIndexManager.

(** Best first: no score is above a score before it. *)
Definition best_first (rs : list result) : Prop :=
  StronglySorted (fun a b => r_score b <= r_score a) rs.

Definition hits_best_first (hs : list Faiss.hit) : Prop :=
  StronglySorted (fun a b => fst b <= fst a) hs.

(** What one hit of the nearest-neighbour lookup adds to the list
    [search] returns: the row with id [idx + 1] joined with the score,
    or nothing when the slot is empty or the row is missing. *)
Definition enrich (t : Sqlite.table) (h : Faiss.hit) : list result :=
  if snd h =? -1 then []
  else match Sqlite.select_by_id t (snd h + 1) with
       | Some row => [result_of row (fst h)]
       | None => []
       end.

(** [first], [first + 1], ... : [n] consecutive ids. *)
Fixpoint ids_from (first : Z) (n : nat) : list Z :=
  match n with
  | O => []
  | S n' => first :: ids_from (first + 1) n'
  end.

(** The rows carry consecutive ids from [first] on, in insertion order,
    each with the doc id made from its id. *)
Definition numbered (rows : list Sqlite.row) (first : Z) : Prop :=
  map Sqlite.id rows = ids_from first (List.length rows) /\
  map Sqlite.doc_id rows
  = map make_doc_id (ids_from first (List.length rows)).

(** The state the manager is meant to be in: rows 1..n for n vectors,
    and the counter at n. *)
Definition consistent (m : manager) : Prop :=
  numbered (documents m) 1 /\
  List.length (documents m) = List.length (Faiss.xb (index m)) /\
  doc_counter m = Z.of_nat (List.length (documents m)).

(** The four operations of the manager, as calls. *)
Inductive call :=
| AddDocuments (texts : list str) (embeddings : Faiss.ndarray)
               (languages filenames : list str) (chunk_indices : list Z)
| Search (query_embedding : Faiss.vector) (top_k : Z)
| Persist
| GetStats.

(** The manager after a call. *)
Definition after_call (m : manager) (c : call) : manager :=
  match c with
  | AddDocuments texts embeddings languages filenames chunk_indices =>
      snd (add_documents m texts embeddings languages filenames chunk_indices)
  | Search _ _ => m
  | Persist => persist m
  | GetStats => m
  end.

(** An [add_documents] call with five sequences of one length that
    returns; any call of the other operations. *)
Definition regular_call (m : manager) (c : call) : Prop :=
  match c with
  | AddDocuments texts embeddings languages filenames chunk_indices =>
      List.length languages = List.length texts /\
      List.length filenames = List.length texts /\
      List.length chunk_indices = List.length texts /\
      exists ids,
        fst (add_documents m texts embeddings languages filenames
                           chunk_indices) = inr ids
  | _ => True
  end.

Fixpoint regular_calls (m : manager) (cs : list call) : Prop :=
  match cs with
  | [] => True
  | c :: cs' => regular_call m c /\ regular_calls (after_call m c) cs'
  end.

(** [top_k] clamped to the range [[1, available]]. *)
Definition clamp_top_k (top_k available : Z) : Z :=
  Z.max 1 (Z.min top_k available).

End ManagerSpec.

(** ** More vocabulary: windows and pieces of a text *)

Module WindowSpec.
Import Py PyStr PyFloat Chunker.

(** [c] is a run of consecutive characters of [text]. *)
Definition piece_of (c text : str) : Prop :=
  exists before after, text = before ++ c ++ after.

(** The windows [(start, end)] of the first [n] iterations of the loop
    of [chunk_text]: [end] is the cut point the iteration settles on. *)
Fixpoint windows_visited (n : nat) (text : str) (max_size overlap : Z)
         (s : loop_state) : list (Z * Z) :=
  match n with
  | O => []
  | S n' =>
      match loop_step text max_size overlap s,
            cut_point text max_size (st_start s) with
      | Continue s', inr end_ =>
          (st_start s, end_) :: windows_visited n' text max_size overlap s'
      | _, _ => []
      end
  end.

(** The chunk a window gives. *)
Definition window_chunk (text : str) (w : Z * Z) : str :=
  strip (slice text (fst w) (snd w)).

(** The chunks of a list of windows, blank ones dropped. *)
Definition chunks_of_windows (text : str) (ws : list (Z * Z)) : list str :=
  filter truthy (map (window_chunk text) ws).

End WindowSpec.

Module TableSpec.
Import Py PyStr FaissIndexManager.

(** The row [add_documents] builds for one element of the zipped
    arguments when the counter has reached [counter]. *)
Definition row_of (counter : Z) (item : str * str * str * Z) : Sqlite.row :=
  let '(text, lang, fname, chunk_idx) := item in
  {| Sqlite.id := counter; Sqlite.doc_id := make_doc_id counter;
     Sqlite.text := text; Sqlite.language := lang;
     Sqlite.filename := fname; Sqlite.chunk_index := chunk_idx |}.

(** The rows for a whole batch, the first with id [first]. *)
Fixpoint rows_from (first : Z) (items : list (str * str * str * Z))
  : list Sqlite.row :=
  match items with
  | [] => []
  | item :: items' => row_of first item :: rows_from (first + 1) items'
  end.

End TableSpec.

Module SnippetSpec.
Import Py PyStr PyFloat ChunkerSpec Schemas.

(** The integer part of the binary64 product [max_length * 0.7] is the
    integer part of 7/10 of [max_length], or one below it. *)
Definition seventy_percent_close (max_length : Z) : bool :=
  match float_of_int max_length with
  | Some f =>
      match float_floor (mul f lit_0_7) with
      | Some fl =>
          (7 * max_length / 10 - 1 <=? fl) && (fl <=? 7 * max_length / 10)
      | None => false
      end
  | None => false
  end.

(** [seventy_percent_close] on every length from [lo] up to, not
    including, [lo + 2 ^ depth]. *)
Fixpoint close_on_range (depth : nat) (lo : Z) : bool :=
  match depth with
  | O => seventy_percent_close lo
  | S depth' =>
      close_on_range depth' lo
      && close_on_range depth' (lo + 2 ^ Z.of_nat depth')
  end.

(** A text with full-width periods and no other sentence end. *)
Definition japanese_text : str :=
  [12354; 12290; 12356; 12290; 12358; 12360; 12362; 12290; 12363; 12365]%N.

End SnippetSpec.

Module EndpointSpec.
Import Py PyStr Errors FaissIndexManager EmbeddingModel Ingest WindowSpec.

Definition detail_name (d : detail) : str :=
  match d with
  | Skipped name _ | Success name _ _ _ | Failed name _ => name
  end.

Definition is_success (d : detail) : bool :=
  match d with
  | Success _ _ _ _ => true
  | _ => false
  end.

(** [chunks_created] of a success entry; 0 for the others. *)
Definition chunks_of (d : detail) : Z :=
  match d with
  | Success _ n _ _ => n
  | _ => 0
  end.

Definition sum (l : list Z) : Z := fold_right Z.add 0 l.

(** The row holds a non-empty run of characters of the text of [file],
    a [.txt] upload, under the name of the file and with the language
    detected for the whole text. *)
Definition row_from_file (detect : str -> LangDetect.detection)
           (file : upload_file) (r : Sqlite.row) : Prop :=
  exists text,
    read file = inr text /\
    endswith (filename file) (of_string ".txt") = true /\
    Sqlite.filename r = filename file /\
    Sqlite.language r = LangDetect.detect_language detect text /\
    Sqlite.text r <> [] /\
    piece_of (Sqlite.text r) text.

(** The file is a [.txt] upload whose text can be read and is not
    blank. *)
Definition ingestible (file : upload_file) : bool :=
  endswith (filename file) (of_string ".txt")
  && match read file with
     | inr text => truthy (strip text)
     | inl _ => false
     end.

(** The encoder returns, for a non-empty list, one vector of dimension
    [d] per text. *)
Definition encoder_of_dimension
           (encode : list str -> error + Faiss.ndarray) (d : Z) : Prop :=
  forall texts,
    texts <> [] ->
    exists a,
      encode texts = inr a /\ Faiss.ncols a = d /\
      List.length (Faiss.rows a) = List.length texts.

(** Settings with small chunks. *)
Definition small_chunks : Config.settings :=
  {| Config.translation_backend := of_string "transformers";
     Config.translation_model_en_ja := of_string "Helsinki-NLP/opus-mt-en-jap";
     Config.translation_model_ja_en := of_string "Helsinki-NLP/opus-mt-jap-en";
     Config.max_chunk_size := 20;
     Config.chunk_overlap := 5 |}.

(** A detector that answers [ja] for a text with a character from
    U+3040 on, [en] otherwise. *)
Definition sample_detect (text : str) : LangDetect.detection :=
  if existsb (fun c => (12352 <=? c)%N) text
  then LangDetect.Detected (of_string "ja")
  else LangDetect.Detected (of_string "en").

(** An encoder with vectors of dimension 2. *)
Definition sample_encode (texts : list str) : error + Faiss.ndarray :=
  inr {| Faiss.ncols := 2;
         Faiss.rows := map (fun t => [len t; 1]) texts |}.

Definition sample_files : list upload_file :=
  [ {| filename := of_string "notes.txt"; read := inr Inputs.prose |};
    {| filename := of_string "scan.pdf"; read := inr Inputs.prose |};
    {| filename := of_string "blank.txt"; read := inr Inputs.blank_text |};
    {| filename := of_string "lost.txt"; read := inl LibraryError |} ].

(** The sample files ingested into a new manager of dimension 2. *)
Definition sample_ingest
  : option ((error + ingest_response) * manager) :=
  ingest_documents small_chunks sample_detect sample_encode 60
                   (fresh 2) sample_files.

Definition sample_response : ingest_response :=
  match sample_ingest with
  | Some (inr response, _) => response
  | _ => {| success := false; files_processed := 0;
            total_chunks_added := 0; details := []; message := [] |}
  end.

Definition sample_manager : manager :=
  match sample_ingest with
  | Some (_, m) => m
  | None => fresh 2
  end.

End EndpointSpec.

Module RetrieveSpec.
Import Py PyStr Errors FaissIndexManager Schemas Retrieve.

(** The request asks for a translation of this search result. *)
Definition asks_translation (output_language : option str) (res : result)
  : bool :=
  match translation_target output_language (r_language res) with
  | Some _ => true
  | None => false
  end.

(** [create_snippet(text, max_length=300)] where it returns. *)
Definition snippet_of (text : str) : str :=
  match create_snippet text 300 with
  | inr snippet => snippet
  | inl _ => text
  end.

(** A library without models: no pipeline loads. *)
Definition no_model (name : str) : bool := false.

(** A pipeline that brackets the text. *)
Definition bracket (model text : str) : option str :=
  Some (of_string "[" ++ text ++ of_string "]").

Definition sample_request : retrieve_request :=
  {| query := of_string "tablets"; top_k := 2;
     output_language := Some (of_string "ja") |}.

End RetrieveSpec.

(** * Properties of the chunker *)

Module ChunkerProps.
Import Py PyStr PyFloat Chunker ChunkerSpec.

Lemma lstrip_idem (s : str) : lstrip (lstrip s) = lstrip s.
Proof.
  induction s as [|c s IH]; simpl; [reflexivity|].
  destruct (isspace c) eqn:E; [exact IH|].
  simpl. now rewrite E.
Qed.

Lemma lstrip_snoc (u : str) (c : char) :
  isspace c = false -> lstrip (u ++ [c]) = lstrip u ++ [c].
Proof.
  intros Hc. induction u as [|x u IH]; simpl.
  - now rewrite Hc.
  - destruct (isspace x); [exact IH | reflexivity].
Qed.

Lemma rstrip_cons (c : char) (s : str) :
  isspace c = false -> rstrip (c :: s) = c :: rstrip s.
Proof.
  intros Hc. unfold rstrip. simpl.
  rewrite lstrip_snoc by exact Hc.
  now rewrite rev_app_distr.
Qed.

Lemma lstrip_fixed (s : str) :
  lstrip s = s -> lstrip (rstrip s) = rstrip s.
Proof.
  destruct s as [|c s]; [reflexivity|].
  simpl. destruct (isspace c) eqn:E.
  - intros H. exfalso.
    assert (Hlen : (List.length (lstrip s) <= List.length s)%nat).
    { clear. induction s as [|x s IH]; simpl; [lia|].
      destruct (isspace x); simpl; lia. }
    rewrite H in Hlen. simpl in Hlen. lia.
  - intros _. rewrite rstrip_cons by exact E. simpl. now rewrite E.
Qed.

Lemma rstrip_idem (s : str) : rstrip (rstrip s) = rstrip s.
Proof.
  unfold rstrip. rewrite rev_involutive. now rewrite lstrip_idem.
Qed.

Lemma strip_idem (s : str) : strip (strip s) = strip s.
Proof.
  unfold strip.
  rewrite (lstrip_fixed (lstrip s)) by apply lstrip_idem.
  apply rstrip_idem.
Qed.

Lemma truthy_strip_trimmed (s : str) :
  truthy (strip s) = true -> trimmed (strip s).
Proof.
  intros H. split.
  - intros E. rewrite E in H. discriminate.
  - apply strip_idem.
Qed.

Lemma loop_step_trimmed text max_size overlap s s' :
  loop_step text max_size overlap s = Continue s' ->
  Forall trimmed (st_chunks s) -> Forall trimmed (st_chunks s').
Proof.
  unfold loop_step. intros H Hs.
  destruct (st_start s <? len text); [|discriminate].
  destruct (cut_point text max_size (st_start s)) as [e|end_]; [discriminate|].
  injection H as <-. simpl.
  destruct (truthy (strip (slice text (st_start s) end_))) eqn:T; [|exact Hs].
  apply Forall_app. split; [exact Hs|].
  constructor; [|constructor]. now apply truthy_strip_trimmed.
Qed.

Lemma loop_step_return text max_size overlap s chunks :
  loop_step text max_size overlap s = Return chunks -> chunks = st_chunks s.
Proof.
  unfold loop_step. intros H.
  destruct (st_start s <? len text).
  - destruct (cut_point text max_size (st_start s)); discriminate.
  - now injection H as <-.
Qed.

Lemma chunk_loop_trimmed fuel text max_size overlap :
  forall s chunks,
    chunk_loop fuel text max_size overlap s = Some (inr chunks) ->
    Forall trimmed (st_chunks s) -> Forall trimmed chunks.
Proof.
  induction fuel as [|fuel IH]; simpl; intros s chunks H Hs; [discriminate|].
  destruct (loop_step text max_size overlap s) as [s'|c|e] eqn:E.
  - apply (IH s'); [exact H|]. eapply loop_step_trimmed; eassumption.
  - injection H as <-. apply loop_step_return in E. now subst.
  - discriminate.
Qed.

Lemma state_after_trimmed n text max_size overlap :
  forall s s',
    state_after n text max_size overlap s = Some s' ->
    Forall trimmed (st_chunks s) -> Forall trimmed (st_chunks s').
Proof.
  induction n as [|n IH]; simpl; intros s s' H Hs.
  - now injection H as <-.
  - destruct (loop_step text max_size overlap s) as [s1|c|e] eqn:E;
      try discriminate.
    apply (IH s1); [exact H|]. eapply loop_step_trimmed; eassumption.
Qed.

(** *** Forward progress of the loop *)

Lemma int_gt_float_mono (f : spec_float) (z z' : Z) :
  z <= z' -> int_gt_float z f = true -> int_gt_float z' f = true.
Proof.
  intros Hle. destruct f as [s|s| |s m e]; simpl; try easy.
  - rewrite !Z.ltb_lt. lia.
  - destruct e as [|p|p]; rewrite !Z.ltb_lt; intros H; try lia.
    assert (0 < 2 ^ Z.pos p) by (apply Z.pow_pos_nonneg; lia). nia.
Qed.

Lemma scan_delimiters_cases text max_size start end_ f ds r :
  float_of_int max_size = Some f ->
  scan_delimiters text max_size start end_ ds = r ->
  r = inr end_ \/
  exists last_delim,
    r = inr (start + last_delim + 1) /\
    int_gt_float last_delim (mul f lit_0_6) = true.
Proof.
  intros Hf. revert r. induction ds as [|d ds IH]; simpl; intros r H.
  - now left.
  - unfold beyond_threshold in H. rewrite Hf in H.
    destruct (int_gt_float _ _) eqn:E in H.
    + right. eexists. split; [symmetry; exact H | exact E].
    + now apply IH.
Qed.

(** When a terminator at index [overlap - 1] would be turned down, every
    iteration moves [start] forward by at least one. *)
Lemma loop_step_advances text max_size overlap s s' :
  0 <= overlap < max_size ->
  beyond_threshold max_size (overlap - 1) = inr false ->
  loop_step text max_size overlap s = Continue s' ->
  st_start s + 1 <= st_start s'.
Proof.
  intros Hov Hthr. unfold loop_step.
  destruct (st_start s <? len text) eqn:Hlt; [|discriminate].
  apply Z.ltb_lt in Hlt.
  unfold beyond_threshold in Hthr.
  destruct (float_of_int max_size) as [f|] eqn:Hf; [|discriminate].
  injection Hthr as Hthr.
  destruct (cut_point text max_size (st_start s)) as [e|end_] eqn:Hcut;
    [discriminate|].
  intros H. injection H as <-. simpl.
  assert (Hend : st_start s + overlap + 1 <= end_).
  { unfold cut_point in Hcut.
    destruct (st_start s + max_size <? len text).
    - destruct (scan_delimiters_cases _ _ _ _ _ _ _ Hf Hcut)
        as [H|[last_delim [H Hacc]]]; injection H as ->; [lia|].
      destruct (Z_le_gt_dec last_delim (overlap - 1)) as [Hle|Hgt]; [|lia].
      rewrite (int_gt_float_mono _ _ _ Hle Hacc) in Hthr. discriminate.
    - injection Hcut as <-. lia. }
  destruct (end_ <? len text); lia.
Qed.

Lemma loop_step_no_raise text max_size overlap s f e :
  float_of_int max_size = Some f ->
  loop_step text max_size overlap s <> Raise e.
Proof.
  intros Hf. unfold loop_step.
  destruct (st_start s <? len text); [|discriminate].
  destruct (cut_point text max_size (st_start s)) as [e'|end_] eqn:Hcut;
    [|discriminate].
  exfalso. unfold cut_point in Hcut.
  destruct (st_start s + max_size <? len text); [|discriminate].
  destruct (scan_delimiters_cases _ _ _ _ _ _ _ Hf Hcut)
    as [H|[? [H _]]]; discriminate.
Qed.

Lemma chunk_loop_returns text max_size overlap :
  0 <= overlap < max_size ->
  beyond_threshold max_size (overlap - 1) = inr false ->
  forall fuel s,
    (Z.to_nat (len text - st_start s) < fuel)%nat ->
    exists chunks,
      chunk_loop fuel text max_size overlap s = Some (inr chunks).
Proof.
  intros Hov Hthr.
  induction fuel as [|fuel IH]; intros s Hfuel; [lia|].
  simpl. destruct (loop_step text max_size overlap s) as [s'|c|e] eqn:E.
  - apply IH.
    pose proof (loop_step_advances _ _ _ _ _ Hov Hthr E) as Hadv.
    unfold loop_step in E.
    destruct (st_start s <? len text) eqn:Hlt; [|discriminate].
    apply Z.ltb_lt in Hlt. lia.
  - now exists c.
  - exfalso. unfold beyond_threshold in Hthr.
    destruct (float_of_int max_size) as [f|] eqn:Hf; [|discriminate].
    exact (loop_step_no_raise _ _ _ _ _ _ Hf E).
Qed.

Lemma starts_visited_increasing text max_size overlap :
  0 <= overlap < max_size ->
  beyond_threshold max_size (overlap - 1) = inr false ->
  forall n s,
    StronglySorted Z.lt (starts_visited n text max_size overlap s) /\
    Forall (fun x => st_start s <= x)
           (starts_visited n text max_size overlap s).
Proof.
  intros Hov Hthr.
  induction n as [|n IH]; intros s; simpl; [split; constructor|].
  destruct (loop_step text max_size overlap s) as [s'|c|e] eqn:E;
    [|split; constructor..].
  pose proof (loop_step_advances _ _ _ _ _ Hov Hthr E) as Hadv.
  destruct (IH s') as [Hs Hb]. split.
  - constructor; [exact Hs|].
    eapply Forall_impl; [|exact Hb]. simpl. intros. lia.
  - constructor; [lia|].
    eapply Forall_impl; [|exact Hb]. simpl. intros. lia.
Qed.

(** X1: forward progress where the code has it: for [max_size > overlap >= 0]
    with [overlap - 1 <= max_size * 0.6] (a terminator at index
    [overlap - 1] is not accepted), [chunk_text] returns within
    [len(text) + 1] tests of the loop condition and the window starts
    strictly increase. *)
Theorem chunk_text_terminates (text : str) (max_size overlap : Z) :
  0 <= overlap < max_size ->
  beyond_threshold max_size (overlap - 1) = inr false ->
  (exists chunks,
     chunk_text (S (List.length text)) text max_size overlap
     = Some (inr chunks)) /\
  (forall n,
     StronglySorted Z.lt (starts_visited n text max_size overlap initial)).
Proof.
  intros Hov Hthr. split.
  - unfold chunk_text. destruct (len text <=? max_size); [now eexists|].
    apply chunk_loop_returns; try assumption.
    simpl. unfold len. rewrite Z.sub_0_r, Nat2Z.id. lia.
  - intros n. now apply starts_visited_increasing.
Qed.

Lemma chunk_text_terminates_witness :
  (exists chunks,
     chunk_text (S (List.length Inputs.prose)) Inputs.prose 20 5
     = Some (inr chunks)) /\
  (forall n, StronglySorted Z.lt (starts_visited n Inputs.prose 20 5 initial)).
Proof.
  apply (chunk_text_terminates Inputs.prose 20 5); [lia | reflexivity].
Defined.

(** *** The stalling input *)

Lemma looping_step (chunks : list str) :
  loop_step Inputs.looping_text 10 8 {| st_start := 0; st_chunks := chunks |}
  = Continue {| st_start := 0;
                st_chunks := chunks ++ [of_string "aaaaaaa."] |}.
Proof.
  unfold loop_step. cbn [st_start st_chunks].
  replace (cut_point Inputs.looping_text 10 0) with (@inr exn Z 8)
    by (vm_compute; reflexivity).
  reflexivity.
Qed.

Lemma looping_never_returns (fuel : nat) :
  forall chunks,
    chunk_loop fuel Inputs.looping_text 10 8
               {| st_start := 0; st_chunks := chunks |} = None.
Proof.
  induction fuel as [|fuel IH]; intros chunks; [reflexivity|].
  cbn [chunk_loop]. rewrite looping_step. apply IH.
Qed.

Lemma looping_starts (n : nat) :
  forall chunks,
    starts_visited n Inputs.looping_text 10 8
                   {| st_start := 0; st_chunks := chunks |} = repeat 0 n.
Proof.
  induction n as [|n IH]; intros chunks; [reflexivity|].
  cbn [starts_visited]. rewrite looping_step. cbn [st_start repeat].
  now rewrite IH.
Qed.

(** C4: at [max_size = 10], [overlap = 8] (so [max_size > overlap >= 0])
    and the sixteen-character text ["aaaaaaa.aaaaaaaa"], the window is cut
    after the period at index 7, [start] becomes [8 - 8 = 0] again, and
    the loop repeats the same window for ever: no amount of fuel reaches
    the [return], and the start positions visited are 0, 0, 0, ... *)
Theorem chunk_text_stalls :
  10 > 8 /\ 8 >= 0 /\
  (forall fuel, chunk_text fuel Inputs.looping_text 10 8 = None) /\
  (forall n,
     starts_visited n Inputs.looping_text 10 8 initial = repeat 0 n) /\
  ~ StronglySorted Z.lt (starts_visited 2 Inputs.looping_text 10 8 initial).
Proof.
  split; [lia|]. split; [lia|]. split; [|split].
  - intros fuel. unfold chunk_text.
    change (len Inputs.looping_text <=? 10) with false. cbv iota.
    apply looping_never_returns.
  - intros n. apply looping_starts.
  - unfold initial. rewrite looping_starts. simpl. intros H.
    inversion H as [|? ? _ Hall]; subst. inversion Hall; subst. lia.
Qed.

(** *** [float(max_size)] is defined below 2^1023 *)

Lemma digits2_pos_succ (p : positive) :
  Z.pos (digits2_pos (Pos.succ p)) <= Z.pos (digits2_pos p) + 1.
Proof.
  induction p as [p IH|p IH|]; cbn [Pos.succ digits2_pos];
    rewrite ?Pos2Z.inj_succ; lia.
Qed.

Lemma Zdigits2_succ (m : Z) : 0 <= m -> Zdigits2 (m + 1) <= Zdigits2 m + 1.
Proof.
  destruct m as [|p|p]; simpl; try lia.
  intros _. rewrite Pos.add_1_r. apply digits2_pos_succ.
Qed.

Lemma Zdigits2_nonneg (m : Z) : 0 <= Zdigits2 m.
Proof. destruct m; simpl; lia. Qed.

Lemma shr_1_digits (x : shr_record) :
  Zdigits2 (shr_m (shr_1 x)) = Z.max 0 (Zdigits2 (shr_m x) - 1).
Proof.
  destruct x as [[|[p|p|]|[p|p|]] r s];
    cbn [shr_1 shr_m Zdigits2 digits2_pos]; rewrite ?Pos2Z.inj_succ; lia.
Qed.

Lemma shr_1_nonneg (x : shr_record) : 0 <= shr_m x -> 0 <= shr_m (shr_1 x).
Proof.
  destruct x as [[|[p|p|]|[p|p|]] r s]; simpl; lia.
Qed.

Lemma iter_shr_1 (p : positive) :
  forall x,
    Zdigits2 (shr_m (iter_pos shr_1 p x))
    = Z.max 0 (Zdigits2 (shr_m x) - Z.pos p) /\
    (0 <= shr_m x -> 0 <= shr_m (iter_pos shr_1 p x)).
Proof.
  induction p as [p IH|p IH|]; intros x; simpl.
  - destruct (IH (shr_1 x)) as [H1 N1].
    destruct (IH (iter_pos shr_1 p (shr_1 x))) as [H2 N2].
    rewrite H2, H1, shr_1_digits. split; [lia|].
    intros H. now apply N2, N1, shr_1_nonneg.
  - destruct (IH x) as [H1 N1].
    destruct (IH (iter_pos shr_1 p x)) as [H2 N2].
    rewrite H2, H1. split; [lia|]. intros H. now apply N2, N1.
  - split; [apply shr_1_digits | apply shr_1_nonneg].
Qed.

Lemma shr_fexp_bounds (m e : Z) (l : location) mrs' e' :
  0 <= m ->
  shr_fexp prec emax m e l = (mrs', e') ->
  0 <= shr_m mrs' /\
  e' = Z.max e (fexp prec emax (Zdigits2 m + e)) /\
  Zdigits2 (shr_m mrs') + e' <= Z.max e' (Zdigits2 m + e).
Proof.
  intros Hm. unfold shr_fexp, shr.
  assert (Hrec : shr_m (shr_record_of_loc m l) = m)
    by (destruct l as [|[]]; reflexivity).
  destruct (fexp prec emax (Zdigits2 m + e) - e) as [|n|n] eqn:En;
    intros [= <- <-]; rewrite ?Hrec.
  - repeat split; try lia.
  - destruct (iter_shr_1 n (shr_record_of_loc m l)) as [Hd Hn].
    rewrite Hrec in Hd, Hn. rewrite Hd.
    pose proof (Zdigits2_nonneg m).
    split; [now apply Hn|]. split; lia.
  - repeat split; lia.
Qed.

Lemma round_nearest_even_bounds (m : Z) (l : location) :
  0 <= m ->
  0 <= round_nearest_even m l /\
  Zdigits2 (round_nearest_even m l) <= Zdigits2 m + 1.
Proof.
  intros Hm. pose proof (Zdigits2_succ m Hm).
  destruct l as [|[]]; simpl; try (split; lia).
  destruct (Z.even m); split; lia.
Qed.

Lemma binary_round_aux_finite (sx : bool) (mx : positive) (ex : Z) :
  ex <= 0 ->
  Zdigits2 (Z.pos mx) + ex <= 1023 ->
  forall s, binary_round_aux prec emax sx (Z.pos mx) ex loc_Exact
            <> S754_infinity s.
Proof.
  intros Hex Hmag s. unfold binary_round_aux.
  destruct (shr_fexp prec emax (Z.pos mx) ex loc_Exact) as [mrs' e'] eqn:E1.
  apply shr_fexp_bounds in E1 as [Hn1 [He1 Hd1]]; [|lia].
  destruct (round_nearest_even_bounds (shr_m mrs') (loc_of_shr_record mrs') Hn1)
    as [Hn2 Hd2].
  destruct (shr_fexp prec emax _ e' loc_Exact) as [mrs'' e''] eqn:E2.
  apply shr_fexp_bounds in E2 as [Hn3 [He2 Hd3]]; [|exact Hn2].
  unfold fexp, emin, prec, emax in *.
  destruct (shr_m mrs''); try discriminate.
  destruct (Z.leb_spec e'' (1024 - 53)); [discriminate|]. lia.
Qed.

Lemma iter_xO_digits (m d : positive) :
  Z.pos (digits2_pos (Pos.iter xO m d)) = Z.pos (digits2_pos m) + Z.pos d.
Proof.
  induction d as [|d IH] using Pos.peano_ind.
  - simpl. lia.
  - rewrite Pos.iter_succ. cbn [digits2_pos]. lia.
Qed.

Lemma binary_round_finite (sx : bool) (mx : positive) :
  Z.pos (digits2_pos mx) <= 1023 ->
  forall s, binary_round prec emax sx mx 0 <> S754_infinity s.
Proof.
  intros Hd s. unfold binary_round, shl_align.
  destruct (fexp prec emax (Z.pos (digits2_pos mx) + 0) - 0) as [|d|d] eqn:E.
  - apply binary_round_aux_finite; simpl; lia.
  - apply binary_round_aux_finite; simpl; lia.
  - apply binary_round_aux_finite.
    + unfold fexp, emin, prec, emax in *. lia.
    + cbn [Zdigits2]. rewrite iter_xO_digits. lia.
Qed.

Lemma digits2_pos_size (p : positive) : digits2_pos p = Pos.size p.
Proof. induction p; simpl; congruence. Qed.

Lemma Zdigits2_bound (z : Z) : Z.abs z < 2 ^ 1023 -> Zdigits2 z <= 1023.
Proof.
  assert (Hpos : forall p, Z.pos p < 2 ^ 1023 -> Z.pos (digits2_pos p) <= 1023).
  { intros p Hp. rewrite digits2_pos_size.
    pose proof (Pos.size_le p) as Hs.
    apply Pos2Z.pos_le_pos in Hs. rewrite Pos2Z.inj_pow in Hs.
    change (Z.pos p~0) with (2 * Z.pos p) in Hs.
    assert (Hlt : 2 ^ Z.pos (Pos.size p) < 2 ^ 1024).
    { change (2 ^ 1024) with (2 * 2 ^ 1023). lia. }
    apply (proj2 (Z.pow_lt_mono_r_iff 2 _ 1024 ltac:(lia) ltac:(lia))) in Hlt.
    clear - Hlt. lia. }
  destruct z as [|p|p]; simpl; intros H; [lia | now apply Hpos..].
Qed.

Lemma float_of_int_defined (z : Z) :
  Z.abs z < 2 ^ 1023 -> exists f, float_of_int z = Some f.
Proof.
  intros Hz. apply Zdigits2_bound in Hz.
  unfold float_of_int, binary_normalize.
  destruct z as [|p|p].
  - now eexists.
  - pose proof (binary_round_finite false p Hz) as H.
    destruct (binary_round prec emax false p 0); try (now eexists).
    now destruct (H s).
  - pose proof (binary_round_finite true p Hz) as H.
    destruct (binary_round prec emax true p 0); try (now eexists).
    now destruct (H s).
Qed.

Lemma beyond_threshold_defined (max_size last_delim : Z) :
  Z.abs max_size < 2 ^ 1023 ->
  exists b, beyond_threshold max_size last_delim = inr b.
Proof.
  intros H. unfold beyond_threshold.
  destruct (float_of_int_defined max_size H) as [f ->]. now eexists.
Qed.

(** *** The cut point *)

Lemma starts_with_firstn (sub s : str) :
  starts_with sub s = true <-> firstn (List.length sub) s = sub.
Proof.
  revert s. induction sub as [|c sub IH]; intros s; simpl; [tauto|].
  destruct s as [|x s]; [split; discriminate|].
  rewrite andb_true_iff, N.eqb_eq, IH. split.
  - intros [-> ->]. reflexivity.
  - intros H. injection H as -> H. now split.
Qed.

Lemma rfind_from_spec (sub : str) :
  forall s i last,
    (rfind_from s sub i last = last /\
     forall k, (k <= List.length s)%nat -> starts_with sub (skipn k s) = false)
    \/
    (exists k, (k <= List.length s)%nat /\
       rfind_from s sub i last = i + Z.of_nat k /\
       starts_with sub (skipn k s) = true /\
       forall k', (k < k' <= List.length s)%nat ->
                  starts_with sub (skipn k' s) = false).
Proof.
  induction s as [|c s IH]; intros i last.
  - cbn [rfind_from]. destruct (starts_with sub []) eqn:E.
    + right. exists 0%nat.
      split; [simpl; lia|]. split; [lia|]. split; [exact E|].
      intros k' Hk'. simpl in Hk'. lia.
    + left. split; [reflexivity|]. intros k Hk. simpl in Hk.
      replace k with 0%nat by lia. exact E.
  - cbn [rfind_from].
    destruct (IH (i + 1) (if starts_with sub (c :: s) then i else last))
      as [[Hr Hno]|[k [Hk [Hr [Hocc Hlast]]]]].
    + rewrite Hr. destruct (starts_with sub (c :: s)) eqn:E.
      * right. exists 0%nat.
        split; [simpl; lia|]. split; [lia|]. split; [exact E|].
        intros [|k'] Hk'; [lia|]. cbn [skipn]. apply Hno.
        simpl in Hk'. lia.
      * left. split; [reflexivity|].
        intros [|k] Hk; [exact E|]. cbn [skipn]. apply Hno.
        simpl in Hk. lia.
    + right. exists (S k).
      split; [simpl; lia|]. split; [rewrite Hr; lia|].
      split; [exact Hocc|].
      intros [|k'] Hk'; [lia|]. cbn [skipn]. apply Hlast.
      simpl in Hk'. lia.
Qed.

(** [rfind] returns the last occurrence. *)
Lemma rfind_last_occurrence (w sub : str) :
  last_occurrence w sub (rfind w sub).
Proof.
  unfold rfind.
  destruct (rfind_from_spec sub w 0 (-1))
    as [[Hr Hno]|[k [Hk [Hr [Hocc Hlast]]]]].
  - left. split; [exact Hr|]. intros p [Hp Hp'].
    apply starts_with_firstn in Hp'.
    rewrite Hno in Hp'; [discriminate|]. unfold len in Hp. lia.
  - right. rewrite Hr. split.
    + split; [unfold len; lia|].
      replace (Z.to_nat (0 + Z.of_nat k)) with k by lia.
      now apply starts_with_firstn.
    + intros p [Hp Hp']. apply starts_with_firstn in Hp'.
      destruct (Z_le_gt_dec p (0 + Z.of_nat k)) as [Hle|Hgt]; [exact Hle|].
      rewrite (Hlast (Z.to_nat p)) in Hp'; [discriminate|].
      unfold len in Hp. lia.
Qed.

Lemma scan_delimiters_accept text max_size start end_ :
  forall pre d post,
    (forall d', In d' pre ->
       beyond_threshold max_size (rfind (slice text start end_) d')
       = inr false) ->
    beyond_threshold max_size (rfind (slice text start end_) d) = inr true ->
    scan_delimiters text max_size start end_ (pre ++ d :: post)
    = inr (start + rfind (slice text start end_) d + 1).
Proof.
  induction pre as [|d0 pre IH]; intros d post Hpre Hd; simpl.
  - now rewrite Hd.
  - rewrite (Hpre d0) by now left.
    apply IH; [|exact Hd]. intros d' Hin. apply Hpre. now right.
Qed.

Lemma scan_delimiters_reject text max_size start end_ :
  forall ds,
    (forall d, In d ds ->
       beyond_threshold max_size (rfind (slice text start end_) d)
       = inr false) ->
    scan_delimiters text max_size start end_ ds = inr end_.
Proof.
  induction ds as [|d ds IH]; intros Hall; simpl; [reflexivity|].
  rewrite (Hall d) by now left.
  apply IH. intros d' Hin. apply Hall. now right.
Qed.

Lemma int_gt_float_floor (f : spec_float) (fl p : Z) :
  float_floor f = Some fl -> int_gt_float p f = (fl <? p).
Proof.
  destruct f as [s|s| |s m e]; unfold int_gt_float, float_floor;
    try discriminate.
  - now intros [= <-].
  - intros [= <-]. destruct e as [|e|e]; try reflexivity.
    change (Z.pow_pos 2 e) with (2 ^ Z.pos e).
    generalize (cond_Zopp s (Z.pos m)). intros v.
    assert (H2 : 0 < 2 ^ Z.pos e) by (apply Z.pow_pos_nonneg; lia).
    generalize dependent (2 ^ Z.pos e). intros b H2.
    assert (Hdm : v = b * (v / b) + v mod b) by (apply Z.div_mod; lia).
    pose proof (Z.mod_pos_bound v b H2) as Hmod.
    remember (v / b) as q eqn:Eq. remember (v mod b) as r eqn:Er.
    clear Eq Er.
    destruct (Z.ltb_spec v (p * b)); destruct (Z.ltb_spec q p);
      try reflexivity; exfalso.
    + assert (b * p <= b * q) by (apply Z.mul_le_mono_nonneg_l; lia). lia.
    + assert (b * (q + 1) <= b * p) by (apply Z.mul_le_mono_nonneg_l; lia).
      lia.
Qed.

Lemma exact_on_range_sound (depth : nat) :
  forall lo z,
    exact_on_range depth lo = true ->
    lo <= z < lo + 2 ^ Z.of_nat depth ->
    sixty_percent_exact z = true.
Proof.
  induction depth as [|depth IH]; intros lo z H Hz.
  - simpl in H, Hz. now replace z with lo by lia.
  - cbn [exact_on_range] in H. apply andb_true_iff in H as [H1 H2].
    rewrite Nat2Z.inj_succ, Z.pow_succ_r in Hz by lia.
    destruct (Z_lt_ge_dec z (lo + 2 ^ Z.of_nat depth)) as [Hlt|Hge].
    + apply (IH lo); [exact H1 | lia].
    + apply (IH (lo + 2 ^ Z.of_nat depth)); [exact H2 | lia].
Qed.

Lemma sixty_percent_checked : exact_on_range 14 0 = true.
Proof. vm_cast_no_check (eq_refl true). Qed.

(** For sizes below 16384 the float test [last_delim > max_size * 0.6]
    is the exact test [5 * last_delim > 3 * max_size]. *)
Lemma threshold_is_sixty_percent (max_size last_delim : Z) :
  0 <= max_size < 16384 ->
  beyond_threshold max_size last_delim
  = inr (3 * max_size <? 5 * last_delim).
Proof.
  intros Hm.
  assert (Hc : sixty_percent_exact max_size = true).
  { apply (exact_on_range_sound 14 0 _ sixty_percent_checked).
    change (2 ^ Z.of_nat 14) with 16384. lia. }
  unfold sixty_percent_exact in Hc. unfold beyond_threshold.
  destruct (float_of_int max_size) as [f|]; [|discriminate].
  destruct (float_floor (mul f lit_0_6)) as [fl|] eqn:Hfl; [|discriminate].
  apply Z.eqb_eq in Hc.
  rewrite (int_gt_float_floor _ _ _ Hfl), Hc. f_equal.
  assert (Hdm : 3 * max_size = 5 * (3 * max_size / 5) + (3 * max_size) mod 5)
    by (apply Z.div_mod; lia).
  assert (Hmod : 0 <= (3 * max_size) mod 5 < 5)
    by (apply Z.mod_pos_bound; lia).
  destruct (Z.ltb_spec (3 * max_size / 5) last_delim);
    destruct (Z.ltb_spec (3 * max_size) (5 * last_delim)); try reflexivity; lia.
Qed.

(** C8: for a window whose hard end [start + max_size] lies strictly
    inside the text, the terminators are tried in the order full-width
    period, period, full-width and half-width exclamation mark,
    full-width and half-width question mark, blank line; for each one
    [rfind] gives its last occurrence in the window; the first
    terminator whose last occurrence passes
    [last_delim > max_size * 0.6] sets the cut to
    [start + last_delim + 1]; when none passes, the cut is the hard
    boundary [start + max_size].  For every [max_size] of magnitude
    below 2^1023 each terminator either passes the test or fails it
    (the conversion to float does not overflow), and below
    [max_size = 16384] the float test is exactly "beyond 60% of
    [max_size]". *)
Theorem cut_point_rule (text : str) (max_size start : Z) :
  start + max_size < len text ->
  let window := slice text start (start + max_size) in
  let passes d := beyond_threshold max_size (rfind window d) in
  delimiters = [[12290]; [46]; [65281]; [33]; [65311]; [63]; [10; 10]]%N /\
  (forall d, In d delimiters -> last_occurrence window d (rfind window d)) /\
  (forall pre d post,
     delimiters = pre ++ d :: post ->
     (forall d', In d' pre -> passes d' = inr false) ->
     passes d = inr true ->
     cut_point text max_size start = inr (start + rfind window d + 1)) /\
  ((forall d, In d delimiters -> passes d = inr false) ->
   cut_point text max_size start = inr (start + max_size)) /\
  (Z.abs max_size < 2 ^ 1023 ->
   forall d, passes d = inr true \/ passes d = inr false) /\
  (0 <= max_size < 16384 ->
   forall d, passes d = inr (3 * max_size <? 5 * rfind window d)).
Proof.
  intros Hin window passes.
  assert (Hcut : cut_point text max_size start
                 = scan_delimiters text max_size start (start + max_size)
                                   delimiters).
  { unfold cut_point. apply Z.ltb_lt in Hin. now rewrite Hin. }
  split; [reflexivity|]. split; [|split; [|split; [|split]]].
  - intros d _. apply rfind_last_occurrence.
  - intros pre d post Hsplit Hpre Hd. rewrite Hcut, Hsplit.
    now apply scan_delimiters_accept.
  - intros Hall. rewrite Hcut. now apply scan_delimiters_reject.
  - intros Hm d. unfold passes.
    destruct (beyond_threshold_defined max_size (rfind window d) Hm)
      as [[|] ->]; [now left | now right].
  - intros Hm d. now apply threshold_is_sixty_percent.
Qed.

Lemma cut_point_rule_witness :
  cut_point Inputs.prose 20 0 = inr 17 /\
  cut_point Inputs.prose 20 26 = inr 46.
Proof.
  split.
  - apply (proj1 (proj2 (proj2
             (cut_point_rule Inputs.prose 20 0 eq_refl)))
             [[12290%N]] [46%N]
             [[65281]; [33]; [65311]; [63]; [10; 10]]%N).
    + reflexivity.
    + intros d' [<-|[]]. reflexivity.
    + reflexivity.
  - apply (proj1 (proj2 (proj2 (proj2
             (cut_point_rule Inputs.prose 20 26 eq_refl))))).
    intros d Hd. simpl in Hd.
    repeat (destruct Hd as [<-|Hd]; [reflexivity|]). destruct Hd.
Defined.

(** C7: a text no longer than [max_size] comes back as the one-element
    list holding the whole text, whatever the overlap and however little
    fuel the loop is given. *)
Theorem chunk_text_short_input (fuel : nat) (text : str) (max_size overlap : Z) :
  len text <= max_size ->
  chunk_text fuel text max_size overlap = Some (inr [text]).
Proof.
  intros H. unfold chunk_text.
  destruct (len text <=? max_size) eqn:E; [reflexivity|].
  apply Z.leb_gt in E. lia.
Qed.

Lemma chunk_text_short_input_witness :
  len Inputs.prose <= 1000 /\
  chunk_text 0 Inputs.prose 1000 200 = Some (inr [Inputs.prose]).
Proof.
  split; [vm_compute; discriminate|].
  apply (chunk_text_short_input 0 Inputs.prose 1000 200).
  vm_compute; discriminate.
Defined.

(** C10: on the multi-window path ([len(text) > max_size]) every chunk
    collected, after any number of iterations and in the list returned,
    is non-empty and equal to its own [strip()]; on the short path
    ([len(text) <= max_size]) the text is returned as it is, so a blank
    text yields a chunk that is empty once trimmed. *)
Theorem chunk_text_trim_rule (text : str) (max_size overlap : Z) :
  (len text > max_size ->
     (forall n s, state_after n text max_size overlap initial = Some s ->
                  Forall trimmed (st_chunks s)) /\
     (forall fuel chunks,
        chunk_text fuel text max_size overlap = Some (inr chunks) ->
        Forall trimmed chunks)) /\
  (len text <= max_size ->
     forall fuel, chunk_text fuel text max_size overlap = Some (inr [text])) /\
  (exists blank,
     chunk_text 0 blank 1000 200 = Some (inr [blank]) /\
     blank <> [] /\ strip blank = []).
Proof.
  split; [|split].
  - intros Hlong. split.
    + intros n s H. eapply state_after_trimmed; [exact H|]. constructor.
    + intros fuel chunks H. unfold chunk_text in H.
      destruct (len text <=? max_size) eqn:E.
      * apply Z.leb_le in E. lia.
      * eapply chunk_loop_trimmed; [exact H|]. constructor.
  - intros Hshort fuel. now apply chunk_text_short_input.
  - exists Inputs.blank_text. repeat split; try reflexivity.
    discriminate.
Qed.

Lemma chunk_text_trim_rule_witness :
  len Inputs.prose > 20 /\
  chunk_text 10 Inputs.prose 20 5
  = Some (inr [of_string "Take two tablets."; of_string "lets. Rest a while.";
               of_string "hile.  Then call the"; of_string "l the nurse"]) /\
  Forall trimmed
         [of_string "Take two tablets."; of_string "lets. Rest a while.";
          of_string "hile.  Then call the"; of_string "l the nurse"].
Proof.
  split; [reflexivity|]. split; [reflexivity|].
  apply (proj2 (proj1 (chunk_text_trim_rule Inputs.prose 20 5) eq_refl) 10%nat).
  reflexivity.
Defined.

End ChunkerProps.

(** * Properties of the index manager *)

Module ManagerProps.
Import Py PyStr FaissIndexManager ManagerSpec.

(** *** The nearest-neighbour lookup *)

Lemma insert_desc_length h l :
  List.length (Faiss.insert_desc h l) = S (List.length l).
Proof.
  induction l as [|h' l IH]; simpl; [reflexivity|].
  destruct (fst h <? fst h'); simpl; now rewrite ?IH.
Qed.

Lemma sort_desc_length l : List.length (Faiss.sort_desc l) = List.length l.
Proof.
  induction l as [|h l IH]; simpl; [reflexivity|].
  now rewrite insert_desc_length, IH.
Qed.

Lemma scores_from_length q vs label :
  List.length (Faiss.scores_from q vs label) = List.length vs.
Proof.
  revert label. induction vs as [|v vs IH]; intros label; simpl;
    [reflexivity|]. now rewrite IH.
Qed.

Lemma insert_desc_Forall (P : Faiss.hit -> Prop) h l :
  P h -> Forall P l -> Forall P (Faiss.insert_desc h l).
Proof.
  intros Hh Hl. induction Hl as [|h' l Hh' Hl IH]; simpl.
  - now constructor.
  - destruct (fst h <? fst h'); repeat constructor; assumption.
Qed.

Lemma insert_desc_sorted h l :
  hits_best_first l -> hits_best_first (Faiss.insert_desc h l).
Proof.
  unfold hits_best_first. intros Hl.
  induction Hl as [|h' l Hl IH Hall]; simpl.
  - repeat constructor.
  - destruct (Z.ltb_spec (fst h) (fst h')).
    + constructor; [exact IH|].
      apply insert_desc_Forall; [lia | exact Hall].
    + constructor; [now constructor|].
      constructor; [lia|].
      eapply Forall_impl; [|exact Hall]. simpl. intros. lia.
Qed.

Lemma sort_desc_sorted l : hits_best_first (Faiss.sort_desc l).
Proof.
  induction l as [|h l IH]; simpl; [constructor|].
  now apply insert_desc_sorted.
Qed.

Lemma firstn_Forall (P : Faiss.hit -> Prop) n l :
  Forall P l -> Forall P (firstn n l).
Proof.
  intros Hl. revert n.
  induction Hl as [|h l Hh Hl IH]; intros [|n]; simpl; constructor; auto.
Qed.

Lemma firstn_sorted n l : hits_best_first l -> hits_best_first (firstn n l).
Proof.
  unfold hits_best_first. revert l.
  induction n as [|n IH]; intros l Hl; simpl; [constructor|].
  destruct Hl as [|h l Hl Hall]; [constructor|].
  constructor; [now apply IH|]. now apply firstn_Forall.
Qed.

(** What a successful lookup for at most [ntotal] hits returns. *)
Lemma faiss_search_hits i q k hits :
  Faiss.search i q k = inr hits ->
  k <= Faiss.ntotal i ->
  0 < k /\ Z.of_nat (List.length hits) = k /\ hits_best_first hits.
Proof.
  unfold Faiss.search. intros H Hk.
  destruct (Z.of_nat (List.length q) =? Faiss.d i); [|discriminate].
  destruct (Z.ltb_spec 0 k); [|discriminate].
  simpl in H. injection H as <-.
  assert (Hlen : List.length
                   (firstn (Z.to_nat k)
                      (Faiss.sort_desc (Faiss.scores_from q (Faiss.xb i) 0)))
                 = Z.to_nat k).
  { rewrite length_firstn, sort_desc_length, scores_from_length.
    unfold Faiss.ntotal in Hk. lia. }
  rewrite Hlen, Nat.sub_diag. simpl. rewrite app_nil_r.
  split; [assumption|]. split; [lia|].
  apply firstn_sorted, sort_desc_sorted.
Qed.

Lemma faiss_search_returns i q k :
  Z.of_nat (List.length q) = Faiss.d i -> 0 < k ->
  exists hits, Faiss.search i q k = inr hits.
Proof.
  intros Hq Hk. unfold Faiss.search.
  apply Z.eqb_eq in Hq. apply Z.ltb_lt in Hk. rewrite Hq, Hk. simpl.
  now eexists.
Qed.

(** *** The fetch loop of [search] *)

Lemma fetch_loop_enrich t hits :
  forall results,
    fetch_loop t hits results = results ++ flat_map (enrich t) hits.
Proof.
  induction hits as [|[score idx] hits IH]; intros results; simpl.
  - now rewrite app_nil_r.
  - unfold enrich. simpl. destruct (idx =? -1).
    + apply IH.
    + destruct (Sqlite.select_by_id t (idx + 1)); rewrite IH; simpl.
      * now rewrite <- app_assoc.
      * reflexivity.
Qed.

Lemma enrich_length t h : (List.length (enrich t h) <= 1)%nat.
Proof.
  unfold enrich. destruct (snd h =? -1); simpl; [lia|].
  destruct (Sqlite.select_by_id t (snd h + 1)); simpl; lia.
Qed.

Lemma flat_map_enrich_length t hits :
  (List.length (flat_map (enrich t) hits) <= List.length hits)%nat.
Proof.
  induction hits as [|h hits IH]; simpl; [lia|].
  rewrite length_app. pose proof (enrich_length t h). lia.
Qed.

Lemma enrich_score t h r : In r (enrich t h) -> r_score r = fst h.
Proof.
  unfold enrich. destruct (snd h =? -1); [intros []|].
  destruct (Sqlite.select_by_id t (snd h + 1)); [|intros []].
  intros [<-|[]]. reflexivity.
Qed.

Lemma flat_map_enrich_sorted t hits :
  hits_best_first hits -> best_first (flat_map (enrich t) hits).
Proof.
  unfold hits_best_first, best_first.
  induction 1 as [|h hits Hs IH Hall]; simpl; [constructor|].
  assert (Hrest : Forall (fun r => r_score r <= fst h)
                         (flat_map (enrich t) hits)).
  { apply Forall_forall. intros r Hr.
    apply in_flat_map in Hr as [h' [Hin Hr]].
    rewrite (enrich_score _ _ _ Hr).
    exact (proj1 (Forall_forall _ _) Hall h' Hin). }
  pose proof (enrich_score t h) as Hsc.
  destruct (enrich t h) as [|r [|r' l]] eqn:E; simpl.
  - exact IH.
  - constructor; [exact IH|].
    rewrite (Hsc r) by now left. exact Hrest.
  - pose proof (enrich_length t h) as Hl. rewrite E in Hl. simpl in Hl. lia.
Qed.

(** *** [search] *)

(** C9: when the nearest-neighbour lookup succeeds, [search] succeeds
    too; its result is the hits in order, each joined with its metadata
    row; a hit whose position has no row with id [idx + 1] adds nothing,
    a hit whose row exists adds exactly that row with the hit's score. *)
Theorem search_skips_missing_rows
        (m : manager) (q : Faiss.vector) (top_k : Z) (hits : list Faiss.hit) :
  Faiss.ntotal (index m) <> 0 ->
  Faiss.search (index m) q (Z.min top_k (Faiss.ntotal (index m))) = inr hits ->
  search m q top_k = inr (flat_map (enrich (documents m)) hits) /\
  (forall h, In h hits ->
     Sqlite.select_by_id (documents m) (snd h + 1) = None ->
     enrich (documents m) h = []) /\
  (forall h row, In h hits -> snd h <> -1 ->
     Sqlite.select_by_id (documents m) (snd h + 1) = Some row ->
     enrich (documents m) h = [result_of row (fst h)]).
Proof.
  intros Hn Hhits. split; [|split].
  - unfold search. apply Z.eqb_neq in Hn. rewrite Hn, Hhits.
    now rewrite fetch_loop_enrich.
  - intros h _ Hrow. unfold enrich. rewrite Hrow.
    now destruct (snd h =? -1).
  - intros h row _ Hidx Hrow. unfold enrich. rewrite Hrow.
    apply Z.eqb_neq in Hidx. now rewrite Hidx.
Qed.

Lemma search_skips_missing_rows_witness :
  Sqlite.select_by_id (documents (snd Inputs.short_languages_call)) 3 = None /\
  search (snd Inputs.short_languages_call) Inputs.query 3
  = inr [ {| r_doc_id := of_string "doc_1"; r_text := of_string "Text 1";
             r_language := of_string "en";
             r_filename := of_string "file1.txt"; r_score := 2 |};
          {| r_doc_id := of_string "doc_2"; r_text := of_string "Text 2";
             r_language := of_string "en";
             r_filename := of_string "file1.txt"; r_score := 1 |} ].
Proof.
  split; [reflexivity|].
  apply (proj1 (search_skips_missing_rows
                  (snd Inputs.short_languages_call) Inputs.query 3
                  [(3, 2); (2, 0); (1, 1)]
                  ltac:(vm_compute; discriminate) eq_refl)).
Defined.

(** C5, as the code has it: on an index without vectors [search] returns
    the empty list for every [top_k]; [top_k] is limited from above only,
    to [min(top_k, ntotal)]; a [top_k] below 1 on an index with vectors
    is handed to FAISS as it is and rejected there; for [top_k >= 1] a
    query of the index's dimension gets a result, and every result has
    at most [min(top_k, ntotal)] entries, best score first. *)
Theorem search_bounded_best_first
        (m : manager) (q : Faiss.vector) (top_k : Z) :
  (Faiss.ntotal (index m) = 0 -> search m q top_k = inr []) /\
  search m q top_k = search m q (Z.min top_k (Faiss.ntotal (index m))) /\
  (top_k < 1 -> Faiss.ntotal (index m) <> 0 ->
   search m q top_k = inl AssertionError) /\
  (1 <= top_k ->
   (Z.of_nat (List.length q) = Faiss.d (index m) ->
    exists results, search m q top_k = inr results) /\
   (forall results,
      search m q top_k = inr results ->
      Z.of_nat (List.length results)
      <= Z.min top_k (Faiss.ntotal (index m)) /\
      best_first results)).
Proof.
  split; [|split; [|split]].
  - intros Hn. unfold search. now rewrite Hn.
  - unfold search. now rewrite <- Z.min_assoc, Z.min_id.
  - intros Hk Hn. unfold search. apply Z.eqb_neq in Hn. rewrite Hn.
    unfold Faiss.search.
    destruct (Z.of_nat (List.length q) =? Faiss.d (index m)); simpl;
      [|reflexivity].
    destruct (Z.ltb_spec 0 (Z.min top_k (Faiss.ntotal (index m))));
      [lia | reflexivity].
  - intros Hk. unfold search.
    destruct (Z.eqb_spec (Faiss.ntotal (index m)) 0) as [Hn|Hn].
    + split; [now eexists|]. intros results [= <-]. simpl.
      split; [lia | constructor].
    + assert (Hpos : 0 < Faiss.ntotal (index m))
        by (unfold Faiss.ntotal in *; lia).
      split.
      * intros Hq.
        destruct (faiss_search_returns (index m) q
                    (Z.min top_k (Faiss.ntotal (index m))) Hq)
          as [hits ->]; [lia|]. now eexists.
      * intros results H.
        destruct (Faiss.search (index m) q
                    (Z.min top_k (Faiss.ntotal (index m))))
          as [e|hits] eqn:Hs; [discriminate|].
        injection H as <-.
        apply faiss_search_hits in Hs as [_ [Hlen Hsorted]]; [|lia].
        rewrite fetch_loop_enrich. simpl. split.
        -- pose proof (flat_map_enrich_length (documents m) hits). lia.
        -- now apply flat_map_enrich_sorted.
Qed.

Lemma search_bounded_best_first_witness :
  1 <= 2 /\
  search Inputs.three_docs Inputs.query 2
  = inr [ {| r_doc_id := of_string "doc_3"; r_text := of_string "Text 3";
             r_language := of_string "ja";
             r_filename := of_string "file2.txt"; r_score := 3 |};
          {| r_doc_id := of_string "doc_1"; r_text := of_string "Text 1";
             r_language := of_string "en";
             r_filename := of_string "file1.txt"; r_score := 2 |} ] /\
  (forall results,
     search Inputs.three_docs Inputs.query 2 = inr results ->
     Z.of_nat (List.length results)
     <= Z.min 2 (Faiss.ntotal (index Inputs.three_docs)) /\
     best_first results).
Proof.
  split; [lia|]. split; [reflexivity|].
  apply (proj2 (proj2 (proj2 (proj2
           (search_bounded_best_first Inputs.three_docs Inputs.query 2)))
           ltac:(lia))).
Defined.

(** C5 as stated fails: with three vectors indexed, [top_k = 0] is not
    treated as the clamped value 1. *)
Lemma search_top_k_zero_not_clamped :
  ~ (search Inputs.three_docs Inputs.query 0
     = search Inputs.three_docs Inputs.query
         (clamp_top_k 0 (Faiss.ntotal (index Inputs.three_docs)))).
Proof. vm_compute. discriminate. Qed.

(** *** [add_documents] *)

Lemma insert_committed c r c' :
  Sqlite.insert c r = inr c' -> Sqlite.committed c' = Sqlite.committed c.
Proof.
  unfold Sqlite.insert.
  destruct (negb _); [discriminate|].
  destruct (existsb _ _); [discriminate|].
  now intros [= <-].
Qed.

Lemma insert_loop_committed items :
  forall s r s',
    insert_loop items s = (r, s') ->
    Sqlite.committed (a_conn s') = Sqlite.committed (a_conn s).
Proof.
  induction items as [|[[[text lang] fname] chunk_idx] items IH];
    intros s r s' H; simpl in H.
  - now injection H as _ <-.
  - destruct (Sqlite.insert _ _) as [e|conn] eqn:E.
    + now injection H as _ <-.
    + apply IH in H. simpl in H. rewrite H. now apply insert_committed in E.
Qed.

(** A call that raises leaves the table and the index untouched. *)
Lemma add_documents_raised
      m texts embeddings languages filenames chunk_indices e m' :
  add_documents m texts embeddings languages filenames chunk_indices
  = (inl e, m') ->
  documents m' = documents m /\ index m' = index m.
Proof.
  unfold add_documents. intros H.
  destruct (negb _); [now injection H as _ <-|].
  destruct (insert_loop _ _) as [[e'|] s] eqn:Hloop.
  - injection H as _ <-. apply insert_loop_committed in Hloop.
    split; [exact Hloop | reflexivity].
  - destruct (Faiss.add (index m) embeddings) as [e'|index'];
      [|discriminate].
    injection H as _ <-. apply insert_loop_committed in Hloop.
    split; [exact Hloop | reflexivity].
Qed.

Lemma insert_pending c r c' :
  Sqlite.insert c r = inr c' -> Sqlite.pending c' = Sqlite.pending c ++ [r].
Proof.
  unfold Sqlite.insert.
  destruct (negb _); [discriminate|].
  destruct (existsb _ _); [discriminate|].
  now intros [= <-].
Qed.

(** A run of the [for] loop that inserts every row: the counter, the doc
    ids and the rows of the open transaction afterwards. *)
Lemma insert_loop_inserted items :
  forall s s',
    insert_loop items s = (None, s') ->
    a_counter s' = a_counter s + Z.of_nat (List.length items) /\
    a_doc_ids s'
    = a_doc_ids s
      ++ map make_doc_id (ids_from (a_counter s + 1) (List.length items)) /\
    exists new,
      Sqlite.pending (a_conn s') = Sqlite.pending (a_conn s) ++ new /\
      List.length new = List.length items /\
      numbered new (a_counter s + 1).
Proof.
  induction items as [|[[[text lang] fname] chunk_idx] items IH];
    intros s s' H; simpl in H.
  - injection H as <-. simpl. rewrite Z.add_0_r, app_nil_r.
    repeat split. exists []. rewrite app_nil_r. repeat split.
  - destruct (Sqlite.insert _ _) as [e|conn] eqn:E; [discriminate|].
    apply IH in H. cbn [a_counter a_doc_ids a_conn] in H.
    destruct H as [Hc [Hd [new [Hp [Hl [Hn1 Hn2]]]]]].
    apply insert_pending in E.
    split; [rewrite Hc; simpl List.length; lia|].
    split; [rewrite Hd, <- app_assoc; reflexivity|].
    eexists (_ :: new). split; [|split; [|split]].
    + rewrite Hp, E, <- app_assoc. reflexivity.
    + simpl. now rewrite Hl.
    + simpl. rewrite Hn1, Hl. reflexivity.
    + simpl. rewrite Hn2, Hl. reflexivity.
Qed.

Lemma zip4_length texts languages filenames chunk_indices :
  List.length languages = List.length texts ->
  List.length filenames = List.length texts ->
  List.length chunk_indices = List.length texts ->
  List.length (zip4 texts languages filenames chunk_indices)
  = List.length texts.
Proof.
  revert languages filenames chunk_indices.
  induction texts as [|t ts IH]; intros [|l ls] [|f fs] [|c cs];
    simpl; try discriminate; try reflexivity.
  intros [= Hl] [= Hf] [= Hc]. now rewrite IH.
Qed.

(** What a call of [add_documents] that returns has done: the doc ids are
    ["doc_" + decimal] of the counter values [counter + 1, ...]; the rows
    with those ids are appended to the table; all the vectors of
    [embeddings] are appended to the index. *)
Lemma add_documents_returned
      m texts embeddings languages filenames chunk_indices ids m' :
  add_documents m texts embeddings languages filenames chunk_indices
  = (inr ids, m') ->
  let n := List.length (zip4 texts languages filenames chunk_indices) in
  List.length texts = List.length (Faiss.rows embeddings) /\
  ids = map make_doc_id (ids_from (doc_counter m + 1) n) /\
  doc_counter m' = doc_counter m + Z.of_nat n /\
  (exists new,
     documents m' = documents m ++ new /\
     List.length new = n /\
     numbered new (doc_counter m + 1)) /\
  Faiss.xb (index m') = Faiss.xb (index m) ++ Faiss.rows embeddings.
Proof.
  intros H. cbv zeta. unfold add_documents in H.
  destruct (Nat.eqb_spec (List.length texts)
                         (List.length (Faiss.rows embeddings))) as [Hlen|];
    [|discriminate].
  cbn [negb] in H.
  destruct (insert_loop _ _) as [[e|] s] eqn:Hloop; [discriminate|].
  unfold Faiss.add in H.
  destruct (Faiss.ncols embeddings =? Faiss.d (index m)); [|discriminate].
  injection H as <- <-.
  pose proof (insert_loop_committed _ _ _ _ Hloop) as Hcom.
  apply insert_loop_inserted in Hloop.
  cbn [a_counter a_doc_ids a_conn Sqlite.connect Sqlite.pending
       Sqlite.committed] in Hloop, Hcom.
  destruct Hloop as [Hc [Hd [new [Hp [Hl Hn]]]]].
  split; [exact Hlen|]. split; [exact Hd|]. split; [exact Hc|].
  split; [|reflexivity].
  exists new. split; [|split; assumption].
  unfold documents at 1. simpl. unfold Sqlite.visible.
  now rewrite Hcom, Hp.
Qed.

(** *** The state the manager is meant to keep *)

Lemma ids_from_app first n k :
  ids_from first (n + k)
  = ids_from first n ++ ids_from (first + Z.of_nat n) k.
Proof.
  revert first. induction n as [|n IH]; intros first.
  - simpl. now rewrite Z.add_0_r.
  - cbn [ids_from Nat.add app]. rewrite IH. do 3 f_equal. lia.
Qed.

Lemma numbered_app rows new first :
  numbered rows first ->
  numbered new (first + Z.of_nat (List.length rows)) ->
  numbered (rows ++ new) first.
Proof.
  unfold numbered. intros [H1 H2] [H3 H4].
  rewrite !map_app, length_app, ids_from_app, map_app.
  now rewrite H1, H2, H3, H4.
Qed.

Lemma fresh_consistent dimension : consistent (fresh dimension).
Proof. repeat split. Qed.

(** A call with five sequences of one length that returns keeps the
    manager consistent. *)
Lemma add_documents_consistent
      m texts embeddings languages filenames chunk_indices ids m' :
  consistent m ->
  List.length languages = List.length texts ->
  List.length filenames = List.length texts ->
  List.length chunk_indices = List.length texts ->
  add_documents m texts embeddings languages filenames chunk_indices
  = (inr ids, m') ->
  consistent m'.
Proof.
  intros [Hnum [Hcount Hctr]] Hl Hf Hc H.
  apply add_documents_returned in H.
  rewrite (zip4_length _ _ _ _ Hl Hf Hc) in H. cbv zeta in H.
  destruct H as [Hlen [_ [Hctr' [[new [Hdocs [Hnew Hnum']]] Hxb]]]].
  unfold consistent. rewrite Hdocs, Hxb, Hctr', !length_app.
  split; [|split].
  - apply numbered_app; [exact Hnum|].
    now rewrite <- Hctr, Z.add_comm.
  - lia.
  - lia.
Qed.

Lemma persist_consistent m : consistent m -> consistent (persist m).
Proof.
  unfold persist. now destruct (0 <? Faiss.ntotal (index m)).
Qed.

Lemma find_numbered (rows : list Sqlite.row) :
  forall first k,
    map Sqlite.id rows = ids_from first (List.length rows) ->
    (Sqlite.select_by_id rows k <> None
     <-> first <= k < first + Z.of_nat (List.length rows)).
Proof.
  unfold Sqlite.select_by_id.
  induction rows as [|r rows IH]; intros first k H.
  - simpl. split; [congruence | lia].
  - cbn [map List.length ids_from] in H. injection H as Hid Hrest.
    cbn [find List.length]. rewrite Hid.
    destruct (Z.eqb_spec first k) as [->|Hne].
    + split; [intros _; lia | discriminate].
    + rewrite (IH (first + 1) k Hrest). lia.
Qed.

(** In a consistent manager the counts agree, and the row with id [k]
    exists exactly when the index holds a vector at position [k - 1]. *)
Lemma consistent_correspondence m :
  consistent m ->
  Sqlite.count (documents m) = Faiss.ntotal (index m) /\
  forall k,
    Sqlite.select_by_id (documents m) k <> None
    <-> (1 <= k /\
         nth_error (Faiss.xb (index m)) (Z.to_nat (k - 1)) <> None).
Proof.
  intros [[Hid _] [Hcount _]]. split.
  - unfold Sqlite.count, Faiss.ntotal. now rewrite Hcount.
  - intros k. rewrite (find_numbered _ 1 k Hid), nth_error_Some, <- Hcount.
    lia.
Qed.

(** Along any sequence of regular calls on a manager started on empty
    storage, the manager is consistent after every call. *)
Lemma regular_calls_consistent (cs : list call) :
  forall m, consistent m -> regular_calls m cs ->
            consistent (fold_left after_call cs m).
Proof.
  induction cs as [|c cs IH]; intros m Hm Hcs; [exact Hm|].
  destruct Hcs as [Hc Hcs]. simpl. apply IH; [|exact Hcs].
  destruct c as [texts embeddings languages filenames chunk_indices| | |];
    simpl; try exact Hm.
  - destruct Hc as [Hl [Hf [Hc [ids Hids]]]].
    destruct (add_documents m texts embeddings languages filenames
                            chunk_indices) as [r m'] eqn:E.
    simpl in Hids. subst r. simpl.
    exact (add_documents_consistent _ _ _ _ _ _ _ _ Hm Hl Hf Hc E).
  - now apply persist_consistent.
Qed.

(** *** Ids are never reused *)

Lemma of_string_inj (a b : string) : of_string a = of_string b -> a = b.
Proof.
  revert b. induction a as [|c a IH]; intros [|c' b]; simpl;
    try discriminate; [reflexivity|].
  intros [= Hc Hab]. f_equal; [|now apply IH].
  rewrite <- (ascii_N_embedding c), <- (ascii_N_embedding c'). now rewrite Hc.
Qed.

Lemma decimal_inj (a b : Z) : decimal a = decimal b -> a = b.
Proof.
  unfold decimal. intros H. apply of_string_inj in H.
  assert (Hnil : forall z, Z.to_int z <> Decimal.Pos Decimal.Nil /\
                           Z.to_int z <> Decimal.Neg Decimal.Nil).
  { intros [|p|p]; simpl; split; try discriminate;
      intros [= Hp]; now apply DecimalPos.Unsigned.to_uint_nonnil in Hp. }
  assert (Hint : Some (Z.to_int a) = Some (Z.to_int b)).
  { rewrite <- (NilZero.isi (Z.to_int a)) by apply Hnil.
    rewrite <- (NilZero.isi (Z.to_int b)) by apply Hnil.
    now rewrite H. }
  injection Hint as Hint.
  rewrite <- (DecimalZ.of_to a), <- (DecimalZ.of_to b). now rewrite Hint.
Qed.

Lemma make_doc_id_inj (a b : Z) : make_doc_id a = make_doc_id b -> a = b.
Proof.
  unfold make_doc_id. intros H. apply app_inv_head in H.
  now apply decimal_inj.
Qed.

Lemma ids_from_bounds first n k :
  In k (ids_from first n) -> first <= k < first + Z.of_nat n.
Proof.
  revert first. induction n as [|n IH]; intros first; simpl; [intros []|].
  intros [<-|H]; [lia|]. apply IH in H. lia.
Qed.

Lemma numbered_rows rows first r :
  numbered rows first -> In r rows ->
  first <= Sqlite.id r < first + Z.of_nat (List.length rows) /\
  Sqlite.doc_id r = make_doc_id (Sqlite.id r).
Proof.
  unfold numbered. revert first.
  induction rows as [|r0 rows IH]; intros first [Hid Hdoc] Hin;
    [destruct Hin|].
  cbn [map List.length ids_from] in Hid, Hdoc.
  injection Hid as Hid0 Hid. injection Hdoc as Hdoc0 Hdoc.
  destruct Hin as [<-|Hin].
  - rewrite Hid0, Hdoc0. cbn [List.length]. split; [lia | reflexivity].
  - destruct (IH (first + 1) (conj Hid Hdoc) Hin) as [Hb Hd].
    cbn [List.length]. split; [lia | exact Hd].
Qed.

(** An [INSERT] with the next id into a table numbered from 1 goes
    through. *)
Lemma insert_next c text lang fname chunk_idx :
  numbered (Sqlite.visible c) 1 ->
  Z.of_nat (List.length (Sqlite.visible c)) + 1 <= 2 ^ 63 - 1 ->
  Sqlite.fits_int64 chunk_idx = true ->
  let counter := Z.of_nat (List.length (Sqlite.visible c)) + 1 in
  let r := {| Sqlite.id := counter; Sqlite.doc_id := make_doc_id counter;
              Sqlite.text := text; Sqlite.language := lang;
              Sqlite.filename := fname; Sqlite.chunk_index := chunk_idx |} in
  Sqlite.insert c r
  = inr {| Sqlite.committed := Sqlite.committed c;
           Sqlite.pending := Sqlite.pending c ++ [r] |}.
Proof.
  intros Hnum Hmax Hfit counter r. unfold Sqlite.insert.
  assert (Hid : Sqlite.fits_int64 (Sqlite.id r) = true).
  { unfold Sqlite.fits_int64. simpl. apply andb_true_iff.
    split; apply Z.leb_le; subst counter; lia. }
  rewrite Hid. simpl Sqlite.chunk_index. rewrite Hfit. cbn [andb negb].
  destruct (existsb _ (Sqlite.visible c)) eqn:E; [|reflexivity].
  exfalso. apply existsb_exists in E as [r' [Hin Hdup]].
  destruct (numbered_rows _ _ _ Hnum Hin) as [Hb Hd].
  apply orb_true_iff in Hdup as [Hdup|Hdup].
  - apply Z.eqb_eq in Hdup. simpl in Hdup. subst counter. lia.
  - unfold Sqlite.str_eqb in Hdup.
    destruct (list_eq_dec N.eq_dec _ _) as [Heq|]; [|discriminate].
    simpl in Heq. rewrite Hd in Heq. apply make_doc_id_inj in Heq.
    subst counter. lia.
Qed.

Lemma insert_loop_succeeds items :
  forall s,
    numbered (Sqlite.visible (a_conn s)) 1 ->
    a_counter s = Z.of_nat (List.length (Sqlite.visible (a_conn s))) ->
    a_counter s + Z.of_nat (List.length items) <= 2 ^ 63 - 1 ->
    Forall (fun item => Sqlite.fits_int64 (snd item) = true) items ->
    exists s', insert_loop items s = (None, s').
Proof.
  induction items as [|[[[text lang] fname] chunk_idx] items IH];
    intros s Hnum Hctr Hmax Hfit; [now eexists|].
  cbn [insert_loop]. cbn [List.length] in Hmax.
  inversion Hfit as [|? ? Hfit0 Hfit']; subst. simpl in Hfit0.
  rewrite Hctr.
  rewrite (insert_next _ text lang fname chunk_idx Hnum) by (assumption || lia).
  apply IH; cbn [a_conn a_counter].
  - unfold Sqlite.visible. cbn [Sqlite.committed Sqlite.pending].
    rewrite app_assoc. apply numbered_app; [exact Hnum|].
    split; cbn [map List.length ids_from Sqlite.id Sqlite.doc_id];
      [f_equal; lia | do 2 f_equal; lia].
  - unfold Sqlite.visible. cbn [Sqlite.committed Sqlite.pending].
    rewrite app_assoc, (length_app _ [_]). cbn [List.length]. lia.
  - lia.
  - exact Hfit'.
Qed.

Lemma zip4_fits texts languages filenames chunk_indices :
  Forall (fun c => Sqlite.fits_int64 c = true) chunk_indices ->
  Forall (fun item : str * str * str * Z => Sqlite.fits_int64 (snd item) = true)
         (zip4 texts languages filenames chunk_indices).
Proof.
  intros H. revert texts languages filenames.
  induction H as [|c cs Hc Hcs IH]; intros [|t ts] [|l ls] [|f fs];
    simpl; try constructor; auto.
Qed.

(** A consistent manager accepts every well-formed batch: five sequences
    of one length, embeddings of the index's dimension, chunk indices and
    ids within SQLite's integers. *)
Lemma add_documents_succeeds
      m texts embeddings languages filenames chunk_indices :
  consistent m ->
  List.length (Faiss.rows embeddings) = List.length texts ->
  List.length languages = List.length texts ->
  List.length filenames = List.length texts ->
  List.length chunk_indices = List.length texts ->
  Faiss.ncols embeddings = Faiss.d (index m) ->
  Forall (fun c => Sqlite.fits_int64 c = true) chunk_indices ->
  doc_counter m + Z.of_nat (List.length texts) <= 2 ^ 63 - 1 ->
  exists ids m',
    add_documents m texts embeddings languages filenames chunk_indices
    = (inr ids, m') /\ consistent m'.
Proof.
  intros Hcons He Hl Hf Hc Hd Hfit Hmax.
  assert (Hret : exists ids m',
             add_documents m texts embeddings languages filenames
                           chunk_indices = (inr ids, m')).
  { unfold add_documents. rewrite He, Nat.eqb_refl. cbn [negb].
    destruct Hcons as [Hnum [_ Hctr]].
    destruct (insert_loop_succeeds
                (zip4 texts languages filenames chunk_indices)
                {| a_counter := doc_counter m; a_doc_ids := [];
                   a_conn := Sqlite.connect (documents m) |})
      as [s' ->].
    - unfold Sqlite.visible. simpl. now rewrite app_nil_r.
    - unfold Sqlite.visible. simpl. now rewrite app_nil_r.
    - cbn [a_counter]. now rewrite (zip4_length _ _ _ _ Hl Hf Hc).
    - now apply zip4_fits.
    - unfold Faiss.add. apply Z.eqb_eq in Hd. rewrite Hd. now do 2 eexists. }
  destruct Hret as [ids [m' Hret]]. exists ids, m'. split; [exact Hret|].
  exact (add_documents_consistent _ _ _ _ _ _ _ _ Hcons Hl Hf Hc Hret).
Qed.

(** Rows are only ever appended: whatever a call does, the table from
    before the call is a prefix of the table after it. *)
Lemma add_documents_appends
      m texts embeddings languages filenames chunk_indices :
  exists new,
    documents (snd (add_documents m texts embeddings languages filenames
                                  chunk_indices))
    = documents m ++ new.
Proof.
  destruct (add_documents m texts embeddings languages filenames
                          chunk_indices) as [[e|ids] m'] eqn:H;
    cbn [snd].
  - apply add_documents_raised in H as [-> _]. exists [].
    now rewrite app_nil_r.
  - apply add_documents_returned in H
      as [_ [_ [_ [[new [-> _]] _]]]]. now exists new.
Qed.

Lemma insert_fresh_id c r c' :
  Sqlite.insert c r = inr c' ->
  ~ In (Sqlite.id r) (map Sqlite.id (Sqlite.visible c)).
Proof.
  unfold Sqlite.insert.
  destruct (negb _); [discriminate|].
  destruct (existsb _ _) eqn:E; [discriminate|].
  intros _ Hin. apply in_map_iff in Hin as [r' [Hid Hin]].
  assert (Hex : existsb
                  (fun r' => (Sqlite.id r' =? Sqlite.id r)
                             || Sqlite.str_eqb (Sqlite.doc_id r')
                                               (Sqlite.doc_id r))
                  (Sqlite.visible c) = true).
  { apply existsb_exists. exists r'. split; [exact Hin|].
    apply orb_true_iff. left. now apply Z.eqb_eq. }
  congruence.
Qed.

Lemma insert_loop_ids_unique items :
  forall s r s',
    insert_loop items s = (r, s') ->
    NoDup (map Sqlite.id (Sqlite.visible (a_conn s))) ->
    NoDup (map Sqlite.id (Sqlite.visible (a_conn s'))).
Proof.
  induction items as [|[[[text lang] fname] chunk_idx] items IH];
    intros s r s' H Hnd; simpl in H.
  - now injection H as _ <-.
  - destruct (Sqlite.insert _ _) as [e|conn] eqn:E.
    + now injection H as _ <-.
    + apply IH in H; [exact H|]. cbn [a_conn].
      pose proof (insert_fresh_id _ _ _ E) as Hfresh.
      pose proof (insert_committed _ _ _ E) as Hcom.
      pose proof (insert_pending _ _ _ E) as Hpen.
      unfold Sqlite.visible in *. rewrite Hcom, Hpen, app_assoc, map_app.
      apply NoDup_app; [exact Hnd | repeat constructor; intros [] |].
      intros a Ha [<-|[]]. now apply Hfresh.
Qed.

(** X13: no call of [add_documents], returning or raising, gives an id
    to two rows: a table without a repeated id has none afterwards. *)
Lemma add_documents_ids_unique
      m texts embeddings languages filenames chunk_indices :
  NoDup (map Sqlite.id (documents m)) ->
  NoDup (map Sqlite.id
           (documents (snd (add_documents m texts embeddings languages
                                          filenames chunk_indices)))).
Proof.
  intros Hnd. unfold add_documents.
  destruct (negb _); [exact Hnd|].
  destruct (insert_loop _ _) as [[e|] s] eqn:Hloop.
  - simpl. apply insert_loop_committed in Hloop. unfold documents at 1.
    simpl. now rewrite Hloop.
  - pose proof (insert_loop_committed _ _ _ _ Hloop) as Hcom.
    apply insert_loop_ids_unique in Hloop;
      [|unfold Sqlite.visible; simpl; now rewrite app_nil_r].
    destruct (Faiss.add (index m) embeddings); simpl.
    + unfold documents at 1. simpl. now rewrite Hcom.
    + exact Hloop.
Qed.

(** A restart on a readable index file takes the counter from the
    table. *)
Lemma restart_restores_counter m i :
  index_file (storage m) = Some (Blob i) ->
  doc_counter (restart m) = restore_counter (documents m) /\
  index (restart m) = i /\
  documents (restart m) = documents m.
Proof.
  unfold restart, init, load_or_create_index. intros ->. repeat split.
Qed.

(** Without a readable index file the counter starts at 0, whatever the
    table holds. *)
Lemma restart_without_index m :
  index_file (storage m) = None \/ index_file (storage m) = Some Corrupt ->
  doc_counter (restart m) = 0 /\
  index (restart m) = Faiss.IndexFlatIP (dimension m) /\
  documents (restart m) = documents m.
Proof.
  unfold restart, init, load_or_create_index.
  intros [-> | ->]; repeat split.
Qed.

(** The guard that exists: [texts] against [embeddings]. *)
Lemma add_documents_length_guard
      m texts embeddings languages filenames chunk_indices :
  List.length texts <> List.length (Faiss.rows embeddings) ->
  add_documents m texts embeddings languages filenames chunk_indices
  = (inl ValueError, m).
Proof.
  intros H. unfold add_documents.
  apply Nat.eqb_neq in H. now rewrite H.
Qed.

(** C2: a call of [add_documents] that raises, whether at the length
    guard, at a row insert or at the vector append, leaves the metadata
    table and the vector index as they were before the call: the rows
    inserted for the batch are rolled back and no vector of the batch is
    in the index, so both counts are the counts from before. *)
Theorem add_documents_all_or_nothing
        (m m' : manager) (texts : list str) (embeddings : Faiss.ndarray)
        (languages filenames : list str) (chunk_indices : list Z) (e : exn) :
  add_documents m texts embeddings languages filenames chunk_indices
  = (inl e, m') ->
  documents m' = documents m /\
  index m' = index m /\
  Sqlite.count (documents m') = Sqlite.count (documents m) /\
  Faiss.ntotal (index m') = Faiss.ntotal (index m).
Proof.
  intros H. apply add_documents_raised in H as [-> ->]. repeat split.
Qed.

Lemma add_documents_all_or_nothing_witness :
  fst Inputs.wide_call = inl AssertionError /\
  documents (snd Inputs.wide_call) = documents (fresh 2) /\
  index (snd Inputs.wide_call) = index (fresh 2) /\
  Sqlite.count (documents (snd Inputs.wide_call))
  = Sqlite.count (documents (fresh 2)) /\
  Faiss.ntotal (index (snd Inputs.wide_call)) = Faiss.ntotal (index (fresh 2)).
Proof.
  split; [reflexivity|].
  apply (add_documents_all_or_nothing
           (fresh 2) (snd Inputs.wide_call)
           Inputs.three_texts Inputs.wide_embeddings Inputs.three_languages
           Inputs.three_filenames Inputs.three_indices AssertionError).
  reflexivity.
Defined.

(** In [Inputs.wide_call] the three rows are in the open transaction
    when the vector append raises. *)
Lemma wide_call_rows_pending :
  exists s,
    insert_loop (zip4 Inputs.three_texts Inputs.three_languages
                      Inputs.three_filenames Inputs.three_indices)
                {| a_counter := 0; a_doc_ids := [];
                   a_conn := Sqlite.connect [] |} = (None, s) /\
    map Sqlite.id (Sqlite.pending (a_conn s)) = [1; 2; 3] /\
    Faiss.add (index (fresh 2)) Inputs.wide_embeddings = inl AssertionError.
Proof. eexists. repeat split. Qed.

(** C1: [texts] of length 3 with [languages] of length 2 (and three
    embeddings) is accepted: the call returns two doc ids, two rows are
    committed and three vectors are appended. *)
Theorem add_documents_accepts_short_languages :
  List.length Inputs.three_texts = 3%nat /\
  List.length Inputs.two_languages = 2%nat /\
  get_stats (fresh 2) = (0, 0, 2) /\
  fst Inputs.short_languages_call
  = inr [of_string "doc_1"; of_string "doc_2"] /\
  get_stats (snd Inputs.short_languages_call) = (2, 3, 2).
Proof. repeat split. Qed.

(** C3: after the call with the short [languages] has returned, the
    table holds two rows and the index three vectors; the vector at
    position 2 has no row with id 3.  After a call that failed and was
    rolled back, the counter stays advanced: the next document gets id 2
    for the vector at position 0, so the counts agree but ids and
    positions do not, and [search] finds no row for that vector. *)
Theorem stores_diverge :
  get_stats (snd Inputs.short_languages_call) = (2, 3, 2) /\
  nth_error (Faiss.xb (index (snd Inputs.short_languages_call))) 2
  = Some [1; 1] /\
  Sqlite.select_by_id (documents (snd Inputs.short_languages_call)) 3 = None /\
  fst Inputs.failed_call = inl AssertionError /\
  fst Inputs.call_after_failure = inr [of_string "doc_2"] /\
  get_stats (snd Inputs.call_after_failure) = (1, 1, 2) /\
  map Sqlite.id (documents (snd Inputs.call_after_failure)) = [2] /\
  nth_error (Faiss.xb (index (snd Inputs.call_after_failure))) 1 = None /\
  Sqlite.select_by_id (documents (snd Inputs.call_after_failure)) 1 = None /\
  search (snd Inputs.call_after_failure) [3; 4] 1 = inr [].
Proof. repeat split. Qed.

(** C6: the counter lives in the manager object.  A manager built on
    storage that holds three rows but no index file starts at 0 although
    the largest id on disk is 3, and the next [add_documents] tries id 1
    and raises [IntegrityError].  After a call that was rolled back the
    counter is ahead of the table: the first row stored gets id 2,
    not 1. *)
Theorem counter_not_recovered :
  Sqlite.max_id (documents (restart Inputs.three_docs)) = Some 3 /\
  index_file (storage (restart Inputs.three_docs)) = None /\
  doc_counter (restart Inputs.three_docs) = 0 /\
  fst Inputs.call_after_restart = inl IntegrityError /\
  documents (snd Inputs.failed_call) = [] /\
  doc_counter (snd Inputs.failed_call) = 1 /\
  fst Inputs.call_after_failure = inr [of_string "doc_2"] /\
  map Sqlite.id (documents (snd Inputs.call_after_failure)) = [2].
Proof. repeat split. Qed.

End ManagerProps.

(** * More properties of the chunker *)

Module ChunkerMore.
Import Py PyStr PyFloat Chunker ChunkerSpec WindowSpec ChunkerProps.

(** *** Lengths of slices and stripped strings *)

Lemma slice_length (s : str) (start stop : Z) :
  start <= stop -> len (slice s start stop) <= stop - start.
Proof.
  intros H. unfold slice, adjust_index, len.
  rewrite length_firstn, length_skipn.
  destruct (Z.ltb_spec start 0); destruct (Z.ltb_spec stop 0); lia.
Qed.

Lemma lstrip_length (s : str) : (List.length (lstrip s) <= List.length s)%nat.
Proof.
  induction s as [|c s IH]; simpl; [lia|].
  destruct (isspace c); simpl; lia.
Qed.

Lemma strip_length (s : str) : len (strip s) <= len s.
Proof.
  unfold len, strip, rstrip.
  rewrite length_rev.
  pose proof (lstrip_length (rev (lstrip s))) as H1.
  rewrite length_rev in H1.
  pose proof (lstrip_length s). lia.
Qed.

(** *** Pieces of a text *)

Lemma piece_of_refl (s : str) : piece_of s s.
Proof. exists [], []. now rewrite app_nil_r. Qed.

Lemma piece_of_trans (a b c : str) : piece_of a b -> piece_of b c -> piece_of a c.
Proof.
  intros [p1 [q1 ->]] [p2 [q2 ->]].
  exists (p2 ++ p1), (q1 ++ q2). now rewrite <- !app_assoc.
Qed.

Lemma slice_piece (s : str) (start stop : Z) : piece_of (slice s start stop) s.
Proof.
  unfold slice.
  set (a := Z.to_nat (adjust_index start (len s))).
  set (n := Z.to_nat (adjust_index stop (len s) - adjust_index start (len s))).
  exists (firstn a s), (skipn n (skipn a s)).
  now rewrite firstn_skipn, firstn_skipn.
Qed.

Lemma lstrip_suffix (s : str) : exists before, s = before ++ lstrip s.
Proof.
  induction s as [|c s [before IH]]; [now exists []|].
  simpl. destruct (isspace c).
  - exists (c :: before). simpl. now rewrite <- IH.
  - now exists [].
Qed.

Lemma strip_piece (s : str) : piece_of (strip s) s.
Proof.
  unfold strip, rstrip.
  destruct (lstrip_suffix s) as [before Hs].
  destruct (lstrip_suffix (rev (lstrip s))) as [after Hr].
  exists before, (rev after).
  rewrite <- rev_app_distr, <- Hr, rev_involutive. exact Hs.
Qed.

(** *** What holds of every chunk the loop collects *)

Lemma loop_step_Forall (P : str -> Prop) text max_size overlap :
  (forall start end_,
     start < len text ->
     cut_point text max_size start = inr end_ ->
     P (strip (slice text start end_))) ->
  forall s s',
    loop_step text max_size overlap s = Continue s' ->
    Forall P (st_chunks s) -> Forall P (st_chunks s').
Proof.
  intros HP s s'. unfold loop_step.
  destruct (Z.ltb_spec (st_start s) (len text)) as [Hlt|]; [|discriminate].
  destruct (cut_point text max_size (st_start s)) as [e|end_] eqn:Hcut;
    [discriminate|].
  intros [= <-] Hs. simpl.
  destruct (truthy _); [|exact Hs].
  apply Forall_app. split; [exact Hs|].
  constructor; [|constructor]. now apply HP.
Qed.

Lemma chunk_loop_Forall (P : str -> Prop) text max_size overlap :
  (forall start end_,
     start < len text ->
     cut_point text max_size start = inr end_ ->
     P (strip (slice text start end_))) ->
  forall fuel s chunks,
    chunk_loop fuel text max_size overlap s = Some (inr chunks) ->
    Forall P (st_chunks s) -> Forall P chunks.
Proof.
  intros HP. induction fuel as [|fuel IH]; simpl; intros s chunks H Hs;
    [discriminate|].
  destruct (loop_step text max_size overlap s) as [s'|c|e] eqn:E.
  - apply (IH s'); [exact H|]. eapply loop_step_Forall; eassumption.
  - injection H as <-. apply loop_step_return in E. now subst.
  - discriminate.
Qed.

(** X3: every chunk [chunk_text] returns is a run of consecutive
    characters of the text. *)
Theorem chunks_are_pieces
        (fuel : nat) (text : str) (max_size overlap : Z) (chunks : list str) :
  chunk_text fuel text max_size overlap = Some (inr chunks) ->
  Forall (fun c => piece_of c text) chunks.
Proof.
  unfold chunk_text. destruct (len text <=? max_size).
  - intros [= <-]. constructor; [apply piece_of_refl | constructor].
  - intros H. eapply chunk_loop_Forall; [|exact H|constructor].
    intros start end_ _ _.
    eapply piece_of_trans; [apply strip_piece | apply slice_piece].
Qed.

Lemma chunks_are_pieces_witness :
  Forall (fun c => piece_of c Inputs.prose)
         [of_string "Take two tablets."; of_string "lets. Rest a while.";
          of_string "hile.  Then call the"; of_string "l the nurse"].
Proof.
  apply (chunks_are_pieces 10 Inputs.prose 20 5). reflexivity.
Defined.

(** *** No chunk is longer than [max_size] *)

Lemma binary_round_aux_sign (sx : bool) (mx ex : Z) (lx : location) :
  match binary_round_aux prec emax sx mx ex lx with
  | S754_zero s | S754_infinity s | S754_finite s _ _ => s = sx
  | S754_nan => True
  end.
Proof.
  unfold binary_round_aux.
  destruct (shr_fexp prec emax mx ex lx) as [mrs' e'].
  destruct (shr_fexp prec emax _ e' loc_Exact) as [mrs'' e''].
  destruct (shr_m mrs''); try exact I; [reflexivity|].
  destruct (e'' <=? emax - prec); reflexivity.
Qed.

Lemma int_gt_float_positive (f : spec_float) (z : Z) :
  match f with
  | S754_zero _ | S754_nan => True
  | S754_infinity s | S754_finite s _ _ => s = false
  end ->
  int_gt_float z f = true -> 0 < z.
Proof.
  destruct f as [s|s| |s m e]; simpl; try discriminate.
  - intros _. apply Z.ltb_lt.
  - intros ->. discriminate.
  - intros ->. unfold cond_Zopp.
    destruct e as [|p|p]; rewrite Z.ltb_lt; lia.
Qed.

(** For a size that is not negative, the product with a positive
    literal is not negative: an index above it is positive. *)
Lemma threshold_positive (size z : Z) (f : spec_float) (m : positive) (e : Z) :
  0 <= size ->
  float_of_int size = Some f ->
  int_gt_float z (mul f (S754_finite false m e)) = true ->
  0 < z.
Proof.
  intros Hsize Hf. apply int_gt_float_positive.
  unfold float_of_int, binary_normalize in Hf.
  destruct size as [|p|p]; [| |lia].
  - injection Hf as <-. exact I.
  - unfold binary_round in Hf.
    destruct (shl_align _ _ _) as [mz ez].
    pose proof (binary_round_aux_sign false (Z.pos mz) ez loc_Exact) as Hs.
    destruct (binary_round_aux prec emax false (Z.pos mz) ez loc_Exact)
      as [s|s| |s m' e']; try discriminate; injection Hf as <-.
    + exact I.
    + exact I.
    + subst s. unfold mul, SFmul. cbn [xorb].
      pose proof (binary_round_aux_sign false (Z.pos (m' * m)) (e' + e)
                                        loc_Exact) as Hs'.
      destruct (binary_round_aux prec emax false (Z.pos (m' * m)) (e' + e)
                                 loc_Exact); auto.
Qed.

Lemma delimiters_nonempty (d : str) : In d delimiters -> d <> [].
Proof.
  intros H E. subst d. simpl in H.
  repeat (destruct H as [H|H]; [discriminate|]). exact H.
Qed.

Lemma rfind_range (w sub : str) :
  sub <> [] -> -1 <= rfind w sub /\ rfind w sub + 1 <= len w.
Proof.
  intros Hsub.
  destruct (rfind_last_occurrence w sub) as [[-> _]|[[Hr Hocc] _]].
  - unfold len. lia.
  - assert (Hlen : (List.length sub
                    <= List.length (skipn (Z.to_nat (rfind w sub)) w))%nat).
    { rewrite <- Hocc at 1. rewrite length_firstn. lia. }
    rewrite length_skipn in Hlen.
    destruct sub as [|c sub]; [congruence|]. simpl in Hlen.
    unfold len in *. lia.
Qed.

Lemma scan_delimiters_inv text max_size start end_ ds r :
  scan_delimiters text max_size start end_ ds = inr r ->
  r = end_ \/
  exists d,
    In d ds /\
    r = start + rfind (slice text start end_) d + 1 /\
    beyond_threshold max_size (rfind (slice text start end_) d) = inr true.
Proof.
  induction ds as [|d ds IH]; simpl; intros H.
  - left. now injection H.
  - destruct (beyond_threshold max_size _) as [e|[|]] eqn:E; [discriminate| |].
    + right. exists d. split; [now left|]. split; [now injection H|exact E].
    + destruct (IH H) as [->|[d' [Hin Hd']]]; [now left|].
      right. exists d'. split; [now right | exact Hd'].
Qed.

(** The cut point lies in the window: after its start and not after its
    hard end. *)
Lemma cut_point_range text max_size start end_ :
  0 <= max_size ->
  cut_point text max_size start = inr end_ ->
  start <= end_ <= start + max_size.
Proof.
  intros Hmax. unfold cut_point.
  destruct (start + max_size <? len text); [|intros [= <-]; lia].
  intros H. apply scan_delimiters_inv in H as [->|[d [Hin [-> Hacc]]]]; [lia|].
  unfold beyond_threshold in Hacc.
  destruct (float_of_int max_size) as [f|] eqn:Hf; [|discriminate].
  injection Hacc as Hacc.
  apply (threshold_positive max_size _ f _ _ Hmax Hf) in Hacc.
  destruct (rfind_range (slice text start (start + max_size)) d
                        (delimiters_nonempty d Hin)) as [_ Hr].
  pose proof (slice_length text start (start + max_size)). lia.
Qed.

(** X2: with [max_size >= 0], no chunk [chunk_text] returns is longer
    than [max_size], on the short path and on the multi-window path, with
    or without a sentence cut. *)
Theorem chunks_fit_max_size
        (fuel : nat) (text : str) (max_size overlap : Z) (chunks : list str) :
  0 <= max_size ->
  chunk_text fuel text max_size overlap = Some (inr chunks) ->
  Forall (fun c => len c <= max_size) chunks.
Proof.
  intros Hmax. unfold chunk_text.
  destruct (Z.leb_spec (len text) max_size) as [Hshort|Hlong].
  - intros [= <-]. constructor; [exact Hshort | constructor].
  - intros H. eapply chunk_loop_Forall; [|exact H|constructor].
    intros start end_ _ Hcut.
    apply cut_point_range in Hcut; [|exact Hmax].
    pose proof (strip_length (slice text start end_)).
    pose proof (slice_length text start end_). lia.
Qed.

Lemma chunks_fit_max_size_witness :
  Forall (fun c => len c <= 20)
         [of_string "Take two tablets."; of_string "lets. Rest a while.";
          of_string "hile.  Then call the"; of_string "l the nurse"].
Proof.
  apply (chunks_fit_max_size 10 Inputs.prose 20 5); [lia | reflexivity].
Defined.

(** *** The windows cover the text *)

Lemma loop_step_continue text max_size overlap s s' :
  loop_step text max_size overlap s = Continue s' ->
  exists end_,
    st_start s < len text /\
    cut_point text max_size (st_start s) = inr end_ /\
    st_start s' = (if end_ <? len text then end_ - overlap else end_) /\
    st_chunks s'
    = st_chunks s
      ++ filter truthy [window_chunk text (st_start s, end_)].
Proof.
  unfold loop_step.
  destruct (Z.ltb_spec (st_start s) (len text)) as [Hlt|]; [|discriminate].
  destruct (cut_point text max_size (st_start s)) as [e|end_]; [discriminate|].
  intros [= <-]. exists end_. repeat split; [exact Hlt|]. simpl.
  unfold window_chunk. simpl.
  destruct (truthy _); [reflexivity | now rewrite app_nil_r].
Qed.

Lemma windows_from_state text max_size overlap :
  0 <= overlap < max_size ->
  beyond_threshold max_size (overlap - 1) = inr false ->
  forall fuel s,
    (Z.to_nat (len text - st_start s) < fuel)%nat ->
    chunk_loop fuel text max_size overlap s
    = Some (inr (st_chunks s
                 ++ chunks_of_windows text
                      (windows_visited fuel text max_size overlap s))) /\
    forall p,
      st_start s <= p < len text ->
      exists w,
        In w (windows_visited fuel text max_size overlap s) /\
        st_start s <= fst w <= p /\ p < snd w.
Proof.
  intros Hov Hthr.
  induction fuel as [|fuel IH]; intros s Hfuel; [lia|].
  cbn [chunk_loop windows_visited].
  destruct (loop_step text max_size overlap s) as [s'|c|e] eqn:E.
  - pose proof (loop_step_advances _ _ _ _ _ Hov Hthr E) as Hadv.
    destruct (loop_step_continue _ _ _ _ _ E) as [end_ [Hlt [Hcut [Hs' Hc']]]].
    rewrite Hcut.
    destruct (IH s') as [Hloop Hcover]; [lia|].
    split.
    + rewrite Hloop, Hc', <- app_assoc. unfold chunks_of_windows.
      cbn [map filter app].
      now destruct (truthy (window_chunk text (st_start s, end_))).
    + intros p Hp.
      destruct (Z_lt_ge_dec p end_) as [Hin|Hout].
      * exists (st_start s, end_). split; [now left|]. simpl. lia.
      * destruct (Hcover p) as [w [Hw Hb]].
        { destruct (end_ <? len text); lia. }
        exists w. split; [now right | lia].
  - split.
    + apply loop_step_return in E. subst c.
      unfold chunks_of_windows. simpl. now rewrite app_nil_r.
    + intros p Hp. exfalso. unfold loop_step in E.
      destruct (Z.ltb_spec (st_start s) (len text)); [|lia].
      destruct (cut_point text max_size (st_start s)); discriminate.
  - exfalso. unfold beyond_threshold in Hthr.
    destruct (float_of_int max_size) as [f|] eqn:Hf; [|discriminate].
    exact (loop_step_no_raise _ _ _ _ _ _ Hf E).
Qed.

(** X4: where the loop makes progress ([max_size > overlap >= 0] and no
    terminator below index [overlap] is accepted), a text longer than
    [max_size] is cut into windows that leave no gap: every position of
    the text lies in some window, and the chunks returned are exactly
    the stripped windows, in order, without the blank ones. *)
Theorem windows_cover_text (text : str) (max_size overlap : Z) :
  0 <= overlap < max_size ->
  beyond_threshold max_size (overlap - 1) = inr false ->
  max_size < len text ->
  let ws := windows_visited (S (List.length text)) text max_size overlap
                            initial in
  chunk_text (S (List.length text)) text max_size overlap
  = Some (inr (chunks_of_windows text ws)) /\
  forall p,
    0 <= p < len text ->
    exists w, In w ws /\ 0 <= fst w <= p /\ p < snd w.
Proof.
  intros Hov Hthr Hlong ws.
  destruct (windows_from_state text max_size overlap Hov Hthr
                               (S (List.length text)) initial)
    as [Hloop Hcover].
  { simpl. unfold len. lia. }
  split.
  - unfold chunk_text.
    destruct (Z.leb_spec (len text) max_size); [lia|]. exact Hloop.
  - exact Hcover.
Qed.

Lemma windows_cover_text_witness :
  windows_visited (S (List.length Inputs.prose)) Inputs.prose 20 5 initial
  = [(0, 17); (12, 31); (26, 46); (41, 61)] /\
  chunk_text (S (List.length Inputs.prose)) Inputs.prose 20 5
  = Some (inr (chunks_of_windows Inputs.prose
                                 [(0, 17); (12, 31); (26, 46); (41, 61)])) /\
  forall p,
    0 <= p < len Inputs.prose ->
    exists w, In w [(0, 17); (12, 31); (26, 46); (41, 61)] /\
              0 <= fst w <= p /\ p < snd w.
Proof.
  split; [reflexivity|].
  apply (windows_cover_text Inputs.prose 20 5); [lia | reflexivity | reflexivity].
Defined.

(** *** No character is lost *)

Lemma lstrip_keeps (c : char) (s : str) :
  In c s -> isspace c = false -> In c (lstrip s).
Proof.
  intros Hin Hc. induction s as [|d s IH]; [destruct Hin|].
  cbn [lstrip]. destruct (isspace d) eqn:Hd; [|exact Hin].
  destruct Hin as [->|Hin]; [congruence|]. now apply IH.
Qed.

Lemma strip_keeps (c : char) (s : str) :
  In c s -> isspace c = false -> In c (strip s).
Proof.
  intros Hin Hc. unfold strip, rstrip.
  apply in_rev. rewrite rev_involutive.
  apply lstrip_keeps; [|exact Hc].
  apply -> in_rev. now apply lstrip_keeps.
Qed.

Lemma lstrip_head (s : str) (c : char) (r : str) :
  lstrip s = c :: r -> isspace c = false.
Proof.
  induction s as [|d s IH]; cbn [lstrip]; [discriminate|].
  destruct (isspace d) eqn:Hd; [exact IH|]. now intros [= <- _].
Qed.

(** A text that is not blank holds a character that is no white space. *)
Lemma not_blank (s : str) :
  truthy (strip s) = true -> exists c, In c s /\ isspace c = false.
Proof.
  intros Ht.
  destruct (lstrip (rev (lstrip s))) as [|c r] eqn:E.
  - unfold strip, rstrip in Ht. now rewrite E in Ht.
  - exists c. split; [|exact (lstrip_head _ _ _ E)].
    assert (Hin : In c (strip s)).
    { unfold strip, rstrip. rewrite E. apply -> in_rev. now left. }
    destruct (strip_piece s) as [before [after Hs]].
    rewrite Hs. apply in_or_app. right. apply in_or_app. now left.
Qed.

Lemma slice_holds (s : str) (a b p : Z) (c : char) :
  0 <= a <= p -> p < b ->
  nth_error s (Z.to_nat p) = Some c ->
  In c (slice s a b).
Proof.
  intros Ha Hb Hnth.
  pose proof (proj1 (nth_error_Some s (Z.to_nat p)) ltac:(congruence))
    as Hlt.
  unfold slice, adjust_index, len.
  destruct (Z.ltb_spec a 0); [lia|]. destruct (Z.ltb_spec b 0); [lia|].
  rewrite (Z.min_l a) by lia.
  apply (nth_error_In _ (Z.to_nat p - Z.to_nat a)).
  rewrite nth_error_firstn.
  destruct (Nat.ltb_spec (Z.to_nat p - Z.to_nat a)
              (Z.to_nat (Z.min b (Z.of_nat (List.length s)) - a)));
    [|lia].
  rewrite nth_error_skipn. rewrite <- Hnth. f_equal. lia.
Qed.

(** The chunks of a text that is not blank, where the loop makes
    progress: they are returned, none is missing for a character that
    is no white space, and so there is at least one. *)
Lemma chunk_text_covers fuel text max_size overlap :
  0 <= overlap < max_size ->
  beyond_threshold max_size (overlap - 1) = inr false ->
  (List.length text < fuel)%nat ->
  exists chunks,
    chunk_text fuel text max_size overlap = Some (inr chunks) /\
    forall p c,
      nth_error text p = Some c -> isspace c = false ->
      exists chunk, In chunk chunks /\ In c chunk.
Proof.
  intros Hov Hthr Hfuel. unfold chunk_text.
  destruct (len text <=? max_size).
  - exists [text]. split; [reflexivity|]. intros p c Hnth _.
    exists text. split; [now left|]. now apply nth_error_In in Hnth.
  - destruct (windows_from_state text max_size overlap Hov Hthr fuel
                {| st_start := 0; st_chunks := [] |})
      as [Hloop Hcover].
    { simpl. unfold len. lia. }
    cbn [st_start st_chunks app] in Hloop, Hcover.
    eexists. split; [exact Hloop|]. intros p c Hnth Hc.
    pose proof (proj1 (nth_error_Some text p) ltac:(congruence)) as Hlt.
    destruct (Hcover (Z.of_nat p)) as [w [Hw [Hfst Hsnd]]];
      [unfold len; lia|].
    exists (window_chunk text w).
    assert (Hin : In c (window_chunk text w)).
    { unfold window_chunk. apply strip_keeps; [|exact Hc].
      apply (slice_holds text (fst w) (snd w) (Z.of_nat p));
        [lia | lia |]. now rewrite Nat2Z.id. }
    split; [|exact Hin].
    unfold chunks_of_windows. apply filter_In. split.
    + now apply in_map.
    + now destruct (window_chunk text w).
Qed.



Lemma chunk_loop_count text max_size overlap :
  forall fuel s chunks,
    chunk_loop fuel text max_size overlap s = Some (inr chunks) ->
    (List.length chunks <= List.length (st_chunks s) + fuel)%nat.
Proof.
  induction fuel as [|fuel IH]; intros s chunks H; simpl in H;
    [discriminate|].
  destruct (loop_step text max_size overlap s) as [s'|c|e] eqn:E.
  - apply IH in H.
    destruct (loop_step_continue _ _ _ _ _ E) as [end_ [_ [_ [_ Hc]]]].
    rewrite Hc, length_app in H. cbn [filter] in H.
    destruct (truthy _) in H; simpl in H; lia.
  - injection H as <-. apply loop_step_return in E. subst c. lia.
  - discriminate.
Qed.

(** *** No exception *)

Lemma chunk_loop_no_raise text max_size overlap f e :
  float_of_int max_size = Some f ->
  forall fuel s, chunk_loop fuel text max_size overlap s <> Some (inl e).
Proof.
  intros Hf. induction fuel as [|fuel IH]; intros s; simpl; [discriminate|].
  destruct (loop_step text max_size overlap s) as [s'|c|e'] eqn:E.
  - apply IH.
  - discriminate.
  - exfalso. exact (loop_step_no_raise _ _ _ _ _ _ Hf E).
Qed.

(** X23: for a [max_size] of magnitude below 2^1023 [chunk_text] raises
    nothing, on any text, with any overlap, however long it runs: the
    only exception of its body, the [OverflowError] of
    [max_size * 0.6], needs a larger [max_size]. *)
Theorem chunk_text_never_raises
        (fuel : nat) (text : str) (max_size overlap : Z) (e : exn) :
  Z.abs max_size < 2 ^ 1023 ->
  chunk_text fuel text max_size overlap <> Some (inl e).
Proof.
  intros Hm. destruct (float_of_int_defined max_size Hm) as [f Hf].
  unfold chunk_text. destruct (len text <=? max_size); [discriminate|].
  now apply (chunk_loop_no_raise text max_size overlap f).
Qed.

Lemma chunk_text_never_raises_witness :
  chunk_text 5 Inputs.looping_text 10 8 <> Some (inl OverflowError).
Proof.
  apply (chunk_text_never_raises 5 Inputs.looping_text 10 8 OverflowError).
  reflexivity.
Defined.

End ChunkerMore.

(** * More properties of the index manager *)

Module ManagerMore.
Import Py PyStr FaissIndexManager ManagerSpec TableSpec ManagerProps.

(** *** What a batch leaves in the table *)

Lemma insert_loop_rows items :
  forall s s',
    insert_loop items s = (None, s') ->
    Sqlite.pending (a_conn s')
    = Sqlite.pending (a_conn s) ++ rows_from (a_counter s + 1) items /\
    a_doc_ids s'
    = a_doc_ids s ++ map Sqlite.doc_id (rows_from (a_counter s + 1) items) /\
    Forall (fun r => ~ In (Sqlite.id r)
                          (map Sqlite.id (Sqlite.visible (a_conn s))))
           (rows_from (a_counter s + 1) items).
Proof.
  induction items as [|[[[text lang] fname] chunk_idx] items IH];
    intros s s' H; simpl in H.
  - injection H as <-. simpl. rewrite !app_nil_r. repeat split. constructor.
  - destruct (Sqlite.insert _ _) as [e|conn] eqn:E; [discriminate|].
    pose proof (insert_pending _ _ _ E) as Hpen.
    pose proof (insert_committed _ _ _ E) as Hcom.
    pose proof (insert_fresh_id _ _ _ E) as Hfresh.
    apply IH in H. cbn [a_counter a_doc_ids a_conn] in H.
    destruct H as [Hp [Hd Hnew]].
    cbn [rows_from row_of map].
    split; [rewrite Hp, Hpen, <- app_assoc; reflexivity|].
    split; [rewrite Hd, <- app_assoc; reflexivity|].
    constructor; [exact Hfresh|].
    eapply Forall_impl; [|exact Hnew]. cbn beta. intros r Hr Hin.
    apply Hr. unfold Sqlite.visible in *. rewrite Hcom, Hpen.
    rewrite app_assoc, map_app. apply in_or_app. now left.
Qed.

Lemma find_app {A} (f : A -> bool) (l1 l2 : list A) :
  find f (l1 ++ l2)
  = match find f l1 with Some x => Some x | None => find f l2 end.
Proof.
  induction l1 as [|x l1 IH]; simpl; [reflexivity|].
  now destruct (f x).
Qed.

Lemma select_absent (t : Sqlite.table) (k : Z) :
  ~ In k (map Sqlite.id t) -> Sqlite.select_by_id t k = None.
Proof.
  unfold Sqlite.select_by_id. intros H.
  destruct (find _ t) as [r|] eqn:E; [|reflexivity].
  apply find_some in E as [Hin Hid]. apply Z.eqb_eq in Hid.
  exfalso. apply H. rewrite <- Hid. now apply in_map.
Qed.

Lemma select_rows_from items :
  forall first i item,
    nth_error items i = Some item ->
    Sqlite.select_by_id (rows_from first items) (first + Z.of_nat i)
    = Some (row_of (first + Z.of_nat i) item).
Proof.
  unfold Sqlite.select_by_id.
  induction items as [|item0 items IH]; intros first i item Hi;
    [now destruct i|].
  cbn [rows_from find].
  assert (Hid : Sqlite.id (row_of first item0) = first)
    by (now destruct item0 as [[[? ?] ?] ?]).
  rewrite Hid. destruct i as [|i].
  - simpl in Hi. injection Hi as ->.
    rewrite Z.add_0_r, Z.eqb_refl. reflexivity.
  - destruct (Z.eqb_spec first (first + Z.of_nat (S i))); [lia|].
    simpl in Hi.
    replace (first + Z.of_nat (S i)) with (first + 1 + Z.of_nat i) by lia.
    exact (IH (first + 1) i item Hi).
Qed.

Lemma zip4_In texts languages filenames chunk_indices :
  forall t l f c,
    In (t, l, f, c) (zip4 texts languages filenames chunk_indices) ->
    In t texts /\ In l languages /\ In f filenames /\ In c chunk_indices.
Proof.
  revert languages filenames chunk_indices.
  induction texts as [|t0 texts IH];
    intros [|l0 languages] [|f0 filenames] [|c0 chunk_indices] t l f c;
    simpl; try tauto.
  intros [[= -> -> -> ->]|H]; [repeat split; now left|].
  apply IH in H as [? [? [? ?]]]. repeat split; now right.
Qed.

Lemma rows_from_In items :
  forall first r,
    In r (rows_from first items) ->
    exists t l f c,
      In (t, l, f, c) items /\
      Sqlite.text r = t /\ Sqlite.language r = l /\
      Sqlite.filename r = f /\ Sqlite.chunk_index r = c.
Proof.
  induction items as [|[[[t l] f] c] items IH]; intros first r; simpl;
    [intros []|].
  intros [<-|H].
  - exists t, l, f, c. repeat split. now left.
  - apply IH in H as [t' [l' [f' [c' [Hin H]]]]].
    exists t', l', f', c'. split; [now right | exact H].
Qed.

Lemma rows_from_length items :
  forall first, List.length (rows_from first items) = List.length items.
Proof.
  induction items as [|item items IH]; intros first; simpl;
    [reflexivity|]. now rewrite IH.
Qed.

(** The rows a returning call appends. *)
Lemma add_documents_rows
      m texts embeddings languages filenames chunk_indices ids m' :
  add_documents m texts embeddings languages filenames chunk_indices
  = (inr ids, m') ->
  documents m'
  = documents m
    ++ rows_from (doc_counter m + 1)
                 (zip4 texts languages filenames chunk_indices).
Proof.
  intros H. unfold add_documents in H.
  destruct (negb _); [discriminate|].
  destruct (insert_loop _ _) as [[e|] s] eqn:Hloop; [discriminate|].
  destruct (Faiss.add (index m) embeddings) as [e|index']; [discriminate|].
  injection H as _ Hm.
  pose proof (insert_loop_committed _ _ _ _ Hloop) as Hcom.
  apply insert_loop_rows in Hloop.
  cbn [a_counter a_doc_ids a_conn Sqlite.connect Sqlite.pending
       Sqlite.committed] in Hloop, Hcom.
  destruct Hloop as [Hp _].
  rewrite <- Hm. unfold documents at 1. simpl. unfold Sqlite.visible.
  now rewrite Hcom, Hp.
Qed.

(** X6: after a call of [add_documents] that returns, whatever the
    state before, the table is the old table followed by one row per
    zipped element, the doc ids returned are the doc ids of those rows,
    and the lookup [search] makes, by id, finds for the [i]-th element
    the row that holds its text, language, filename and chunk index. *)
Theorem added_rows_can_be_looked_up
        (m m' : manager) (texts : list str) (embeddings : Faiss.ndarray)
        (languages filenames : list str) (chunk_indices : list Z)
        (ids : list str) :
  add_documents m texts embeddings languages filenames chunk_indices
  = (inr ids, m') ->
  let items := zip4 texts languages filenames chunk_indices in
  let first := doc_counter m + 1 in
  documents m' = documents m ++ rows_from first items /\
  ids = map Sqlite.doc_id (rows_from first items) /\
  forall i item,
    nth_error items i = Some item ->
    Sqlite.select_by_id (documents m') (first + Z.of_nat i)
    = Some (row_of (first + Z.of_nat i) item).
Proof.
  intros H items first. unfold add_documents in H.
  destruct (negb _); [discriminate|].
  destruct (insert_loop _ _) as [[e|] s] eqn:Hloop; [discriminate|].
  destruct (Faiss.add (index m) embeddings) as [e|index']; [discriminate|].
  injection H as Hids Hm.
  pose proof (insert_loop_committed _ _ _ _ Hloop) as Hcom.
  apply insert_loop_rows in Hloop.
  cbn [a_counter a_doc_ids a_conn Sqlite.connect Sqlite.pending
       Sqlite.committed] in Hloop, Hcom.
  destruct Hloop as [Hp [Hd Hfresh]]. rewrite Hids in Hd.
  assert (Hdocs : documents m' = documents m ++ rows_from first items).
  { rewrite <- Hm. unfold documents at 1. simpl. unfold Sqlite.visible.
    now rewrite Hcom, Hp. }
  split; [exact Hdocs|]. split; [exact Hd|].
  intros i item Hi. rewrite Hdocs.
  unfold Sqlite.select_by_id. rewrite find_app.
  fold (Sqlite.select_by_id (documents m) (first + Z.of_nat i)).
  rewrite select_absent.
  - now apply select_rows_from.
  - unfold Sqlite.visible in Hfresh. simpl in Hfresh.
    rewrite app_nil_r in Hfresh.
    assert (Hin : In (row_of (first + Z.of_nat i) item)
                     (rows_from first items)).
    { pose proof (select_rows_from items first i item Hi) as Hsel.
      unfold Sqlite.select_by_id in Hsel.
      now apply find_some in Hsel as [Hin _]. }
    pose proof (proj1 (Forall_forall _ _) Hfresh _ Hin) as Hf.
    now destruct item as [[[? ?] ?] ?].
Qed.

Lemma added_rows_can_be_looked_up_witness :
  Sqlite.select_by_id (documents Inputs.three_docs) 3
  = Some (row_of 3 (of_string "Text 3", of_string "ja",
                    of_string "file2.txt", 0)).
Proof.
  apply (proj2 (proj2 (added_rows_can_be_looked_up
                         (fresh 2) Inputs.three_docs
                         Inputs.three_texts Inputs.three_embeddings
                         Inputs.three_languages Inputs.three_filenames
                         Inputs.three_indices
                         [of_string "doc_1"; of_string "doc_2";
                          of_string "doc_3"] eq_refl)) 2%nat).
  reflexivity.
Defined.


(** *** The hits of a lookup on a consistent manager *)






Lemma ids_from_NoDup n : forall first, NoDup (ids_from first n).
Proof.
  induction n as [|n IH]; intros first; simpl; constructor; [|apply IH].
  intros Hin. apply ids_from_bounds in Hin. lia.
Qed.

Lemma firstn_In {A} (n : nat) (l : list A) (x : A) :
  In x (firstn n l) -> In x l.
Proof.
  revert l. induction n as [|n IH]; intros [|a l]; simpl; try tauto.
  intros [->|H]; [now left | right; now apply IH].
Qed.




Lemma NoDup_map_inj {A B} (f : A -> B) (l : list A) :
  (forall a b, f a = f b -> a = b) -> NoDup l -> NoDup (map f l).
Proof.
  intros Hf. induction 1 as [|a l Ha Hl IH]; simpl; constructor; [|exact IH].
  intros Hin. apply in_map_iff in Hin as [b [Hb Hin]].
  apply Hf in Hb. now subst.
Qed.




(** *** Persist and restart *)

Lemma max_id_numbered rows :
  forall first,
    map Sqlite.id rows = ids_from first (List.length rows) ->
    rows <> [] ->
    Sqlite.max_id rows = Some (first + Z.of_nat (List.length rows) - 1).
Proof.
  induction rows as [|r rows IH]; intros first Hids Hne; [congruence|].
  cbn [map List.length ids_from] in Hids. injection Hids as Hr Hrest.
  cbn [Sqlite.max_id]. destruct rows as [|r' rows'].
  - simpl. rewrite Hr. f_equal. lia.
  - rewrite (IH (first + 1) Hrest ltac:(discriminate)).
    rewrite Hr. f_equal.
    change (List.length (r :: r' :: rows'))
      with (S (List.length (r' :: rows'))).
    lia.
Qed.

(** X8: [persist()] on a consistent manager that holds a vector, then
    a new manager on the same paths: the new manager is the old one,
    with the same index, the same table, the same statistics and the
    counter at the number of rows, so that the next id is free. *)
Theorem persist_restart_round_trip (m : manager) :
  consistent m ->
  0 < Faiss.ntotal (index m) ->
  restart (persist m) = persist m /\
  index (restart (persist m)) = index m /\
  documents (restart (persist m)) = documents m /\
  doc_counter (restart (persist m)) = Sqlite.count (documents m) /\
  get_stats (restart (persist m)) = get_stats m /\
  consistent (restart (persist m)).
Proof.
  intros Hcons Hpos.
  pose proof (persist_consistent m Hcons) as Hpc.
  destruct Hcons as [Hnum [Hlen Hcnt]].
  assert (Hcounter : restore_counter (documents m) = doc_counter m).
  { unfold restore_counter.
    rewrite (max_id_numbered (documents m) 1 (proj1 Hnum)).
    - rewrite Hcnt.
      destruct (Z.eqb_spec (1 + Z.of_nat (List.length (documents m)) - 1) 0);
        lia.
    - intros Hnil. unfold Faiss.ntotal in Hpos.
      rewrite <- Hlen, Hnil in Hpos. simpl in Hpos. lia. }
  assert (Heq : restart (persist m) = persist m).
  { unfold restart, persist.
    rewrite (proj2 (Z.ltb_lt _ _) Hpos).
    unfold init, load_or_create_index.
    cbn [storage index_file metadata_db FaissIndexManager.dimension
         fst snd].
    now rewrite Hcounter. }
  rewrite Heq. split; [reflexivity|].
  split; [|split; [|split; [|split; [|exact Hpc]]]];
    unfold persist; rewrite (proj2 (Z.ltb_lt _ _) Hpos);
    try reflexivity.
  cbn [doc_counter documents storage metadata_db]. exact Hcnt.
Qed.

Lemma persist_restart_round_trip_witness :
  restart (persist Inputs.three_docs) = persist Inputs.three_docs /\
  index (restart (persist Inputs.three_docs)) = index Inputs.three_docs /\
  documents (restart (persist Inputs.three_docs))
  = documents Inputs.three_docs /\
  doc_counter (restart (persist Inputs.three_docs))
  = Sqlite.count (documents Inputs.three_docs) /\
  get_stats (restart (persist Inputs.three_docs))
  = get_stats Inputs.three_docs /\
  consistent (restart (persist Inputs.three_docs)).
Proof.
  apply (persist_restart_round_trip Inputs.three_docs).
  - repeat split.
  - reflexivity.
Defined.

(** *** Sequences of calls *)

(** X9: start on empty storage and make any sequence of calls in which
    every [add_documents] has five sequences of one length and returns
    (searches, [persist()] and [get_stats()] in any order between
    them).  Then the table and the index hold the same number of
    entries, the counter stands at that number, the rows carry the ids
    1, 2, ... with the doc ids made from them, and the row with id [k]
    exists exactly when [1 <= k <= ntotal]: the lookup [search] makes
    for position [k - 1] finds a row for every position of the index. *)
Theorem regular_calls_keep_stores_aligned
        (dimension : Z) (cs : list call) :
  regular_calls (fresh dimension) cs ->
  let m := fold_left after_call cs (fresh dimension) in
  Sqlite.count (documents m) = Faiss.ntotal (index m) /\
  doc_counter m = Sqlite.count (documents m) /\
  map Sqlite.id (documents m)
  = ids_from 1 (List.length (documents m)) /\
  map Sqlite.doc_id (documents m)
  = map make_doc_id (ids_from 1 (List.length (documents m))) /\
  forall k,
    Sqlite.select_by_id (documents m) k <> None
    <-> 1 <= k <= Faiss.ntotal (index m).
Proof.
  intros Hcs m.
  pose proof (regular_calls_consistent cs (fresh dimension)
                (fresh_consistent dimension) Hcs) as Hcons.
  fold m in Hcons. destruct Hcons as [[Hids Hdocs] [Hlen Hcnt]].
  unfold Sqlite.count, Faiss.ntotal.
  split; [now rewrite Hlen|]. split; [exact Hcnt|].
  split; [exact Hids|]. split; [exact Hdocs|].
  intros k. rewrite (find_numbered (documents m) 1 k Hids). lia.
Qed.

Lemma regular_calls_keep_stores_aligned_witness :
  let m := fold_left after_call
             [AddDocuments Inputs.three_texts Inputs.three_embeddings
                           Inputs.three_languages Inputs.three_filenames
                           Inputs.three_indices;
              Persist;
              Search Inputs.query 2;
              AddDocuments [of_string "Text 4"] Inputs.one_embedding
                           [of_string "en"] [of_string "file3.txt"] [0];
              GetStats]
             (fresh 2) in
  Sqlite.count (documents m) = Faiss.ntotal (index m) /\
  doc_counter m = Sqlite.count (documents m) /\
  map Sqlite.id (documents m)
  = ids_from 1 (List.length (documents m)) /\
  map Sqlite.doc_id (documents m)
  = map make_doc_id (ids_from 1 (List.length (documents m))) /\
  forall k,
    Sqlite.select_by_id (documents m) k <> None
    <-> 1 <= k <= Faiss.ntotal (index m).
Proof.
  apply (regular_calls_keep_stores_aligned 2).
  repeat split; eexists; reflexivity.
Defined.

(** *** Well-formed batches *)

Lemma add_documents_dimension
      m texts embeddings languages filenames chunk_indices :
  dimension (snd (add_documents m texts embeddings languages filenames
                                chunk_indices)) = dimension m /\
  Faiss.d (index (snd (add_documents m texts embeddings languages filenames
                                     chunk_indices))) = Faiss.d (index m).
Proof.
  unfold add_documents. destruct (negb _); [now split|].
  destruct (insert_loop _ _) as [[e|] s]; [now split|].
  unfold Faiss.add.
  destruct (Faiss.ncols embeddings =? Faiss.d (index m)); now split.
Qed.



Lemma add_documents_ids_unique_witness :
  NoDup (map Sqlite.id
           (documents
              (snd (add_documents Inputs.three_docs [of_string "Text 4"]
                                  Inputs.one_embedding [of_string "en"]
                                  [of_string "file3.txt"] [0])))).
Proof.
  apply (add_documents_ids_unique Inputs.three_docs).
  vm_compute. repeat constructor; simpl; intuition discriminate.
Defined.

(** *** Doc ids within the life of a manager *)

Lemma insert_loop_counter_le items :
  forall s r s', insert_loop items s = (r, s') -> a_counter s <= a_counter s'.
Proof.
  induction items as [|[[[text lang] fname] chunk_idx] items IH];
    intros s r s' H; simpl in H.
  - injection H as _ <-. lia.
  - destruct (Sqlite.insert _ _) as [e|conn].
    + injection H as _ <-. simpl. lia.
    + apply IH in H. simpl in H. lia.
Qed.

Lemma add_documents_counter_le
      m texts embeddings languages filenames chunk_indices :
  doc_counter m
  <= doc_counter (snd (add_documents m texts embeddings languages filenames
                                     chunk_indices)).
Proof.
  unfold add_documents. destruct (negb _); [simpl; lia|].
  destruct (insert_loop _ _) as [[e|] s] eqn:Hloop;
    apply insert_loop_counter_le in Hloop; simpl in Hloop.
  - exact Hloop.
  - destruct (Faiss.add (index m) embeddings); exact Hloop.
Qed.

Lemma after_call_counter_le m c : doc_counter m <= doc_counter (after_call m c).
Proof.
  destruct c as [texts embeddings languages filenames chunk_indices| | |];
    cbn [after_call]; try lia.
  - apply add_documents_counter_le.
  - unfold persist. destruct (0 <? Faiss.ntotal (index m)); simpl; lia.
Qed.

Lemma after_calls_counter_le cs :
  forall m, doc_counter m <= doc_counter (fold_left after_call cs m).
Proof.
  induction cs as [|c cs IH]; intros m; cbn [fold_left]; [lia|].
  pose proof (after_call_counter_le m c). pose proof (IH (after_call m c)).
  lia.
Qed.

(** X22: within the life of one manager no doc id is handed out twice.
    The doc ids one returning [add_documents] gives are pairwise
    different, and different from every doc id a later returning
    [add_documents] gives, whatever calls were made in between,
    failed ones included, and whatever state the manager started in. *)
Theorem doc_ids_never_repeat
        (m m1 m3 : manager) (cs : list call)
        (texts1 texts2 : list str) (embeddings1 embeddings2 : Faiss.ndarray)
        (languages1 languages2 filenames1 filenames2 : list str)
        (chunk_indices1 chunk_indices2 : list Z) (ids1 ids2 : list str) :
  add_documents m texts1 embeddings1 languages1 filenames1 chunk_indices1
  = (inr ids1, m1) ->
  add_documents (fold_left after_call cs m1) texts2 embeddings2 languages2
                filenames2 chunk_indices2
  = (inr ids2, m3) ->
  NoDup ids1 /\ forall doc_id, In doc_id ids1 -> ~ In doc_id ids2.
Proof.
  intros H1 H2.
  apply add_documents_returned in H1 as [_ [Hids1 [Hc1 _]]].
  apply add_documents_returned in H2 as [_ [Hids2 _]].
  cbv zeta in *.
  pose proof (after_calls_counter_le cs m1) as Hle.
  split.
  - rewrite Hids1. apply NoDup_map_inj; [|apply ids_from_NoDup].
    intros a b. apply make_doc_id_inj.
  - intros doc_id Hin1 Hin2. rewrite Hids1 in Hin1. rewrite Hids2 in Hin2.
    apply in_map_iff in Hin1 as [a [Ha Hin1]].
    apply in_map_iff in Hin2 as [b [Hb Hin2]].
    rewrite <- Hb in Ha. apply make_doc_id_inj in Ha.
    apply ids_from_bounds in Hin1, Hin2. lia.
Qed.

Lemma doc_ids_never_repeat_witness :
  NoDup [of_string "doc_1"] /\
  forall doc_id,
    In doc_id [of_string "doc_1"] -> ~ In doc_id [of_string "doc_3"].
Proof.
  apply (doc_ids_never_repeat
           (fresh 2) (snd (add_documents (fresh 2) [of_string "Text 1"]
                             Inputs.one_embedding [of_string "en"]
                             [of_string "file1.txt"] [0]))
           (snd (add_documents
                   (fold_left after_call
                      [AddDocuments [of_string "Text 2"]
                                    Inputs.one_wide_embedding
                                    [of_string "en"]
                                    [of_string "file1.txt"] [0];
                       Persist]
                      (snd (add_documents (fresh 2) [of_string "Text 1"]
                              Inputs.one_embedding [of_string "en"]
                              [of_string "file1.txt"] [0])))
                   [of_string "Text 3"] Inputs.one_embedding
                   [of_string "en"] [of_string "file1.txt"] [0]))
           [AddDocuments [of_string "Text 2"] Inputs.one_wide_embedding
                         [of_string "en"] [of_string "file1.txt"] [0];
            Persist]
           [of_string "Text 1"] [of_string "Text 3"]
           Inputs.one_embedding Inputs.one_embedding
           [of_string "en"] [of_string "en"]
           [of_string "file1.txt"] [of_string "file1.txt"] [0] [0]).
  - reflexivity.
  - reflexivity.
Defined.

End ManagerMore.

(** * Properties of the snippets *)

Module SnippetProps.
Import Py PyStr PyFloat ChunkerSpec Schemas SnippetSpec.
Import ChunkerProps ChunkerMore.

Lemma slice_prefix (s : str) (n : Z) :
  0 <= n -> slice s 0 n = firstn (Z.to_nat n) s.
Proof.
  intros Hn. unfold slice, adjust_index.
  destruct (Z.ltb_spec 0 0); [lia|].
  destruct (Z.ltb_spec n 0); [lia|].
  rewrite (Z.min_l 0) by (unfold len; lia). cbn [Z.to_nat skipn].
  rewrite Z.sub_0_r.
  destruct (Z.min_spec n (len s)) as [[Hlt ->]|[Hge ->]]; [reflexivity|].
  unfold len in *. rewrite Nat2Z.id.
  rewrite !firstn_all2; [reflexivity | lia | lia].
Qed.

Lemma len_firstn (s : str) (n : Z) :
  0 <= n <= len s -> len (firstn (Z.to_nat n) s) = n.
Proof.
  unfold len. intros Hn. rewrite length_firstn. lia.
Qed.

Lemma occurs_at_head (w : str) (c : char) (sub : str) (p : Z) :
  occurs_at w (c :: sub) p -> nth_error w (Z.to_nat p) = Some c.
Proof.
  intros [_ H]. revert H. generalize (Z.to_nat p). intros n.
  revert w. induction n as [|n IH]; intros [|a w]; simpl; try discriminate.
  - now intros [= ->].
  - apply IH.
Qed.

Lemma rfind_found (w : str) (c : char) (sub : str) :
  rfind w (c :: sub) <> -1 ->
  0 <= rfind w (c :: sub) /\
  nth_error w (Z.to_nat (rfind w (c :: sub))) = Some c.
Proof.
  intros Hne.
  destruct (rfind_last_occurrence w (c :: sub)) as [[Hr _]|[Hocc _]];
    [contradiction|].
  split; [apply Hocc|]. now apply occurs_at_head in Hocc.
Qed.

Lemma rfind_absent (w : str) (c : char) (sub : str) :
  ~ In c w -> rfind w (c :: sub) = -1.
Proof.
  intros Hc.
  destruct (Z.eq_dec (rfind w (c :: sub)) (-1)) as [H|H]; [exact H|].
  apply rfind_found in H as [_ H]. apply nth_error_In in H. contradiction.
Qed.

(** The value of [last_period] at the test, and what the test decides. *)
Lemma truncate_text_long (text : str) (max_length : Z) :
  0 <= max_length < len text ->
  max_length < 2 ^ 1023 ->
  let truncated := firstn (Z.to_nat max_length) text in
  let last_period :=
    if rfind truncated japanese_period =? -1
    then rfind truncated period
    else rfind truncated japanese_period in
  exists f,
    float_of_int max_length = Some f /\
    truncate_text text max_length
    = inr (if int_gt_float last_period (mul f lit_0_7)
           then firstn (Z.to_nat (last_period + 1)) text
           else truncated ++ ellipsis) /\
    (int_gt_float last_period (mul f lit_0_7) = true ->
     0 < last_period /\ last_period + 1 <= max_length /\
     (nth_error text (Z.to_nat last_period) = Some 227%N \/
      nth_error text (Z.to_nat last_period) = Some 46%N)).
Proof.
  intros Hm Hb truncated last_period.
  destruct (float_of_int_defined max_length) as [f Hf]; [lia|].
  exists f. split; [exact Hf|].
  assert (Hlen : len truncated = max_length)
    by (apply len_firstn; lia).
  assert (Hrange : int_gt_float last_period (mul f lit_0_7) = true ->
                   0 < last_period /\ last_period + 1 <= max_length /\
                   (nth_error truncated (Z.to_nat last_period) = Some 227%N \/
                    nth_error truncated (Z.to_nat last_period) = Some 46%N)).
  { intros Hgt.
    assert (Hpos : 0 < last_period).
    { unfold lit_0_7 in Hgt.
      exact (threshold_positive max_length last_period f _ _
               ltac:(lia) Hf Hgt). }
    split; [exact Hpos|]. subst last_period.
    destruct (Z.eqb_spec (rfind truncated japanese_period) (-1)) as [He|He].
    - split.
      + pose proof (rfind_range truncated period ltac:(discriminate)). lia.
      + right. apply (rfind_found truncated 46%N []).
        intros Heq. change (rfind truncated period = -1) in Heq. lia.
    - split.
      + pose proof (rfind_range truncated japanese_period
                      ltac:(discriminate)). lia.
      + left. now apply (rfind_found truncated 227%N [8364; 8218]%N). }
  split.
  - unfold truncate_text.
    destruct (Z.leb_spec (len text) max_length); [lia|].
    rewrite Hf, slice_prefix by lia. fold truncated. fold last_period.
    destruct (int_gt_float last_period (mul f lit_0_7)) eqn:Hgt;
      [|reflexivity].
    destruct (Hrange eq_refl) as [Hpos [Hle _]].
    rewrite slice_prefix by lia. unfold truncated.
    rewrite firstn_firstn. do 2 f_equal. lia.
  - intros Hgt. destruct (Hrange Hgt) as [Hpos [Hle Hnth]].
    split; [exact Hpos|]. split; [exact Hle|].
    unfold truncated in Hnth.
    rewrite !nth_error_firstn in Hnth.
    destruct (Nat.ltb_spec (Z.to_nat last_period) (Z.to_nat max_length));
      [exact Hnth | lia].
Qed.


Lemma truncate_text_length (text : str) (max_length : Z) :
  0 <= max_length < 2 ^ 1023 ->
  exists r, truncate_text text max_length = inr r /\ len r <= max_length + 3.
Proof.
  intros Hm.
  destruct (Z_le_gt_dec (len text) max_length) as [Hshort|Hlong].
  - exists text. unfold truncate_text.
    destruct (Z.leb_spec (len text) max_length); [|lia].
    split; [reflexivity | lia].
  - destruct (truncate_text_long text max_length) as [f [Hf [Hr Hcut]]];
      [lia | lia |]. cbv zeta in Hr, Hcut.
    eexists. split; [exact Hr|].
    destruct (int_gt_float _ (mul f lit_0_7)).
    + destruct (Hcut eq_refl) as [Hpos [Hle _]].
      rewrite len_firstn; lia.
    + pose proof (len_firstn text max_length ltac:(lia)) as Hl.
      unfold len in *. rewrite length_app.
      change (List.length ellipsis) with 3%nat. lia.
Qed.

(** X10: for [0 <= max_length] (below the range of a float)
    [truncate_text], and so [create_snippet], returns a text of at most
    [max_length + 3] characters: the text itself when it has at most
    [max_length] characters; otherwise either its first [max_length]
    characters followed by ["..."], or the prefix that ends at index
    [p > 0] of the first [max_length] characters, where the text has a
    period or the character U+00E3 the first [rfind] looks for. *)
Theorem truncate_text_result (text : str) (max_length : Z) :
  0 <= max_length < 2 ^ 1023 ->
  exists r,
    create_snippet text max_length = inr r /\
    len r <= max_length + 3 /\
    (len text <= max_length -> r = text) /\
    (max_length < len text ->
     r = firstn (Z.to_nat max_length) text ++ ellipsis \/
     exists p,
       0 < p < max_length /\
       r = firstn (Z.to_nat (p + 1)) text /\
       (nth_error text (Z.to_nat p) = Some 227%N \/
        nth_error text (Z.to_nat p) = Some 46%N)).
Proof.
  intros Hm. unfold create_snippet.
  destruct (Z_le_gt_dec (len text) max_length) as [Hshort|Hlong].
  - exists text. unfold truncate_text.
    destruct (Z.leb_spec (len text) max_length); [|lia].
    repeat split; [lia | lia].
  - destruct (truncate_text_long text max_length) as [f [Hf [Hr Hcut]]];
      [lia | lia |]. cbv zeta in Hr, Hcut.
    eexists. split; [exact Hr|].
    destruct (int_gt_float _ (mul f lit_0_7)).
    + destruct (Hcut eq_refl) as [Hpos [Hle Hnth]].
      split; [|split; [lia|]].
      * rewrite len_firstn; lia.
      * intros _. right. eexists. split; [|split; [reflexivity|exact Hnth]].
        lia.
    + split; [|split; [lia|]].
      * unfold len. rewrite length_app.
        pose proof (len_firstn text max_length ltac:(lia)) as Hl.
        unfold len in Hl. simpl. lia.
      * intros _. now left.
Qed.

Lemma truncate_text_result_witness :
  exists r,
    create_snippet Inputs.prose 40 = inr r /\
    len r <= 40 + 3 /\
    (len Inputs.prose <= 40 -> r = Inputs.prose) /\
    (40 < len Inputs.prose ->
     r = firstn (Z.to_nat 40) Inputs.prose ++ ellipsis \/
     exists p,
       0 < p < 40 /\
       r = firstn (Z.to_nat (p + 1)) Inputs.prose /\
       (nth_error Inputs.prose (Z.to_nat p) = Some 227%N \/
        nth_error Inputs.prose (Z.to_nat p) = Some 46%N)).
Proof.
  apply (truncate_text_result Inputs.prose 40).
  split; [lia | reflexivity].
Defined.

(** X11: the full-width period U+3002 is no break point of
    [truncate_text]: a text longer than [max_length] that holds no
    period and no U+00E3 is cut after [max_length] characters and gets
    the ellipsis, wherever its full-width periods are. *)
Theorem truncate_text_ignores_fullwidth_period (text : str) (max_length : Z) :
  0 <= max_length < len text ->
  max_length < 2 ^ 1023 ->
  ~ In 46%N text ->
  ~ In 227%N text ->
  truncate_text text max_length
  = inr (firstn (Z.to_nat max_length) text ++ ellipsis).
Proof.
  intros Hm Hb Hdot Hja.
  destruct (truncate_text_long text max_length Hm Hb) as [f [Hf [Hr Hcut]]].
  cbv zeta in Hr, Hcut. rewrite Hr.
  destruct (int_gt_float _ (mul f lit_0_7)); [|reflexivity].
  destruct (Hcut eq_refl) as [_ [_ [Hnth|Hnth]]];
    apply nth_error_In in Hnth; contradiction.
Qed.

Lemma truncate_text_ignores_fullwidth_period_witness :
  truncate_text japanese_text 9
  = inr (firstn (Z.to_nat 9) japanese_text ++ ellipsis).
Proof.
  apply (truncate_text_ignores_fullwidth_period japanese_text 9).
  - split; [lia | reflexivity].
  - reflexivity.
  - simpl. intuition discriminate.
  - simpl. intuition discriminate.
Defined.

(** *** The threshold in exact arithmetic *)

Lemma close_on_range_sound (depth : nat) :
  forall lo z,
    close_on_range depth lo = true ->
    lo <= z < lo + 2 ^ Z.of_nat depth ->
    seventy_percent_close z = true.
Proof.
  induction depth as [|depth IH]; intros lo z H Hz.
  - simpl in H, Hz. now replace z with lo by lia.
  - cbn [close_on_range] in H. apply andb_true_iff in H as [H1 H2].
    rewrite Nat2Z.inj_succ, Z.pow_succ_r in Hz by lia.
    destruct (Z_lt_ge_dec z (lo + 2 ^ Z.of_nat depth)) as [Hlt|Hge].
    + apply (IH lo); [exact H1 | lia].
    + apply (IH (lo + 2 ^ Z.of_nat depth)); [exact H2 | lia].
Qed.

Lemma seventy_percent_checked : close_on_range 10 0 = true.
Proof. vm_cast_no_check (eq_refl true). Qed.

(** For lengths below 1024 the float test [last_period > max_length * 0.7]
    lies between the exact tests [10 * last_period > 7 * max_length] and
    [10 * (last_period + 1) > 7 * max_length]. *)
Lemma threshold_near_seventy_percent (max_length last_period : Z) (f : spec_float) :
  0 <= max_length < 1024 ->
  float_of_int max_length = Some f ->
  (7 * max_length < 10 * last_period ->
   int_gt_float last_period (mul f lit_0_7) = true) /\
  (int_gt_float last_period (mul f lit_0_7) = true ->
   7 * max_length < 10 * (last_period + 1)).
Proof.
  intros Hm Hf.
  assert (Hc : seventy_percent_close max_length = true).
  { apply (close_on_range_sound 10 0 _ seventy_percent_checked).
    change (2 ^ Z.of_nat 10) with 1024. lia. }
  unfold seventy_percent_close in Hc. rewrite Hf in Hc.
  destruct (float_floor (mul f lit_0_7)) as [fl|] eqn:Hfl; [|discriminate].
  apply andb_true_iff in Hc as [Hlo Hhi].
  apply Z.leb_le in Hlo, Hhi.
  rewrite (int_gt_float_floor _ _ _ Hfl).
  assert (Hdm : 7 * max_length
                = 10 * (7 * max_length / 10) + (7 * max_length) mod 10)
    by (apply Z.div_mod; lia).
  assert (Hmod : 0 <= (7 * max_length) mod 10 < 10)
    by (apply Z.mod_pos_bound; lia).
  split; intros H.
  - apply Z.ltb_lt. lia.
  - apply Z.ltb_lt in H. lia.
Qed.

Lemma period_before_last (w : str) (p : Z) :
  0 <= p ->
  nth_error w (Z.to_nat p) = Some 46%N ->
  p <= rfind w period.
Proof.
  intros Hp Hnth.
  assert (Hocc : occurs_at w period p).
  { pose proof (proj1 (nth_error_Some w (Z.to_nat p))
                  ltac:(congruence)) as Hlt.
    split; [unfold len; lia|].
    apply nth_error_split in Hnth as [l1 [l2 [Heq Hl1]]].
    rewrite Heq, <- Hl1, skipn_app, Nat.sub_diag, skipn_all.
    reflexivity. }
  destruct (rfind_last_occurrence w period) as [[_ Hno]|[_ Hmax]].
  - exfalso. exact (Hno p Hocc).
  - exact (Hmax p Hocc).
Qed.

(** X12: for [max_length] below 1024 (the callers pass 150, 200 and
    300) the snippet of a longer text keeps more than 70% of
    [max_length] characters and at most [max_length + 3]; and a period
    at an index [p] of the first [max_length] characters with
    [p > 0.7 * max_length] is always used, when the text holds no
    U+00E3: the snippet is then the prefix that ends at the last such
    period, without ellipsis. *)
Theorem truncate_text_keeps_seventy_percent (text : str) (max_length : Z) :
  0 <= max_length < 1024 ->
  max_length < len text ->
  exists r,
    truncate_text text max_length = inr r /\
    7 * max_length < 10 * len r /\
    len r <= max_length + 3 /\
    forall p,
      ~ In 227%N text ->
      0 <= p < max_length ->
      nth_error text (Z.to_nat p) = Some 46%N ->
      7 * max_length < 10 * p ->
      exists q,
        p <= q < max_length /\
        nth_error text (Z.to_nat q) = Some 46%N /\
        r = firstn (Z.to_nat (q + 1)) text.
Proof.
  intros Hm Hlong.
  destruct (truncate_text_long text max_length) as [f [Hf [Hr Hcut]]];
    [lia | lia |].
  cbv zeta in Hr, Hcut.
  pose proof (len_firstn text max_length ltac:(lia)) as Hlen.
  remember (firstn (Z.to_nat max_length) text) as truncated eqn:Htr.
  remember (if rfind truncated japanese_period =? -1
            then rfind truncated period
            else rfind truncated japanese_period) as last_period eqn:Hlp.
  destruct (threshold_near_seventy_percent max_length last_period f Hm Hf)
    as [Hin Hout].
  assert (Hlast : forall p,
             ~ In 227%N text -> 0 <= p < max_length ->
             nth_error text (Z.to_nat p) = Some 46%N ->
             p <= last_period).
  { intros p Hja Hp Hdot.
    assert (Hnone : rfind truncated japanese_period = -1).
    { apply rfind_absent. intros Hin'. apply Hja. subst truncated.
      now apply (ManagerMore.firstn_In (Z.to_nat max_length)). }
    rewrite Hnone in Hlp. change (-1 =? -1) with true in Hlp.
    cbv iota in Hlp. rewrite Hlp.
    apply period_before_last; [lia|]. subst truncated.
    rewrite nth_error_firstn.
    destruct (Nat.ltb_spec (Z.to_nat p) (Z.to_nat max_length));
      [exact Hdot | lia]. }
  eexists. split; [exact Hr|].
  destruct (int_gt_float last_period (mul f lit_0_7)) eqn:Hgt.
  - destruct (Hcut eq_refl) as [Hpos [Hle Hnth]].
    specialize (Hout eq_refl).
    rewrite len_firstn by lia.
    split; [lia|]. split; [lia|].
    intros p Hja Hp Hdot Hlate. exists last_period.
    destruct Hnth as [Hnth|Hnth];
      [apply nth_error_In in Hnth; contradiction|].
    split; [|split; [exact Hnth | reflexivity]].
    pose proof (Hlast p Hja Hp Hdot). lia.
  - split; [|split].
    + unfold len in *. rewrite length_app.
      change (List.length ellipsis) with 3%nat. lia.
    + unfold len in *. rewrite length_app.
      change (List.length ellipsis) with 3%nat. lia.
    + intros p Hja Hp Hdot Hlate. exfalso.
      pose proof (Hlast p Hja Hp Hdot) as Hle.
      pose proof (Hin ltac:(lia)) as Ht. congruence.
Qed.

Lemma truncate_text_keeps_seventy_percent_witness :
  exists r,
    truncate_text Inputs.prose 40 = inr r /\
    7 * 40 < 10 * len r /\
    len r <= 40 + 3 /\
    forall p,
      ~ In 227%N Inputs.prose ->
      0 <= p < 40 ->
      nth_error Inputs.prose (Z.to_nat p) = Some 46%N ->
      7 * 40 < 10 * p ->
      exists q,
        p <= q < 40 /\
        nth_error Inputs.prose (Z.to_nat q) = Some 46%N /\
        r = firstn (Z.to_nat (q + 1)) Inputs.prose.
Proof.
  apply (truncate_text_keeps_seventy_percent Inputs.prose 40).
  - lia.
  - reflexivity.
Defined.

End SnippetProps.

(** * Properties of the endpoints *)

Module IngestProps.
Import Py PyStr PyFloat Errors Chunker FaissIndexManager EmbeddingModel.
Import ManagerSpec TableSpec WindowSpec ChunkerSpec EndpointSpec.
Import ChunkerProps ChunkerMore ManagerProps ManagerMore.
Import Ingest.

Section WithLibraries.

Variable settings : Config.settings.
Variable detect : str -> LangDetect.detection.
Variable encode : list str -> error + Faiss.ndarray.

Lemma detect_language_values (text : str) :
  LangDetect.detect_language detect text = of_string "en" \/
  LangDetect.detect_language detect text = of_string "ja".
Proof.
  unfold LangDetect.detect_language.
  destruct (negb (truthy text) || (len (strip text) <? 3)); [now left|].
  destruct (detect text) as [lang|]; [|now left].
  destruct (eqb lang (of_string "ja")); [now right | now left].
Qed.

(** The chunks of a text that is not blank. *)
Lemma chunk_text_chunks fuel text max_size overlap chunks :
  truthy (strip text) = true ->
  chunk_text fuel text max_size overlap = Some (inr chunks) ->
  Forall (fun c => c <> [] /\ piece_of c text) chunks.
Proof.
  intros Htext. unfold chunk_text. destruct (len text <=? max_size).
  - intros [= <-]. constructor; [|constructor].
    split; [|apply piece_of_refl]. intros ->. discriminate.
  - intros H.
    assert (Ht : Forall trimmed chunks)
      by (eapply chunk_loop_trimmed; [exact H | constructor]).
    assert (Hp : Forall (fun c => piece_of c text) chunks).
    { eapply chunk_loop_Forall; [|exact H|constructor].
      intros start end_ _ _.
      eapply piece_of_trans; [apply strip_piece | apply slice_piece]. }
    apply Forall_forall. intros c Hin. split.
    + exact (proj1 (proj1 (Forall_forall _ _) Ht c Hin)).
    + exact (proj1 (Forall_forall _ _) Hp c Hin).
Qed.

Lemma range_length n : List.length (range n) = n.
Proof. unfold range. now rewrite length_map, length_seq. Qed.

(** What one run of the loop body does to the variables and to the two
    stores. *)
Lemma process_file_spec fuel v file v' :
  process_file settings detect encode fuel v file = Some v' ->
  exists d new vecs,
    the_details v' = the_details v ++ [d] /\
    detail_name d = filename file /\
    processed_count v'
    = processed_count v + (if is_success d then 1 else 0) /\
    total_chunks v' = total_chunks v + chunks_of d /\
    documents (index_manager v') = documents (index_manager v) ++ new /\
    Faiss.xb (index (index_manager v'))
    = Faiss.xb (index (index_manager v)) ++ vecs /\
    Z.of_nat (List.length new) = chunks_of d /\
    Z.of_nat (List.length vecs) = chunks_of d /\
    Forall (row_from_file detect file) new.
Proof.
  unfold process_file. intros H.
  assert (Hkeep : forall d,
             chunks_of d = 0 -> is_success d = false ->
             detail_name d = filename file ->
             Some (append_detail v d (index_manager v)) = Some v' ->
             exists d new vecs,
               the_details v' = the_details v ++ [d] /\
               detail_name d = filename file /\
               processed_count v'
               = processed_count v + (if is_success d then 1 else 0) /\
               total_chunks v' = total_chunks v + chunks_of d /\
               documents (index_manager v')
               = documents (index_manager v) ++ new /\
               Faiss.xb (index (index_manager v'))
               = Faiss.xb (index (index_manager v)) ++ vecs /\
               Z.of_nat (List.length new) = chunks_of d /\
               Z.of_nat (List.length vecs) = chunks_of d /\
               Forall (row_from_file detect file) new).
  { intros d Hc Hs Hn [= <-]. exists d, [], []. rewrite Hs, Hc.
    cbn [append_detail the_details processed_count total_chunks
         index_manager]. rewrite !app_nil_r, !Z.add_0_r.
    repeat split; try assumption; constructor. }
  destruct (endswith (filename file) (of_string ".txt")) eqn:Htxt;
    cbn [negb] in H; [|refine (Hkeep _ _ _ _ H); reflexivity].
  destruct (read file) as [e|text] eqn:Hread;
    [refine (Hkeep _ _ _ _ H); reflexivity|].
  destruct (truthy (strip text)) eqn:Htext; cbn [negb] in H;
    [|refine (Hkeep _ _ _ _ H); reflexivity].
  destruct (chunk_text fuel text _ _) as [[e|chunks]|] eqn:Hchunks;
    [refine (Hkeep _ _ _ _ H); reflexivity| |discriminate].
  destruct (embed_texts encode chunks) as [e|embeddings] eqn:Hemb;
    [refine (Hkeep _ _ _ _ H); reflexivity|].
  destruct (add_documents _ _ _ _ _ _) as [[e|doc_ids] m'] eqn:Hadd.
  - injection H as <-.
    assert (Hsame : documents m' = documents (index_manager v) /\
                    index m' = index (index_manager v)).
    { unfold add_documents in Hadd. destruct embeddings as [|a].
      - injection Hadd as _ <-. now split.
      - now apply add_documents_raised in Hadd. }
    destruct Hsame as [Hd Hi].
    exists (Failed (filename file) (Raised e)), [], [].
    cbn [append_detail the_details processed_count
                          total_chunks index_manager].
    rewrite Hd, Hi, !app_nil_r.
    repeat split; try reflexivity; try constructor.
    all: cbn; lia.
  - injection H as <-.
    unfold add_documents in Hadd. destruct embeddings as [|a];
      [discriminate|].
    pose proof (add_documents_rows _ _ _ _ _ _ _ _ Hadd) as Hrows.
    pose proof (add_documents_returned _ _ _ _ _ _ _ _ Hadd)
      as [Hlen [_ [_ [_ Hxb]]]].
    assert (Hzip : List.length
                     (zip4 chunks
                           (repeat (LangDetect.detect_language detect text)
                                   (List.length chunks))
                           (repeat (filename file) (List.length chunks))
                           (range (List.length chunks)))
                   = List.length chunks).
    { apply zip4_length;
        [apply repeat_length | apply repeat_length | apply range_length]. }
    do 3 eexists. cbn [the_details processed_count total_chunks
                        index_manager is_success chunks_of detail_name].
    split; [reflexivity|]. split; [reflexivity|]. split; [reflexivity|].
    split; [reflexivity|]. split; [exact Hrows|]. split; [exact Hxb|].
    split; [now rewrite rows_from_length, Hzip|].
    split; [now rewrite <- Hlen|].
    apply Forall_forall. intros r Hin.
    apply rows_from_In in Hin as [t [l [f [c [Hin [Ht [Hl [Hf _]]]]]]]].
    apply zip4_In in Hin as [Hint [Hinl [Hinf _]]].
    apply repeat_spec in Hinl, Hinf.
    pose proof (chunk_text_chunks _ _ _ _ _ Htext Hchunks) as Hall.
    pose proof (proj1 (Forall_forall _ _) Hall t Hint) as [Hne Hpiece].
    exists text. rewrite Ht, Hl, Hf.
    repeat split; try assumption.
Qed.

Lemma process_files_spec fuel files :
  forall v v',
    process_files settings detect encode fuel v files = Some v' ->
    exists ds new vecs,
      the_details v' = the_details v ++ ds /\
      map detail_name ds = map filename files /\
      processed_count v'
      = processed_count v + Z.of_nat (List.length (filter is_success ds)) /\
      total_chunks v' = total_chunks v + sum (map chunks_of ds) /\
      documents (index_manager v') = documents (index_manager v) ++ new /\
      Faiss.xb (index (index_manager v'))
      = Faiss.xb (index (index_manager v)) ++ vecs /\
      Z.of_nat (List.length new) = sum (map chunks_of ds) /\
      Z.of_nat (List.length vecs) = sum (map chunks_of ds) /\
      Forall (fun r => exists file,
                  In file files /\ row_from_file detect file r) new.
Proof.
  induction files as [|file files IH]; intros v v' H; simpl in H.
  - injection H as <-. exists [], [], []. rewrite !app_nil_r.
    cbn. rewrite !Z.add_0_r. repeat split. constructor.
  - destruct (process_file settings detect encode fuel v file)
      as [v1|] eqn:E; [|discriminate].
    apply process_file_spec in E
      as [d [new1 [vecs1 [Hd [Hn [Hp [Ht [Hdoc [Hxb [Hl1 [Hl2 Hrows]]]]]]]]]]].
    apply IH in H
      as [ds [new [vecs [Hd' [Hn' [Hp' [Ht' [Hdoc' [Hxb' [Hl1' [Hl2' Hrows']]]]]]]]]]].
    exists (d :: ds), (new1 ++ new), (vecs1 ++ vecs).
    rewrite Hd', Hd, Hp', Hp, Ht', Ht, Hdoc', Hdoc, Hxb', Hxb, <- !app_assoc.
    cbn [map filter sum fold_right app]. fold (sum (map chunks_of ds)).
    rewrite Hn, Hn', !length_app.
    split; [reflexivity|]. split; [reflexivity|].
    split; [destruct (is_success d); cbn [List.length]; lia|].
    split; [lia|]. split; [reflexivity|]. split; [reflexivity|].
    split; [lia|]. split; [lia|].
    apply Forall_app. split.
    + eapply Forall_impl; [|exact Hrows]. cbn beta. intros r Hr.
      exists file. split; [now left | exact Hr].
    + eapply Forall_impl; [|exact Hrows']. cbn beta.
      intros r [file' [Hin Hr]]. exists file'. split; [now right | exact Hr].
Qed.

Lemma persist_keeps m :
  documents (persist m) = documents m /\ index (persist m) = index m /\
  (0 < Faiss.ntotal (index m) ->
   index_file (storage (persist m)) = Some (Blob (index m))).
Proof.
  unfold persist. destruct (Z.ltb_spec 0 (Faiss.ntotal (index m)));
    repeat split; try reflexivity; lia.
Qed.

(** What a returning [ingest_documents] has done. *)
Lemma ingest_documents_spec fuel m files response m' :
  ingest_documents settings detect encode fuel m files
  = Some (inr response, m') ->
  exists new vecs,
    map detail_name (details response) = map filename files /\
    files_processed response
    = Z.of_nat (List.length (filter is_success (details response))) /\
    total_chunks_added response = sum (map chunks_of (details response)) /\
    success response = (0 <? files_processed response) /\
    documents m' = documents m ++ new /\
    Faiss.xb (index m') = Faiss.xb (index m) ++ vecs /\
    Z.of_nat (List.length new) = total_chunks_added response /\
    Z.of_nat (List.length vecs) = total_chunks_added response /\
    Forall (fun r => exists file,
                In file files /\ row_from_file detect file r) new /\
    (0 < Faiss.ntotal (index m') ->
     index_file (storage m') = Some (Blob (index m'))).
Proof.
  unfold ingest_documents. destruct files as [|file files]; [discriminate|].
  destruct (process_files _ _ _ _ _ _) as [v|] eqn:E; [|discriminate].
  intros [= <- <-].
  apply process_files_spec in E
    as [ds [new [vecs [Hd [Hn [Hp [Ht [Hdoc [Hxb [Hl1 [Hl2 Hrows]]]]]]]]]]].
  cbn [the_details processed_count total_chunks index_manager app] in *.
  destruct (persist_keeps (index_manager v)) as [Hpd [Hpi Hpf]].
  exists new, vecs.
  cbn [details files_processed total_chunks_added success].
  rewrite Hpd, Hpi, Hdoc, Hxb, Hd, Hp, Ht.
  repeat split; try assumption; try reflexivity.
Qed.

End WithLibraries.


(** X14: the response of [ingest_documents] accounts for every file:
    [details] has one entry per file, in the order of the files and under
    their names; [files_processed] is the number of success entries,
    [total_chunks_added] the sum of their [chunks_created], and
    [success] holds exactly when some entry is a success. *)
Theorem ingest_response_accounts_for_files
        (settings : Config.settings) (detect : str -> LangDetect.detection)
        (encode : list str -> error + Faiss.ndarray) (fuel : nat)
        (m m' : manager) (files : list upload_file)
        (response : ingest_response) :
  ingest_documents settings detect encode fuel m files
  = Some (inr response, m') ->
  map detail_name (details response) = map filename files /\
  files_processed response
  = Z.of_nat (List.length (filter is_success (details response))) /\
  total_chunks_added response = sum (map chunks_of (details response)) /\
  (success response = true
   <-> exists d, In d (details response) /\ is_success d = true).
Proof.
  intros H. apply ingest_documents_spec in H
    as [new [vecs [Hn [Hp [Ht [Hs _]]]]]].
  split; [exact Hn|]. split; [exact Hp|]. split; [exact Ht|].
  rewrite Hs, Hp, Z.ltb_lt. split.
  - intros Hpos.
    destruct (filter is_success (details response)) as [|d l] eqn:E;
      [simpl in Hpos; lia|].
    exists d. apply filter_In. rewrite E. now left.
  - intros [d Hd]. apply filter_In in Hd.
    destruct (filter is_success (details response)); [destruct Hd|].
    simpl. lia.
Qed.

Lemma ingest_response_accounts_for_files_witness :
  map detail_name (details sample_response) = map filename sample_files /\
  files_processed sample_response
  = Z.of_nat (List.length (filter is_success (details sample_response))) /\
  total_chunks_added sample_response
  = sum (map chunks_of (details sample_response)) /\
  (success sample_response = true
   <-> exists d, In d (details sample_response) /\ is_success d = true).
Proof.
  apply (ingest_response_accounts_for_files
           small_chunks sample_detect sample_encode 60 (fresh 2)
           sample_manager sample_files sample_response).
  vm_compute. reflexivity.
Defined.

(** X15: whatever the detector and the encoder return, and whatever
    state the manager is in, a returning [ingest_documents] adds the
    same number of rows to the table as vectors to the index, and this
    number is [total_chunks_added]: files that are skipped or fail add
    nothing to either.  When the index holds a vector afterwards, the
    index file holds that index. *)
Theorem ingest_adds_rows_and_vectors_together
        (settings : Config.settings) (detect : str -> LangDetect.detection)
        (encode : list str -> error + Faiss.ndarray) (fuel : nat)
        (m m' : manager) (files : list upload_file)
        (response : ingest_response) :
  ingest_documents settings detect encode fuel m files
  = Some (inr response, m') ->
  Sqlite.count (documents m')
  = Sqlite.count (documents m) + total_chunks_added response /\
  Faiss.ntotal (index m')
  = Faiss.ntotal (index m) + total_chunks_added response /\
  (0 < Faiss.ntotal (index m') ->
   index_file (storage m') = Some (Blob (index m'))).
Proof.
  intros H. apply ingest_documents_spec in H
    as [new [vecs [_ [_ [_ [_ [Hdoc [Hxb [Hl1 [Hl2 [_ Hfile]]]]]]]]]]].
  unfold Sqlite.count, Faiss.ntotal in *.
  rewrite Hdoc, Hxb, !length_app. repeat split; try lia.
  rewrite Hxb, length_app in Hfile. exact Hfile.
Qed.

Lemma ingest_adds_rows_and_vectors_together_witness :
  Sqlite.count (documents sample_manager)
  = Sqlite.count (documents (fresh 2)) + total_chunks_added sample_response /\
  Faiss.ntotal (index sample_manager)
  = Faiss.ntotal (index (fresh 2)) + total_chunks_added sample_response /\
  (0 < Faiss.ntotal (index sample_manager) ->
   index_file (storage sample_manager) = Some (Blob (index sample_manager))).
Proof.
  apply (ingest_adds_rows_and_vectors_together
           small_chunks sample_detect sample_encode 60 (fresh 2)
           sample_manager sample_files sample_response).
  vm_compute. reflexivity.
Defined.

(** X16: the table after a returning [ingest_documents] is the table
    before followed by new rows, and every new row holds a non-empty run
    of consecutive characters of the text of one of the uploaded [.txt]
    files, under the name of that file, with the language
    [detect_language] gives for the whole text of the file, which is
    [en] or [ja]. *)
Theorem ingest_stores_pieces_of_files
        (settings : Config.settings) (detect : str -> LangDetect.detection)
        (encode : list str -> error + Faiss.ndarray) (fuel : nat)
        (m m' : manager) (files : list upload_file)
        (response : ingest_response) :
  ingest_documents settings detect encode fuel m files
  = Some (inr response, m') ->
  exists new,
    documents m' = documents m ++ new /\
    Forall (fun r => exists file,
                In file files /\ row_from_file detect file r) new /\
    Forall (fun r => Sqlite.language r = of_string "en"
                     \/ Sqlite.language r = of_string "ja") new.
Proof.
  intros H. apply ingest_documents_spec in H
    as [new [vecs [_ [_ [_ [_ [Hdoc [_ [_ [_ [Hrows _]]]]]]]]]]].
  exists new. split; [exact Hdoc|]. split; [exact Hrows|].
  eapply Forall_impl; [|exact Hrows]. cbn beta.
  intros r [file [_ [text [_ [_ [_ [Hl _]]]]]]]. rewrite Hl.
  apply detect_language_values.
Qed.

Lemma ingest_stores_pieces_of_files_witness :
  exists new,
    documents sample_manager = documents (fresh 2) ++ new /\
    Forall (fun r => exists file,
                In file sample_files /\ row_from_file sample_detect file r)
           new /\
    Forall (fun r => Sqlite.language r = of_string "en"
                     \/ Sqlite.language r = of_string "ja") new.
Proof.
  apply (ingest_stores_pieces_of_files
           small_chunks sample_detect sample_encode 60 (fresh 2)
           sample_manager sample_files sample_response).
  vm_compute. reflexivity.
Defined.

(** *** The endpoint returns *)

Lemma chunk_text_returns fuel text max_size overlap :
  0 <= overlap < max_size ->
  beyond_threshold max_size (overlap - 1) = inr false ->
  (List.length text < fuel)%nat ->
  exists chunks, chunk_text fuel text max_size overlap = Some (inr chunks).
Proof.
  intros Hov Hthr Hfuel. unfold chunk_text.
  destruct (len text <=? max_size); [now eexists|].
  apply chunk_loop_returns; try assumption.
  simpl. unfold len. rewrite Z.sub_0_r, Nat2Z.id. exact Hfuel.
Qed.

Lemma process_files_returns settings detect encode fuel files :
  0 <= Config.chunk_overlap settings < Config.max_chunk_size settings ->
  beyond_threshold (Config.max_chunk_size settings)
                   (Config.chunk_overlap settings - 1) = inr false ->
  (forall file text,
     In file files -> read file = inr text ->
     (List.length text < fuel)%nat) ->
  forall v, exists v',
    process_files settings detect encode fuel v files = Some v'.
Proof.
  intros Hov Hthr. induction files as [|file files IH]; intros Hfuel v.
  - now eexists.
  - cbn [process_files].
    assert (Hstep : exists v1,
               process_file settings detect encode fuel v file = Some v1).
    { unfold process_file.
      destruct (negb (endswith _ _)); [now eexists|].
      destruct (read file) as [e|text] eqn:Hread; [now eexists|].
      destruct (negb (truthy (strip text))); [now eexists|].
      destruct (chunk_text_returns fuel text _ _ Hov Hthr) as [chunks ->].
      { apply (Hfuel file text); [now left | exact Hread]. }
      destruct (embed_texts encode chunks); [now eexists|].
      destruct (add_documents _ _ _ _ _ _) as [[e|ids] m']; now eexists. }
    destruct Hstep as [v1 ->]. apply IH.
    intros file' text Hin. apply Hfuel. now right.
Qed.

(** X17: with [0 <= chunk_overlap < max_chunk_size] and
    [chunk_overlap - 1 <= max_chunk_size * 0.6], as with the defaults
    1000 and 200, [ingest_documents] returns for every list of files,
    every detector, encoder and manager: each [chunk_text] it calls ends
    within [len(text) + 1] tests of its loop.  For an empty list it
    raises the [HTTPException] with status 400 and leaves the manager
    as it is; otherwise it returns a response: no exception of a file
    leaves the function. *)
Theorem ingest_documents_returns
        (settings : Config.settings) (detect : str -> LangDetect.detection)
        (encode : list str -> error + Faiss.ndarray) (fuel : nat)
        (m : manager) (files : list upload_file) :
  0 <= Config.chunk_overlap settings < Config.max_chunk_size settings ->
  beyond_threshold (Config.max_chunk_size settings)
                   (Config.chunk_overlap settings - 1) = inr false ->
  (forall file text,
     In file files -> read file = inr text ->
     (List.length text < fuel)%nat) ->
  (files = [] ->
   ingest_documents settings detect encode fuel m files
   = Some (inl (HTTPException 400), m)) /\
  (files <> [] ->
   exists response m',
     ingest_documents settings detect encode fuel m files
     = Some (inr response, m')).
Proof.
  intros Hov Hthr Hfuel. split.
  - now intros ->.
  - intros Hne. unfold ingest_documents.
    destruct files as [|file files]; [contradiction|].
    destruct (process_files_returns settings detect encode fuel
                (file :: files) Hov Hthr Hfuel
                {| total_chunks := 0; the_details := [];
                   processed_count := 0; index_manager := m |})
      as [v ->].
    now do 2 eexists.
Qed.

Lemma ingest_documents_returns_witness :
  (sample_files = [] ->
   ingest_documents Config.defaults sample_detect sample_encode 60
                    (fresh 2) sample_files
   = Some (inl (HTTPException 400), fresh 2)) /\
  (sample_files <> [] ->
   exists response m',
     ingest_documents Config.defaults sample_detect sample_encode 60
                      (fresh 2) sample_files
     = Some (inr response, m')).
Proof.
  apply (ingest_documents_returns
           Config.defaults sample_detect sample_encode 60 (fresh 2)
           sample_files).
  - simpl. lia.
  - reflexivity.
  - intros file text Hin Hread.
    repeat (destruct Hin as [<-|Hin];
            [simpl in Hread; try discriminate;
             injection Hread as <-; vm_compute; lia|]).
    destruct Hin.
Defined.


(** *** Every text file is taken *)

Lemma chunk_text_count fuel text max_size overlap chunks :
  (List.length text < fuel)%nat ->
  chunk_text fuel text max_size overlap = Some (inr chunks) ->
  (List.length chunks <= fuel)%nat.
Proof.
  intros Hfuel. unfold chunk_text. destruct (len text <=? max_size).
  - intros [= <-]. simpl. lia.
  - intros H. apply chunk_loop_count in H. simpl in H. lia.
Qed.

Lemma range_fits n :
  Z.of_nat n <= 2 ^ 63 - 1 ->
  Forall (fun c => Sqlite.fits_int64 c = true) (range n).
Proof.
  intros Hn. unfold range. apply Forall_forall. intros c Hin.
  apply in_map_iff in Hin as [i [<- Hi]]. apply in_seq in Hi.
  unfold Sqlite.fits_int64. apply andb_true_iff.
  split; apply Z.leb_le; lia.
Qed.

Lemma process_file_taken settings detect encode fuel v file d :
  consistent (index_manager v) ->
  Faiss.d (index (index_manager v)) = d ->
  encoder_of_dimension encode d ->
  0 <= Config.chunk_overlap settings < Config.max_chunk_size settings ->
  beyond_threshold (Config.max_chunk_size settings)
                   (Config.chunk_overlap settings - 1) = inr false ->
  (forall text, read file = inr text -> (List.length text < fuel)%nat) ->
  doc_counter (index_manager v) + Z.of_nat fuel <= 2 ^ 63 - 1 ->
  exists v' dl,
    process_file settings detect encode fuel v file = Some v' /\
    consistent (index_manager v') /\
    Faiss.d (index (index_manager v')) = d /\
    doc_counter (index_manager v')
    <= doc_counter (index_manager v) + Z.of_nat fuel /\
    the_details v' = the_details v ++ [dl] /\
    is_success dl = ingestible file.
Proof.
  intros Hcons Hd Henc Hov Hthr Hfuel Hbound.
  unfold process_file, ingestible.
  assert (Hkeep : forall dl,
             is_success dl = false ->
             exists v' dl',
               Some (append_detail v dl (index_manager v)) = Some v' /\
               consistent (index_manager v') /\
               Faiss.d (index (index_manager v')) = d /\
               doc_counter (index_manager v')
               <= doc_counter (index_manager v) + Z.of_nat fuel /\
               the_details v' = the_details v ++ [dl'] /\
               is_success dl' = false).
  { intros dl Hdl. exists (append_detail v dl (index_manager v)), dl.
    cbn [append_detail index_manager the_details].
    repeat split; try assumption; try apply Hcons. lia. }
  destruct (endswith (filename file) (of_string ".txt"));
    cbn [negb andb]; [|now apply Hkeep].
  destruct (read file) as [e|text] eqn:Hread; [now apply Hkeep|].
  destruct (truthy (strip text)) eqn:Htext; cbn [negb];
    [|now apply Hkeep].
  specialize (Hfuel text eq_refl).
  destruct (chunk_text_covers fuel text _ _ Hov Hthr Hfuel)
    as [chunks [Hchunks Hcover]].
  rewrite Hchunks.
  pose proof (chunk_text_count _ _ _ _ _ Hfuel Hchunks) as Hcount.
  assert (Hne : chunks <> []).
  { destruct (not_blank text Htext) as [c [Hin Hc]].
    apply In_nth_error in Hin as [p Hp].
    destruct (Hcover p c Hp Hc) as [chunk [Hchunk _]].
    intros ->. destruct Hchunk. }
  destruct (Henc chunks Hne) as [a [Ha [Hcols Hrows]]].
  unfold embed_texts. destruct chunks as [|chunk chunks']; [congruence|].
  rewrite Ha. cbn [add_documents].
  set (chunks := chunk :: chunks') in *.
  destruct (add_documents_succeeds (index_manager v) chunks a
              (repeat (LangDetect.detect_language detect text)
                      (List.length chunks))
              (repeat (filename file) (List.length chunks))
              (range (List.length chunks)))
    as [ids [m' [Hadd Hcons']]];
    try assumption.
  - apply repeat_length.
  - apply repeat_length.
  - apply range_length.
  - congruence.
  - apply range_fits. destruct Hcons as [_ [_ Hcnt]]. lia.
  - lia.
  - rewrite Hadd.
    pose proof (add_documents_dimension (index_manager v) chunks a
                  (repeat (LangDetect.detect_language detect text)
                          (List.length chunks))
                  (repeat (filename file) (List.length chunks))
                  (range (List.length chunks))) as [_ Hdim].
    rewrite Hadd in Hdim. cbn [snd] in Hdim.
    apply add_documents_returned in Hadd as [_ [_ [Hcnt _]]].
    cbv zeta in Hcnt.
    rewrite zip4_length in Hcnt
      by (try apply repeat_length; apply range_length).
    do 2 eexists. split; [reflexivity|].
    cbn [index_manager the_details].
    split; [exact Hcons'|]. split; [congruence|]. split; [lia|].
    split; reflexivity.
Qed.

Lemma process_files_taken settings detect encode fuel d files :
  encoder_of_dimension encode d ->
  0 <= Config.chunk_overlap settings < Config.max_chunk_size settings ->
  beyond_threshold (Config.max_chunk_size settings)
                   (Config.chunk_overlap settings - 1) = inr false ->
  (forall file text,
     In file files -> read file = inr text ->
     (List.length text < fuel)%nat) ->
  forall v,
    consistent (index_manager v) ->
    Faiss.d (index (index_manager v)) = d ->
    doc_counter (index_manager v)
    + Z.of_nat (List.length files) * Z.of_nat fuel <= 2 ^ 63 - 1 ->
    exists v' ds,
      process_files settings detect encode fuel v files = Some v' /\
      consistent (index_manager v') /\
      the_details v' = the_details v ++ ds /\
      map is_success ds = map ingestible files.
Proof.
  intros Henc Hov Hthr.
  induction files as [|file files IH]; intros Hfuel v Hcons Hd Hbound.
  - exists v, []. rewrite app_nil_r.
    split; [reflexivity|]. split; [exact Hcons|]. split; reflexivity.
  - cbn [process_files].
    assert (Hpos : 0 <= Z.of_nat (List.length files) * Z.of_nat fuel)
      by (apply Z.mul_nonneg_nonneg; lia).
    cbn [List.length] in Hbound. rewrite Nat2Z.inj_succ in Hbound.
    destruct (process_file_taken settings detect encode fuel v file d
                Hcons Hd Henc Hov Hthr)
      as [v1 [dl [-> [Hcons1 [Hd1 [Hc1 [Hdet1 Hs1]]]]]]].
    { intros text. apply Hfuel. now left. }
    { lia. }
    destruct (IH (fun f t Hin => Hfuel f t (or_intror Hin)) v1 Hcons1 Hd1)
      as [v' [ds [-> [Hcons' [Hdet' Hs']]]]].
    { lia. }
    exists v', (dl :: ds). split; [reflexivity|]. split; [exact Hcons'|].
    rewrite Hdet', Hdet1, <- app_assoc. split; [reflexivity|].
    cbn [map]. now rewrite Hs1, Hs'.
Qed.

(** X25: the upload does what it is for.  On a consistent manager, with
    settings under which the chunker makes progress (as the defaults)
    and an encoder that gives one vector of the index's dimension per
    chunk, [ingest_documents] returns a response in which exactly the
    [.txt] files with a readable text that is not blank are successes,
    and the manager is consistent afterwards: the next search finds a
    row for every vector. *)
Theorem ingest_takes_every_text_file
        (settings : Config.settings) (detect : str -> LangDetect.detection)
        (encode : list str -> error + Faiss.ndarray) (fuel : nat)
        (m : manager) (files : list upload_file) :
  consistent m ->
  encoder_of_dimension encode (Faiss.d (index m)) ->
  0 <= Config.chunk_overlap settings < Config.max_chunk_size settings ->
  beyond_threshold (Config.max_chunk_size settings)
                   (Config.chunk_overlap settings - 1) = inr false ->
  (forall file text,
     In file files -> read file = inr text ->
     (List.length text < fuel)%nat) ->
  doc_counter m + Z.of_nat (List.length files) * Z.of_nat fuel
  <= 2 ^ 63 - 1 ->
  files <> [] ->
  exists response m',
    ingest_documents settings detect encode fuel m files
    = Some (inr response, m') /\
    consistent m' /\
    map is_success (details response) = map ingestible files.
Proof.
  intros Hcons Henc Hov Hthr Hfuel Hbound Hne.
  unfold ingest_documents. destruct files as [|file files]; [contradiction|].
  destruct (process_files_taken settings detect encode fuel
              (Faiss.d (index m)) (file :: files) Henc Hov Hthr Hfuel
              {| total_chunks := 0; the_details := [];
                 processed_count := 0; index_manager := m |}
              Hcons eq_refl Hbound)
    as [v' [ds [-> [Hcons' [Hdet Hs]]]]].
  do 2 eexists. split; [reflexivity|].
  split; [now apply persist_consistent|].
  cbn [details]. now rewrite Hdet.
Qed.

Lemma ingest_takes_every_text_file_witness :
  exists response m',
    ingest_documents Config.defaults sample_detect sample_encode 60
                     (fresh 2) sample_files
    = Some (inr response, m') /\
    consistent m' /\
    map is_success (details response) = map ingestible sample_files.
Proof.
  apply (ingest_takes_every_text_file
           Config.defaults sample_detect sample_encode 60 (fresh 2)
           sample_files).
  - repeat split.
  - intros texts _. eexists. split; [reflexivity|].
    split; [reflexivity|]. simpl. now rewrite length_map.
  - simpl. lia.
  - reflexivity.
  - intros file text Hin Hread.
    repeat (destruct Hin as [<-|Hin];
            [simpl in Hread; try discriminate;
             injection Hread as <-; vm_compute; lia|]).
    destruct Hin.
  - vm_compute. discriminate.
  - discriminate.
Defined.

End IngestProps.

Module TranslationProps.
Import Py PyStr Errors Translation.

Lemma eqb_refl (a : str) : eqb a a = true.
Proof. unfold eqb. now destruct (list_eq_dec N.eq_dec a a). Qed.

Lemma eqb_eq (a b : str) : eqb a b = true <-> a = b.
Proof.
  unfold eqb. destruct (list_eq_dec N.eq_dec a b); split; congruence.
Qed.

(** X18: a pipeline is loaded once.  After a call of
    [_get_transformer_pipeline] that returned, the dict holds the
    pipeline under the key of the pair, and no later [translate] for
    that pair depends on what loading would do or changes the dict: the
    library's loader is not called again. *)
Theorem pipeline_loaded_once
        (settings : Config.settings) (load : str -> bool)
        (run : str -> str -> option str) (c c' : pipelines)
        (source_lang target_lang p : str) :
  get_transformer_pipeline settings load c source_lang target_lang
  = (Some p, c') ->
  lookup (source_lang ++ of_string "-" ++ target_lang) c' = Some p /\
  forall (load' : str -> bool) (text : str),
    translate settings load' run c' text source_lang target_lang
    = translate settings load run c' text source_lang target_lang /\
    snd (translate settings load' run c' text source_lang target_lang) = c'.
Proof.
  intros H.
  assert (Hl : lookup (source_lang ++ of_string "-" ++ target_lang) c'
               = Some p).
  { unfold get_transformer_pipeline in H.
    destruct (lookup _ c) as [q|] eqn:E.
    - injection H as <- <-. exact E.
    - destruct (eqb source_lang (of_string "en")
                && eqb target_lang (of_string "ja")).
      + destruct (load _); [|discriminate].
        injection H as <- <-. cbn [lookup]. now rewrite eqb_refl.
      + destruct (eqb source_lang (of_string "ja")
                  && eqb target_lang (of_string "en")); [|discriminate].
        destruct (load _); [|discriminate].
        injection H as <- <-. cbn [lookup]. now rewrite eqb_refl. }
  split; [exact Hl|]. intros load' text.
  unfold translate, get_transformer_pipeline. rewrite Hl.
  destruct (negb (truthy text) || eqb source_lang target_lang);
    [now split|].
  destruct (eqb (Config.translation_backend settings) (of_string "none"));
    [now split|].
  destruct (run p text); now split.
Qed.

Lemma pipeline_loaded_once_witness :
  lookup (of_string "en" ++ of_string "-" ++ of_string "ja")
         [(of_string "en-ja", of_string "Helsinki-NLP/opus-mt-en-jap")]
  = Some (of_string "Helsinki-NLP/opus-mt-en-jap") /\
  forall (load' : str -> bool) (text : str),
    translate Config.defaults load' RetrieveSpec.bracket
              [(of_string "en-ja", of_string "Helsinki-NLP/opus-mt-en-jap")]
              text (of_string "en") (of_string "ja")
    = translate Config.defaults (fun _ => true) RetrieveSpec.bracket
                [(of_string "en-ja", of_string "Helsinki-NLP/opus-mt-en-jap")]
                text (of_string "en") (of_string "ja") /\
    snd (translate Config.defaults load' RetrieveSpec.bracket
                   [(of_string "en-ja",
                     of_string "Helsinki-NLP/opus-mt-en-jap")]
                   text (of_string "en") (of_string "ja"))
    = [(of_string "en-ja", of_string "Helsinki-NLP/opus-mt-en-jap")].
Proof.
  apply (pipeline_loaded_once Config.defaults (fun _ => true)
           RetrieveSpec.bracket []).
  reflexivity.
Defined.

Lemma translate_result settings load run c text source_lang target_lang :
  fst (translate settings load run c text source_lang target_lang) = text \/
  exists p,
    run p text
    = Some (fst (translate settings load run c text source_lang target_lang)).
Proof.
  unfold translate.
  destruct (negb (truthy text) || eqb source_lang target_lang);
    [now left|].
  destruct (eqb (Config.translation_backend settings) (of_string "none"));
    [now left|].
  destruct (get_transformer_pipeline _ _ _ _ _) as [[p|] c']; [|now left].
  destruct (run p text) as [t|] eqn:E; [|now left].
  right. now exists p.
Qed.

Lemma translate_loop_spec settings load run source_lang target_lang texts :
  forall c translated,
    exists new,
      fst (translate_loop settings load run c texts source_lang target_lang
                          translated)
      = translated ++ new /\
      Forall2 (fun text t => t = text \/ exists p, run p text = Some t)
              texts new.
Proof.
  induction texts as [|text texts IH]; intros c translated;
    cbn [translate_loop].
  - exists []. rewrite app_nil_r. split; [reflexivity | constructor].
  - pose proof (translate_result settings load run c text
                  source_lang target_lang) as Ht.
    destruct (translate settings load run c text source_lang target_lang)
      as [t c1]. cbn [fst] in Ht.
    destruct (IH c1 (translated ++ [t])) as [new [Hnew Hall]].
    exists (t :: new). rewrite Hnew, <- app_assoc.
    split; [reflexivity|]. now constructor.
Qed.

(** X19: [translate_batch] returns one text per text it was given, in
    the order given, and each is the text itself or what a pipeline
    made of that very text: no text is dropped, doubled or mixed with
    another, whatever fails on the way. *)
Theorem translate_batch_keeps_order
        (settings : Config.settings) (load : str -> bool)
        (run : str -> str -> option str) (c : pipelines)
        (texts : list str) (source_lang target_lang : str) :
  Forall2 (fun text t => t = text \/ exists p, run p text = Some t)
          texts
          (fst (translate_batch settings load run c texts
                                source_lang target_lang)).
Proof.
  unfold translate_batch. destruct (eqb source_lang target_lang).
  - cbn [fst]. induction texts; constructor; [now left | assumption].
  - destruct (translate_loop_spec settings load run source_lang target_lang
                texts c []) as [new [-> Hall]].
    exact Hall.
Qed.

End TranslationProps.

Module RetrieveProps.
Import Py PyStr Errors FaissIndexManager EmbeddingModel Translation Schemas.
Import EndpointSpec RetrieveSpec SnippetProps TranslationProps.
Import Retrieve.

Lemma create_snippet_300 (text : str) :
  exists snippet,
    create_snippet text 300 = inr snippet /\ len snippet <= 303.
Proof.
  unfold create_snippet.
  destruct (truncate_text_length text 300) as [r [Hr Hl]];
    [split; [lia | reflexivity]|].
  exists r. split; [exact Hr | lia].
Qed.

Section WithLibraries.

Variable settings : Config.settings.
Variable load : str -> bool.
Variable run : str -> str -> option str.

Lemma process_result_spec out v res :
  exists d v',
    process_result settings load run out v res = inr v' /\
    document_results v' = document_results v ++ [d] /\
    d_doc_id d = r_doc_id res /\ d_score d = r_score res /\
    d_language d = r_language res /\ d_filename d = r_filename res /\
    len (d_text d) <= 303 /\
    results_translated v' = results_translated v || asks_translation out res /\
    ((Config.translation_backend settings = of_string "none"
      \/ asks_translation out res = false) ->
     d_text d = snippet_of (r_text res) /\
     the_pipelines v' = the_pipelines v).
Proof.
  unfold process_result, asks_translation.
  destruct (translation_target out (r_language res)) as [l|] eqn:Ht.
  - destruct (translate settings load run (the_pipelines v) (r_text res)
                        (r_language res) l) as [t c'] eqn:Etr.
    destruct (create_snippet_300 t) as [snippet [Hs Hl]]. rewrite Hs.
    do 2 eexists. split; [reflexivity|].
    cbn [document_results results_translated the_pipelines d_doc_id d_text
         d_score d_language d_filename].
    rewrite orb_true_r. repeat split; try exact Hl.
    + destruct H as [Hnone|Hno]; [|discriminate].
      unfold translate in Etr. rewrite Hnone, eqb_refl in Etr.
      destruct (negb (truthy (r_text res)) || eqb (r_language res) l);
        injection Etr as <- <-; unfold snippet_of; now rewrite Hs.
    + destruct H as [Hnone|Hno]; [|discriminate].
      unfold translate in Etr. rewrite Hnone, eqb_refl in Etr.
      destruct (negb (truthy (r_text res)) || eqb (r_language res) l);
        now injection Etr as <- <-.
  - destruct (create_snippet_300 (r_text res)) as [snippet [Hs Hl]].
    rewrite Hs. do 2 eexists. split; [reflexivity|].
    cbn [document_results results_translated the_pipelines d_doc_id d_text
         d_score d_language d_filename].
    rewrite orb_false_r. repeat split; try exact Hl.
    unfold snippet_of. now rewrite Hs.
Qed.

Lemma process_results_spec out rs :
  forall v,
    exists ds v',
      process_results settings load run out v rs = inr v' /\
      document_results v' = document_results v ++ ds /\
      map d_doc_id ds = map r_doc_id rs /\
      map d_score ds = map r_score rs /\
      map d_language ds = map r_language rs /\
      map d_filename ds = map r_filename rs /\
      Forall (fun d => len (d_text d) <= 303) ds /\
      results_translated v'
      = results_translated v || existsb (asks_translation out) rs /\
      ((Config.translation_backend settings = of_string "none"
        \/ existsb (asks_translation out) rs = false) ->
       map d_text ds = map (fun res => snippet_of (r_text res)) rs /\
       the_pipelines v' = the_pipelines v).
Proof.
  induction rs as [|res rs IH]; intros v; cbn [process_results].
  - exists [], v. rewrite app_nil_r, orb_false_r.
    repeat split; constructor.
  - destruct (process_result_spec out v res)
      as [d [v1 [-> [Hd [H1 [H2 [H3 [H4 [H5 [H6 H7]]]]]]]]]].
    destruct (IH v1)
      as [ds [v' [-> [Hd' [H1' [H2' [H3' [H4' [H5' [H6' H7']]]]]]]]]].
    exists (d :: ds), v'. split; [reflexivity|].
    rewrite Hd', Hd, <- app_assoc. cbn [map existsb app].
    rewrite H1, H1', H2, H2', H3, H3', H4, H4', H6', H6, orb_assoc.
    repeat split; try reflexivity.
    + now constructor.
    + destruct H as [Hnone|Hno].
      * destruct (H7 (or_introl Hnone)) as [-> _].
        destruct (H7' (or_introl Hnone)) as [-> _]. reflexivity.
      * apply orb_false_iff in Hno as [Hno1 Hno2].
        destruct (H7 (or_intror Hno1)) as [-> _].
        destruct (H7' (or_intror Hno2)) as [-> _]. reflexivity.
    + destruct H as [Hnone|Hno].
      * destruct (H7 (or_introl Hnone)) as [_ <-].
        now destruct (H7' (or_introl Hnone)) as [_ <-].
      * apply orb_false_iff in Hno as [Hno1 Hno2].
        destruct (H7 (or_intror Hno1)) as [_ <-].
        now destruct (H7' (or_intror Hno2)) as [_ <-].
Qed.

End WithLibraries.

(** X20: when the query is embedded and the search returns, so does
    [retrieve_documents], whatever the translation does: the response
    has one result per search result, in the order of the search, with
    its doc id, score, language and filename; every text has at most
    303 characters; and [results_translated] tells whether the request
    named a language that differs from the language of some result. *)
Theorem retrieve_results_follow_search
        (settings : Config.settings) (detect : str -> LangDetect.detection)
        (encode : list str -> error + Faiss.ndarray) (load : str -> bool)
        (run : str -> str -> option str) (m : manager) (c : pipelines)
        (request : retrieve_request) (q : Faiss.vector)
        (search_results : list result) :
  embed_single encode (query request) = inr q ->
  search m q (top_k request) = inr search_results ->
  exists response c',
    retrieve_documents settings detect encode load run m c request
    = (inr response, c') /\
    r_query response = query request /\
    r_query_language response
    = LangDetect.detect_language detect (query request) /\
    map d_doc_id (r_results response) = map r_doc_id search_results /\
    map d_score (r_results response) = map r_score search_results /\
    map d_language (r_results response) = map r_language search_results /\
    map d_filename (r_results response) = map r_filename search_results /\
    Forall (fun d => len (d_text d) <= 303) (r_results response) /\
    r_results_translated response
    = existsb (asks_translation (output_language request)) search_results.
Proof.
  intros Hq Hs. unfold retrieve_documents. rewrite Hq, Hs.
  destruct search_results as [|res rs]; cbv beta iota.
  - do 2 eexists. split; [reflexivity|]. repeat split. constructor.
  - destruct (process_results_spec settings load run
                (output_language request) (res :: rs)
                {| results_translated := false; document_results := [];
                   the_pipelines := c |})
      as [ds [v' [-> [Hd [H1 [H2 [H3 [H4 [H5 [H6 _]]]]]]]]]].
    cbn [document_results results_translated app orb] in Hd, H6.
    do 2 eexists. split; [reflexivity|].
    cbn [r_query r_query_language r_results r_results_translated].
    rewrite Hd, H6. repeat split; assumption.
Qed.

Lemma retrieve_results_follow_search_witness :
  exists response c',
    retrieve_documents Config.defaults sample_detect sample_encode
                       (fun _ => true) bracket Inputs.three_docs []
                       sample_request
    = (inr response, c') /\
    r_query response = query sample_request /\
    r_query_language response
    = LangDetect.detect_language sample_detect (query sample_request) /\
    map d_doc_id (r_results response)
    = [of_string "doc_3"; of_string "doc_1"] /\
    map d_score (r_results response) = [8; 7] /\
    map d_language (r_results response)
    = [of_string "ja"; of_string "en"] /\
    map d_filename (r_results response)
    = [of_string "file2.txt"; of_string "file1.txt"] /\
    Forall (fun d => len (d_text d) <= 303) (r_results response) /\
    r_results_translated response = true.
Proof.
  apply (retrieve_results_follow_search
           Config.defaults sample_detect sample_encode (fun _ => true)
           bracket Inputs.three_docs [] sample_request [7; 1]
           [result_of (Sqlite.Build_row 3 (of_string "doc_3")
                         (of_string "Text 3") (of_string "ja")
                         (of_string "file2.txt") 0) 8;
            result_of (Sqlite.Build_row 1 (of_string "doc_1")
                         (of_string "Text 1") (of_string "en")
                         (of_string "file1.txt") 0) 7]).
  - reflexivity.
  - vm_compute. reflexivity.
Defined.

(** X21: [results_translated] reports the request, not the outcome.
    With the translation backend [none], or when no result has a
    language other than the one asked for, every text returned is the
    snippet of the stored text and the dict of pipelines is as before;
    the flag is still set whenever the request named a language that
    differs from the language of some result. *)
Theorem retrieve_flag_reports_request
        (settings : Config.settings) (detect : str -> LangDetect.detection)
        (encode : list str -> error + Faiss.ndarray) (load : str -> bool)
        (run : str -> str -> option str) (m : manager) (c : pipelines)
        (request : retrieve_request) (q : Faiss.vector)
        (search_results : list result) :
  embed_single encode (query request) = inr q ->
  search m q (top_k request) = inr search_results ->
  Config.translation_backend settings = of_string "none"
  \/ existsb (asks_translation (output_language request)) search_results
     = false ->
  exists response,
    retrieve_documents settings detect encode load run m c request
    = (inr response, c) /\
    map d_text (r_results response)
    = map (fun res => snippet_of (r_text res)) search_results /\
    r_results_translated response
    = existsb (asks_translation (output_language request)) search_results.
Proof.
  intros Hq Hs Hcase. unfold retrieve_documents. rewrite Hq, Hs.
  destruct search_results as [|res rs]; cbv beta iota.
  - eexists. split; [reflexivity|]. now split.
  - destruct (process_results_spec settings load run
                (output_language request) (res :: rs)
                {| results_translated := false; document_results := [];
                   the_pipelines := c |})
      as [ds [v' [-> [Hd [_ [_ [_ [_ [_ [H6 H7]]]]]]]]]].
    destruct (H7 Hcase) as [Ht Hc].
    cbn [document_results results_translated the_pipelines app orb]
      in Hd, H6, Hc.
    eexists. rewrite Hc. split; [reflexivity|].
    cbn [r_results r_results_translated]. rewrite Hd, H6. now split.
Qed.


Lemma retrieve_flag_reports_request_witness :
  exists response,
    retrieve_documents
      {| Config.translation_backend := of_string "none";
         Config.translation_model_en_ja := of_string "Helsinki-NLP/opus-mt-en-jap";
         Config.translation_model_ja_en := of_string "Helsinki-NLP/opus-mt-jap-en";
         Config.max_chunk_size := 1000;
         Config.chunk_overlap := 200 |}
      sample_detect sample_encode (fun _ => true) bracket
      Inputs.three_docs [] sample_request
    = (inr response, []) /\
    map d_text (r_results response)
    = [snippet_of (of_string "Text 3"); snippet_of (of_string "Text 1")] /\
    r_results_translated response = true.
Proof.
  apply (retrieve_flag_reports_request
           {| Config.translation_backend := of_string "none";
              Config.translation_model_en_ja :=
                of_string "Helsinki-NLP/opus-mt-en-jap";
              Config.translation_model_ja_en :=
                of_string "Helsinki-NLP/opus-mt-jap-en";
              Config.max_chunk_size := 1000;
              Config.chunk_overlap := 200 |}
           sample_detect sample_encode (fun _ => true) bracket
           Inputs.three_docs [] sample_request [7; 1]
           [result_of (Sqlite.Build_row 3 (of_string "doc_3")
                         (of_string "Text 3") (of_string "ja")
                         (of_string "file2.txt") 0) 8;
            result_of (Sqlite.Build_row 1 (of_string "doc_1")
                         (of_string "Text 1") (of_string "en")
                         (of_string "file1.txt") 0) 7]).
  - reflexivity.
  - vm_compute. reflexivity.
  - left. reflexivity.
Defined.

End RetrieveProps.
